(** * blender-remesh: the decision layer of [remesh.py]

    A shallow embedding of the mesh-reduction controller of [remesh.py]
    (classification, strategy catalog, strategy loop, post-processing
    decision, command-line handling) and the properties its specification
    states about it.

    Modelling conventions.
    - Blender ([bpy], [bmesh]) is an external engine.  It is a type class
      [Engine]: a type of scene states, the observations the script reads
      from the object, and one transition function [exec] for the calls the
      script makes.  Every call may raise; the scene it leaves behind is kept.
      Reading the object (its type, its polygons, the [bmesh] copy that
      [analyze_mesh_quality] inspects) is an observation of the scene and
      changes nothing.
    - Python code that threads the scene and may raise lives in the monad
      [M]: state passing with a result that is a value or an exception.
    - A float argument of the script ([target_reduction]) is the rational
      [Q] it denotes.  The ratios of the classification, the tests of the
      strategy loop, the percentages printed and the parameters handed to
      the engine are computed on exact rationals: these comparisons have a
      face count or a ratio of two counts on one side and a two-digit
      decimal constant on the other, where exact and binary64 arithmetic
      decide alike.  Where rounding decides the outcome it is binary64, as
      specified by [SpecFloat] with a precision of 53 bits: the product that
      [int()] truncates into [target_faces], and the two percentages that
      [process_obj_file] compares for its verdict.
    - The state also carries three logs: the engine calls made (with whether
      each raised), the lines [analyze_mesh_quality] and
      [intelligent_mesh_reduction] print, and one record per iteration of the
      strategy loop.
    - In the driver, [float()] and the per-file steps ([process_obj_file],
      [export_obj_file], the directory listing) are parameters. *)

From Stdlib Require Import QArith ZArith List String Ascii Bool Lia.
From Stdlib Require Import Floats.SpecFloat.
Import ListNotations.

Local Open Scope string_scope.
Local Open Scope list_scope.
Local Open Scope nat_scope.

(** ** Python numbers *)

Definition Qnat (n : nat) : Q := inject_Z (Z.of_nat n).

(** [x < y] on floats. *)
Definition Qltb (x y : Q) : bool := negb (Qle_bool y x).

(** [max(a, b)] and [min(a, b)] as Python evaluates them: the first argument
    is kept unless the second is strictly better. *)
Definition py_max (a b : Q) : Q := if Qltb a b then b else a.
Definition py_min (a b : Q) : Q := if Qltb b a then b else a.

(** [int(x)] on an exact rational: truncation toward zero. *)
Definition py_int (x : Q) : Z := Z.quot (Qnum x) (Zpos (Qden x)).

(** ** Python floats: binary64 *)

Definition float : Type := spec_float.
Definition prec : Z := 53.
Definition emax : Z := 1024.

(** The float nearest to [num / den] (ties to even): what [float()] gives
    for a decimal literal, and what [/] gives for two integers. *)
Definition float_of_ratio (num : Z) (den : positive) : float :=
  match num with
  | Z0 => S754_zero false
  | Zpos n =>
      let '(m, e, l) := SFdiv_core_binary prec emax (Zpos n) 0 (Zpos den) 0 in
      binary_round_aux prec emax false m e l
  | Zneg n =>
      let '(m, e, l) := SFdiv_core_binary prec emax (Zpos n) 0 (Zpos den) 0 in
      binary_round_aux prec emax true m e l
  end.

(** The float a rational argument of the script denotes: itself when it is
    a binary64 number, the nearest one otherwise. *)
Definition float_of_Q (q : Q) : float := float_of_ratio (Qnum q) (Qden q).

(** [float(n)] for an integer, rounded to nearest. *)
Definition float_of_Z (z : Z) : float := binary_normalize prec emax z 0 false.

Definition fmul : float -> float -> float := SFmul prec emax.
Definition fsub : float -> float -> float := SFsub prec emax.

(** ** The engine interface *)

Inductive Value : Type :=
| VEnum (s : string)
| VNum (q : Q)
| VInt (z : Z)
| VBool (b : bool)
| VRadians (degrees : Z).            (* math.radians(degrees) *)

(** The calls into [bpy] made by the primitives and the post-processor.
    [ModifierSet] writes an attribute of the modifier the enclosing function
    has just created; [ModifierApply] applies that modifier. *)
Inductive Op : Type :=
| SetActive                          (* bpy.context.view_layer.objects.active = obj *)
| ModeSet (mode : string)            (* bpy.ops.object.mode_set(mode=...) *)
| ModifiersClear                     (* obj.modifiers.clear() *)
| ModifiersNew (name type : string)  (* obj.modifiers.new(name=..., type=...) *)
| ModifierSet (attr : string) (v : Value)
| ViewLayerUpdate                    (* bpy.context.view_layer.update() *)
| ModifierApply (name : string)      (* bpy.ops.object.modifier_apply(modifier=m.name) *)
| SelectAll (action : string)        (* bpy.ops.mesh.select_all(action=...) *)
| NormalsMakeConsistent (inside : bool)
| ShadeSmooth.                       (* bpy.ops.object.shade_smooth() *)

Class Engine (World : Type) : Type := {
  (** [o.type]; [None] when reading [o.name] or [o.type] raises
      [ReferenceError] or [AttributeError]. *)
  obj_type : World -> option string;
  (** [len(f.verts)] for every polygon of [obj.data]. *)
  face_verts : World -> list nat;
  (** [len(mesh.vertices)]. *)
  vert_count : World -> nat;
  (** [e.calc_length()] for every edge. *)
  edge_lengths : World -> list Q;
  (** One engine call: whether it raised, and the scene afterwards. *)
  exec : Op -> World -> bool * World
}.

(** ** Exceptions, results, logs *)

Inductive Exn : Type :=
| EngineError (op : Op)
| ZeroDivisionError
| OverflowError                      (* int() of an infinity; float() of a huge int *)
| ValueError.                        (* int() of a NaN *)

Inductive Res (A : Type) : Type :=
| Ok (a : A)
| Raise (e : Exn).
Arguments Ok {A} a.
Arguments Raise {A} e.

(** One iteration of the strategy loop.  [succeeded] is what the strategy
    function returned; [effective] is whether the iteration reached the
    assignment [success = True]. *)
Record Attempt : Type := {
  strategy_name : string;
  faces_before : nat;
  faces_after : nat;
  succeeded : bool;
  effective : bool
}.

Record MeshMetrics : Type := {
  face_count : nat;
  vertex_count : nat;
  quad_ratio : Q;
  vert_face_ratio : Q;
  avg_edge_length : Q
}.

(** Lines printed by [analyze_mesh_quality] and [intelligent_mesh_reduction]
    (the diagnostic lines of the primitives are left out). *)
Inductive Msg : Type :=
| MsgInvalid
| MsgStart (original_faces : nat)
| MsgSkip
| MsgMetrics (m : MeshMetrics)
| MsgCategory (mesh_type : string)
| MsgStrategy (i : nat) (name : string)
| MsgResult (faces_after : nat) (reduction : Q)
| MsgStop
| MsgPostProcess
| MsgReduced (original_faces final_faces : nat) (final_reduction : Q)
| MsgUnchanged.

(** The strategy closures of [intelligent_mesh_reduction], as data: which
    primitive a lambda calls and with which arguments.  [AndThen a b] is the
    Python expression [a() and b()]. *)
Inductive Strategy : Type :=
| Quadric (target_reduction : Q) (preserve_sharp : bool)
| Unsubdiv (iterations : Z)
| Planar (angle_threshold : Z)
| SubSurfDecimate (target_reduction : Q)
| AndThen (first second : Strategy).

Section Controller.

Context {World : Type} {engine : Engine World}.

Record St : Type := {
  world : World;
  calls : list (Op * bool);
  stdout : list Msg;
  attempts : list Attempt
}.

Definition M (A : Type) : Type := St -> Res A * St.

Definition ret {A} (a : A) : M A := fun s => (Ok a, s).

Definition bind {A B} (m : M A) (k : A -> M B) : M B :=
  fun s => match m s with
           | (Ok a, s') => k a s'
           | (Raise e, s') => (Raise e, s')
           end.

Definition raise {A} (e : Exn) : M A := fun s => (Raise e, s).

(** [try: m  except Exception: handler]. *)
Definition try_except {A} (m : M A) (handler : Exn -> M A) : M A :=
  fun s => match m s with
           | (Ok a, s') => (Ok a, s')
           | (Raise e, s') => handler e s'
           end.

Notation "x <- m ;; k" := (bind m (fun x => k))
  (at level 61, m at next level, right associativity).
Notation "m ;; k" := (bind m (fun _ => k))
  (at level 61, right associativity).

Definition gets {A} (f : World -> A) : M A := fun s => (Ok (f (world s)), s).

Definition put_call (op : Op) (raised : bool) (w : World) (s : St) : St :=
  {| world := w; calls := calls s ++ [(op, raised)];
     stdout := stdout s; attempts := attempts s |}.

Definition put_msg (m : Msg) (s : St) : St :=
  {| world := world s; calls := calls s;
     stdout := stdout s ++ [m]; attempts := attempts s |}.

Definition put_attempt (a : Attempt) (s : St) : St :=
  {| world := world s; calls := calls s;
     stdout := stdout s; attempts := attempts s ++ [a] |}.

Definition call (op : Op) : M unit :=
  fun s => let (raised, w) := exec op (world s) in
           (if raised then Raise (EngineError op) else Ok tt, put_call op raised w s).

Definition print (m : Msg) : M unit := fun s => (Ok tt, put_msg m s).

(** [len(obj.data.polygons)]. *)
Definition polygons (w : World) : nat := List.length (face_verts w).

(** ** [is_valid_obj] and [analyze_mesh_quality] *)

Definition is_valid_obj (w : World) : bool :=
  match obj_type w with
  | Some t => String.eqb t "MESH" && (0 <? polygons w)
  | None => false
  end.

Definition Qsum (l : list Q) : Q := fold_left Qplus l 0%Q.

Definition mesh_metrics (w : World) : MeshMetrics :=
  let face_count := polygons w in
  let vert_count := vert_count w in
  let quad_faces := List.length (filter (Nat.eqb 4) (face_verts w)) in
  let edges := edge_lengths w in
  {| face_count := face_count;
     vertex_count := vert_count;
     quad_ratio := if 0 <? face_count then (Qnat quad_faces / Qnat face_count)%Q else 0%Q;
     vert_face_ratio := if 0 <? face_count then (Qnat vert_count / Qnat face_count)%Q else 0%Q;
     avg_edge_length := match edges with
                        | [] => 0%Q
                        | _ => (Qsum edges / Qnat (List.length edges))%Q
                        end |}.

Definition analyze_mesh_quality : M string :=
  valid <- gets is_valid_obj ;;
  if negb valid then ret "unknown" else
  m <- gets mesh_metrics ;;
  print (MsgMetrics m) ;;
  if Qltb 0.7 (quad_ratio m) then ret "structured"
  else if Qltb 0.8 (vert_face_ratio m) then ret "dense"
  else ret "organic".

(** ** The decimation primitives *)

Definition quadric_body (target_reduction : Q) (preserve_sharp : bool) : M bool :=
  call SetActive ;;
  call (ModeSet "OBJECT") ;;
  call ModifiersClear ;;
  original_faces <- gets polygons ;;
  if original_faces <? 4 then ret false else
  call (ModifiersNew "QuadricDecimate" "DECIMATE") ;;
  call (ModifierSet "decimate_type" (VEnum "COLLAPSE")) ;;
  call (ModifierSet "ratio" (VNum (py_max 0.1 (1 - target_reduction)))) ;;
  call (ModifierSet "use_collapse_triangulate" (VBool false)) ;;
  (if preserve_sharp then call (ModifierSet "angle_limit" (VRadians 15)) else ret tt) ;;
  call ViewLayerUpdate ;;
  call (ModifierApply "QuadricDecimate") ;;
  new_faces <- gets polygons ;;
  ret (new_faces <? original_faces).

Definition try_quadric_decimate (target_reduction : Q) (preserve_sharp : bool) : M bool :=
  try_except (quadric_body target_reduction preserve_sharp) (fun _ => ret false).

Definition unsubdiv_body (iterations : Z) : M bool :=
  call SetActive ;;
  call (ModeSet "OBJECT") ;;
  original_faces <- gets polygons ;;
  call ModifiersClear ;;
  call (ModifiersNew "UnsubDiv" "DECIMATE") ;;
  call (ModifierSet "decimate_type" (VEnum "UNSUBDIV")) ;;
  call (ModifierSet "iterations" (VInt iterations)) ;;
  call ViewLayerUpdate ;;
  call (ModifierApply "UnsubDiv") ;;
  new_faces <- gets polygons ;;
  ret (new_faces <? original_faces).

Definition try_unsubdiv_decimate (iterations : Z) : M bool :=
  try_except (unsubdiv_body iterations) (fun _ => ret false).

Definition planar_body (angle_threshold : Z) : M bool :=
  call SetActive ;;
  call (ModeSet "OBJECT") ;;
  original_faces <- gets polygons ;;
  call ModifiersClear ;;
  call (ModifiersNew "PlanarDecimate" "DECIMATE") ;;
  call (ModifierSet "decimate_type" (VEnum "DISSOLVE")) ;;
  call (ModifierSet "angle_limit" (VRadians angle_threshold)) ;;
  call (ModifierSet "use_dissolve_boundaries" (VBool false)) ;;
  call ViewLayerUpdate ;;
  call (ModifierApply "PlanarDecimate") ;;
  new_faces <- gets polygons ;;
  ret (new_faces <? original_faces).

Definition try_planar_decimate (angle_threshold : Z) : M bool :=
  try_except (planar_body angle_threshold) (fun _ => ret false).

Definition subsurf_body (target_reduction : Q) : M bool :=
  original_faces <- gets polygons ;;
  call (ModifiersNew "SubSurf" "SUBSURF") ;;
  call (ModifierSet "levels" (VInt 1)) ;;
  call (ModifierSet "render_levels" (VInt 1)) ;;
  call (ModifierApply "SubSurf") ;;
  subdivided_faces <- gets polygons ;;
  (if subdivided_faces =? 0 then raise ZeroDivisionError else ret tt) ;;
  let adjusted_reduction :=
    (1 - (Qnat original_faces * (1 - target_reduction)) / Qnat subdivided_faces)%Q in
  let adjusted_reduction := py_max 0.1 (py_min 0.9 adjusted_reduction) in
  try_quadric_decimate adjusted_reduction true.

Definition apply_subdivision_surface_then_decimate (target_reduction : Q) : M bool :=
  try_except (subsurf_body target_reduction) (fun _ => ret false).

(** ** The post-processor *)

Definition smart_smooth_body : M bool :=
  call SetActive ;;
  call (ModeSet "EDIT") ;;
  call (SelectAll "SELECT") ;;
  call (NormalsMakeConsistent false) ;;
  call (ModeSet "OBJECT") ;;
  call ShadeSmooth ;;
  call (ModifiersNew "EdgeSplit" "EDGE_SPLIT") ;;
  call (ModifierSet "split_angle" (VRadians 30)) ;;
  call (ModifierApply "EdgeSplit") ;;
  ret true.

Definition apply_smart_smooth : M bool :=
  try_except smart_smooth_body (fun _ => call (ModeSet "OBJECT") ;; ret false).

(** ** The strategy catalog *)

Fixpoint run_strategy (f : Strategy) : M bool :=
  match f with
  | Quadric target_reduction preserve_sharp =>
      try_quadric_decimate target_reduction preserve_sharp
  | Unsubdiv iterations => try_unsubdiv_decimate iterations
  | Planar angle_threshold => try_planar_decimate angle_threshold
  | SubSurfDecimate target_reduction =>
      apply_subdivision_surface_then_decimate target_reduction
  | AndThen first second =>
      ok <- run_strategy first ;;
      if ok then run_strategy second else ret false
  end.

Definition strategies (mesh_type : string) (target_reduction : Q)
  : list (string * Strategy) :=
  if String.eqb mesh_type "structured" then
    [ ("Conservative Quadric", Quadric (target_reduction * 0.7) true);
      ("Un-Subdivide", Unsubdiv 2);
      ("Standard Quadric", Quadric target_reduction true);
      ("Planar Dissolve", Planar 5) ]
  else if String.eqb mesh_type "dense" then
    [ ("SubSurf + Decimate", SubSurfDecimate target_reduction);
      ("Progressive Quadric", Quadric (target_reduction * 0.8) true);
      ("Un-Subdivide", Unsubdiv 3);
      ("Aggressive Quadric", Quadric target_reduction false) ]
  else
    [ ("Quality Quadric", Quadric (target_reduction * 0.6) true);
      ("SubSurf + Decimate", SubSurfDecimate target_reduction);
      ("Planar + Quadric", AndThen (Planar 3) (Quadric (target_reduction * 0.5) true));
      ("Standard Quadric", Quadric target_reduction true) ].

(** ** The strategy loop *)

(** [faces_after < faces_before * 0.95]. *)
Definition is_effective (faces_before faces_after : nat) : bool :=
  Qltb (Qnat faces_after) (Qnat faces_before * 0.95).

(** [target_faces * 0.7 <= faces_after <= target_faces * 1.3]. *)
Definition close_to_target (target_faces : Z) (faces_after : nat) : bool :=
  Qle_bool (inject_Z target_faces * 0.7) (Qnat faces_after)
  && Qle_bool (Qnat faces_after) (inject_Z target_faces * 1.3).

(** [num / den * 100] with an integer numerator and denominator. *)
Definition percent (num : Z) (den : nat) : M Q :=
  if den =? 0 then raise ZeroDivisionError
  else ret (inject_Z num / Qnat den * 100)%Q.

(** The record of one iteration, taken when the strategy function has
    returned (it is bookkeeping of the model, not an action of the script). *)
Definition attempt_record (name : string) (faces_before faces_after : nat)
    (ok : bool) : Attempt :=
  {| strategy_name := name;
     faces_before := faces_before;
     faces_after := faces_after;
     succeeded := ok;
     effective := ok && is_effective faces_before faces_after |}.

Definition note_attempt (name : string) (faces_before : nat) (ok : bool) : M unit :=
  fun s => (Ok tt, put_attempt (attempt_record name faces_before (polygons (world s)) ok) s).

Fixpoint strategy_loop (target_faces : Z) (i : nat)
    (strategies : list (string * Strategy)) (success : bool) : M bool :=
  match strategies with
  | [] => ret success
  | (strategy_name, strategy_func) :: rest =>
      print (MsgStrategy i strategy_name) ;;
      faces_before <- gets polygons ;;
      ok <- run_strategy strategy_func ;;
      note_attempt strategy_name faces_before ok ;;
      if ok then
        faces_after <- gets polygons ;;
        reduction <- percent (Z.of_nat faces_before - Z.of_nat faces_after) faces_before ;;
        print (MsgResult faces_after reduction) ;;
        if is_effective faces_before faces_after then
          if close_to_target target_faces faces_after then
            print MsgStop ;;
            ret true
          else strategy_loop target_faces (S i) rest true
        else strategy_loop target_faces (S i) rest success
      else strategy_loop target_faces (S i) rest success
  end.

(** ** [intelligent_mesh_reduction] *)

(** [int(x)] on a float: truncation toward zero; an infinity and a NaN
    raise. *)
Definition int_of_float (x : float) : Res Z :=
  match x with
  | S754_zero _ => Ok 0%Z
  | S754_finite negative m e =>
      let magnitude :=
        match e with
        | Z0 => Zpos m
        | Zpos _ => (Zpos m * 2 ^ e)%Z
        | Zneg p => (Zpos m / 2 ^ Zpos p)%Z
        end in
      Ok (if negative then (- magnitude)%Z else magnitude)
  | S754_infinity _ => Raise OverflowError
  | S754_nan => Raise ValueError
  end.

(** The integer operand of a mixed product, converted as Python does: an
    integer beyond the range of the floats raises. *)
Definition float_of_int (z : Z) : Res float :=
  match float_of_Z z with
  | S754_infinity _ => Raise OverflowError
  | x => Ok x
  end.

(** [int(original_faces * (1 - target_reduction))]. *)
Definition target_faces_of (original_faces : nat) (target_reduction : Q) : Res Z :=
  match float_of_int (Z.of_nat original_faces) with
  | Ok faces =>
      int_of_float (fmul faces (fsub (float_of_Z 1) (float_of_Q target_reduction)))
  | Raise e => Raise e
  end.

(** A pure computation that may raise, run in the monad. *)
Definition lift {A} (r : Res A) : M A := fun s => (r, s).

Definition intelligent_mesh_reduction (target_reduction : Q) : M bool :=
  valid <- gets is_valid_obj ;;
  if negb valid then print MsgInvalid ;; ret false else
  original_faces <- gets polygons ;;
  print (MsgStart original_faces) ;;
  if original_faces <? 100 then print MsgSkip ;; ret true else
  mesh_type <- analyze_mesh_quality ;;
  target_faces <- lift (target_faces_of original_faces target_reduction) ;;
  print (MsgCategory mesh_type) ;;
  success <- strategy_loop target_faces 1 (strategies mesh_type target_reduction) false ;;
  (if success then print MsgPostProcess ;; _ <- apply_smart_smooth ;; ret tt
   else ret tt) ;;
  final_faces <- gets polygons ;;
  final_reduction <- percent (Z.of_nat original_faces - Z.of_nat final_faces) original_faces ;;
  if final_faces <? original_faces then
    print (MsgReduced original_faces final_faces final_reduction) ;;
    ret true
  else
    print MsgUnchanged ;;
    ret false.

Definition init (w : World) : St :=
  {| world := w; calls := []; stdout := []; attempts := [] |}.

End Controller.

Arguments St World : clear implicits.
Arguments M World A : clear implicits.

Notation "x <- m ;; k" := (bind m (fun x => k))
  (at level 61, m at next level, right associativity).
Notation "m ;; k" := (bind m (fun _ => k))
  (at level 61, right associativity).

(** ** Vocabulary of the properties *)

(** Some call of a stretch of the call log raised. *)
Definition raised_in (cs : list (Op * bool)) : bool := existsb snd cs.

(** The calls that only [apply_smart_smooth] makes. *)
Definition postprocess_op (op : Op) : bool :=
  match op with
  | ModeSet mode => String.eqb mode "EDIT"
  | SelectAll _ | NormalsMakeConsistent _ | ShadeSmooth => true
  | ModifiersNew name _ | ModifierApply name => String.eqb name "EdgeSplit"
  | ModifierSet attr _ => String.eqb attr "split_angle"
  | _ => false
  end.

Definition decimation_calls (cs : list (Op * bool)) : Prop :=
  Forall (fun c => postprocess_op (fst c) = false) cs.

(** The flag of an attempt is the test the loop makes. *)
Definition well_logged (a : Attempt) : Prop :=
  effective a = succeeded a && is_effective (faces_before a) (faces_after a).

(** Consecutive attempts: each starts from the face count the previous one
    left. *)
Fixpoint chained (start : nat) (log : list Attempt) : Prop :=
  match log with
  | [] => True
  | a :: rest => faces_before a = start /\ chained (faces_after a) rest
  end.

Fixpoint last_faces (start : nat) (log : list Attempt) : nat :=
  match log with
  | [] => start
  | a :: rest => last_faces (faces_after a) rest
  end.

(** The attempt that ends the loop early. *)
Definition stops (target_faces : Z) (a : Attempt) : bool :=
  effective a && close_to_target target_faces (faces_after a).

Section Tracking.

Context {World : Type} {engine : Engine World}.

(** [s'] differs from [s] by the engine calls [cs] (and the scene): nothing
    was printed and no attempt was recorded. *)
Definition quiet (s s' : St World) (cs : list (Op * bool)) : Prop :=
  calls s' = calls s ++ cs /\ stdout s' = stdout s /\ attempts s' = attempts s.

(** A computation that makes decimation calls only and that, when one of
    them raised, either raises itself or returns a value in [Bad]. *)
Definition tracked {A} (Bad : A -> Prop) (m : M World A) : Prop :=
  forall s, exists cs,
    quiet s (snd (m s)) cs /\ decimation_calls cs /\
    (raised_in cs = true ->
     match fst (m s) with Raise _ => True | Ok a => Bad a end).

(** A primitive: it always returns a boolean, and [False] when a call
    raised. *)
Definition primitive (m : M World bool) : Prop :=
  forall s, exists b s' cs,
    m s = (Ok b, s') /\ quiet s s' cs /\ decimation_calls cs /\
    (raised_in cs = true -> b = false).

(** What a run of the strategy loop from [s] with the flag [success] leaves:
    the result [r], the state [s'], the attempts [new], the engine calls [cs]
    and the printed lines [out]. *)
Definition loop_post (target_faces : Z) (success : bool) (s : St World)
    (r : Res bool) (s' : St World)
    (new : list Attempt) (cs : list (Op * bool)) (out : list Msg) : Prop :=
  attempts s' = attempts s ++ new /\
  calls s' = calls s ++ cs /\ decimation_calls cs /\
  stdout s' = stdout s ++ out /\ ~ In MsgPostProcess out /\
  Forall well_logged new /\
  chained (polygons (world s)) new /\
  polygons (world s') = last_faces (polygons (world s)) new /\
  (forall pre a post, new = pre ++ a :: post -> stops target_faces a = true -> post = []) /\
  match r with
  | Ok b => b = success || existsb effective new
  | Raise e =>
      e = ZeroDivisionError /\
      exists a, In a new /\ succeeded a = true /\ faces_before a = 0
  end.

(** The part of [intelligent_mesh_reduction] that follows the strategy
    loop: the post-processing decision and the final statistics. *)
Definition after_loop (original_faces : nat) (success : bool) : M World bool :=
  (if success then print MsgPostProcess ;; _ <- apply_smart_smooth ;; ret tt
   else ret tt) ;;
  final_faces <- gets polygons ;;
  final_reduction <- percent (Z.of_nat original_faces - Z.of_nat final_faces) original_faces ;;
  if final_faces <? original_faces then
    print (MsgReduced original_faces final_faces final_reduction) ;;
    ret true
  else
    print MsgUnchanged ;;
    ret false.

(** The category [analyze_mesh_quality] gives a valid mesh. *)
Definition category (w : World) : string :=
  let m := mesh_metrics w in
  if Qltb 0.7 (quad_ratio m) then "structured"
  else if Qltb 0.8 (vert_face_ratio m) then "dense"
  else "organic".

(** The state in which the strategy loop of a run from [s] starts. *)
Definition loop_entry (s : St World) : St World :=
  put_msg (MsgCategory (category (world s)))
    (put_msg (MsgMetrics (mesh_metrics (world s)))
       (put_msg (MsgStart (polygons (world s))) s)).

End Tracking.

(** ** A scripted engine

    A scene whose modifier applications follow a script: each
    [ModifierApply] consumes the next scripted effect.  It fixes concrete
    runs of the controller. *)

Inductive Effect : Type :=
| Becomes (faces : nat)      (* the mesh now has this many faces *)
| Unchanged                  (* the modifier had no effect *)
| Fails.                     (* the engine raised *)

Record Scene : Type := {
  scene_type : option string;
  scene_faces : list nat;
  scene_verts : nat;
  scene_edges : list Q;
  scene_script : list Effect
}.

Definition set_faces (faces : list nat) (script : list Effect) (w : Scene) : Scene :=
  {| scene_type := scene_type w; scene_faces := faces; scene_verts := scene_verts w;
     scene_edges := scene_edges w; scene_script := script |}.

Definition scene_exec (op : Op) (w : Scene) : bool * Scene :=
  match op with
  | ModifierApply _ =>
      match scene_script w with
      | [] => (false, w)
      | Becomes n :: script => (false, set_faces (repeat 3 n) script w)
      | Unchanged :: script => (false, set_faces (scene_faces w) script w)
      | Fails :: script => (true, set_faces (scene_faces w) script w)
      end
  | _ => (false, w)
  end.

#[export] Instance scripted_engine : Engine Scene := {
  obj_type := scene_type;
  face_verts := scene_faces;
  vert_count := scene_verts;
  edge_lengths := scene_edges;
  exec := scene_exec
}.

(** A mesh object with [faces] polygons of [corners] corners each. *)
Definition mesh (corners faces verts : nat) (script : list Effect) : Scene :=
  {| scene_type := Some "MESH"; scene_faces := repeat corners faces;
     scene_verts := verts; scene_edges := []; scene_script := script |}.

(** ** The command-line driver: [parse_arguments] and [main] *)

(** A Python float as [float()] can produce it. *)
Inductive PyFloat : Type :=
| Finite (q : Q)
| Infinite (negative : bool)
| NaN.

(** [0.0 <= x <= 1.0]. *)
Definition in_unit_range (x : PyFloat) : bool :=
  match x with
  | Finite q => Qle_bool 0 q && Qle_bool q 1
  | _ => false
  end.

Inductive DriverMsg : Type :=
| MsgReadReduction (v : PyFloat)
| MsgInvalidReduction (arg : string)
| MsgRangeError (v : PyFloat)
| MsgBanner (target : PyFloat)
| MsgNoFiles
| MsgFound (n : nat)
| MsgFileOk (i n : nat)
| MsgFileExportFailed (i n : nat)
| MsgFileFailed (i n : nat)
| MsgFileError (i n : nat)
| MsgSummary (successful n : nat).

(** How [main] ends: it returns, or the error of [os.makedirs] leaves it. *)
Inductive Exit : Type := Returned | MakedirsRaised.

Definition is_flag (arg : string) : bool :=
  String.eqb arg "--reduction" || String.eqb arg "-r".

(** The arguments that follow an occurrence of the flag. *)
Fixpoint flag_values (argv : list string) : list string :=
  match argv with
  | [] => []
  | arg :: rest =>
      if is_flag arg then
        match rest with
        | value :: _ => value :: flag_values rest
        | [] => []
        end
      else flag_values rest
  end.

Section Driver.

(** Python's builtin [float()] on a string; [None] is [ValueError]. *)
Variable float_of_string : string -> option PyFloat.

(** The file system and the Blender session over a batch, and the per-file
    steps of [main] as transitions on it.  [process_obj_file] may raise
    ([None]); [export_obj_file] is given the input path, from which [main]
    derives the output path.  [makedirs] is [os.makedirs(output_dir)]:
    whether it raised, and the state it leaves. *)
Variable Batch : Type.
Variable output_dir_exists : Batch -> bool.
Variable makedirs : Batch -> bool * Batch.
Variable glob_obj_files : Batch -> list string.
Variable process_obj_file : string -> PyFloat -> Batch -> option bool * Batch.
Variable export_obj_file : string -> Batch -> bool * Batch.

Fixpoint parse_loop (argv : list string) (TARGET_REDUCTION : PyFloat)
    (out : list DriverMsg) : PyFloat * list DriverMsg :=
  match argv with
  | [] => (TARGET_REDUCTION, out)
  | arg :: rest =>
      if is_flag arg then
        match rest with
        | value :: _ =>
            match float_of_string value with
            | Some v => parse_loop rest v (out ++ [MsgReadReduction v])
            | None => parse_loop rest TARGET_REDUCTION (out ++ [MsgInvalidReduction value])
            end
        | [] => parse_loop rest TARGET_REDUCTION out
        end
      else parse_loop rest TARGET_REDUCTION out
  end.

Definition parse_arguments (argv : list string) : PyFloat * list DriverMsg :=
  parse_loop argv (Finite 0.5) [].

Fixpoint process_files (n i : nat) (files : list string) (TARGET_REDUCTION : PyFloat)
    (successful_files : nat) (b : Batch) : nat * list DriverMsg * Batch :=
  match files with
  | [] => (successful_files, [], b)
  | filepath :: rest =>
      let '(successful_files, line, b) :=
        match process_obj_file filepath TARGET_REDUCTION b with
        | (Some true, b1) =>
            let (exported, b2) := export_obj_file filepath b1 in
            if exported then (S successful_files, MsgFileOk i n, b2)
            else (successful_files, MsgFileExportFailed i n, b2)
        | (Some false, b1) => (successful_files, MsgFileFailed i n, b1)
        | (None, b1) => (successful_files, MsgFileError i n, b1)
        end in
      let '(successful_files, out, b) :=
        process_files n (S i) rest TARGET_REDUCTION successful_files b in
      (successful_files, line :: out, b)
  end.

(** [if not os.path.exists(output_dir): os.makedirs(output_dir)]: whether
    it raised, and the state it leaves. *)
Definition ensure_output_dir (b : Batch) : bool * Batch :=
  if output_dir_exists b then (false, b) else makedirs b.

(** The batch with a validated reduction: the part of [main] after the
    range check.  The error of [os.makedirs] is not caught. *)
Definition run_batch (TARGET_REDUCTION : PyFloat) (b : Batch)
  : Exit * list DriverMsg * Batch :=
  let (raised, b) := ensure_output_dir b in
  if raised then (MakedirsRaised, [MsgBanner TARGET_REDUCTION], b) else
  let obj_files := glob_obj_files b in
  match obj_files with
  | [] => (Returned, [MsgBanner TARGET_REDUCTION; MsgNoFiles], b)
  | _ =>
      let n := List.length obj_files in
      let '(successful_files, out, b) := process_files n 1 obj_files TARGET_REDUCTION 0 b in
      (Returned,
       MsgBanner TARGET_REDUCTION :: MsgFound n :: out ++ [MsgSummary successful_files n],
       b)
  end.

Definition main (argv : list string) (b : Batch) : Exit * list DriverMsg * Batch :=
  let (TARGET_REDUCTION, out) := parse_arguments argv in
  if negb (in_unit_range TARGET_REDUCTION) then
    (Returned, out ++ [MsgRangeError TARGET_REDUCTION], b)
  else
    let '(exit, out', b) := run_batch TARGET_REDUCTION b in
    (exit, out ++ out', b).

End Driver.

(** *** A concrete command line

    The plain decimal fragment of [float()]: digits, optionally followed by a
    point and more digits. *)

Definition digit (c : ascii) : option Z :=
  let n := nat_of_ascii c in
  if (48 <=? n) && (n <=? 57) then Some (Z.of_nat (n - 48)) else None.

Fixpoint digits (l : list ascii) (acc : Z) : option Z :=
  match l with
  | [] => Some acc
  | c :: rest =>
      match digit c with
      | Some d => digits rest (10 * acc + d)
      | None => None
      end
  end.

Fixpoint split_point (l : list ascii) : list ascii * option (list ascii) :=
  match l with
  | [] => ([], None)
  | c :: rest =>
      if Ascii.eqb c "."%char then ([], Some rest)
      else let (whole, frac) := split_point rest in (c :: whole, frac)
  end.

Definition decimal_float (s : string) : option PyFloat :=
  let (whole, frac) := split_point (list_ascii_of_string s) in
  match whole with
  | [] => None
  | _ =>
      let frac := match frac with Some f => f | None => [] end in
      match digits whole 0, digits frac 0 with
      | Some w, Some f =>
          let scale := Z.pow 10 (Z.of_nat (List.length frac)) in
          Some (Finite (Qred (Qmake (w * scale + f) (Z.to_pos scale))))
      | _, _ => None
      end
  end.

(** A batch over a fixed input directory, the output directory in place:
    the state is the list of files processed so far; every file is reduced
    and exported. *)
Definition demo_files : list string := ["a.obj"; "b.obj"].

Definition demo_main (argv : list string) : Exit * list DriverMsg * list string :=
  main decimal_float (list string) (fun _ => true) (fun done => (false, done))
       (fun _ => demo_files)
       (fun filepath _ done => (Some true, done ++ [filepath]))
       (fun _ done => (true, done))
       argv [].

(** ** Concrete runs *)

(** Three meshes of 1000 faces: all quads; triangles with 900 vertices;
    triangles with 502 vertices. *)
Definition structured_mesh : list Effect -> Scene := mesh 4 1000 1002.
Definition dense_mesh : list Effect -> Scene := mesh 3 1000 900.
Definition organic_mesh : list Effect -> Scene := mesh 3 1000 502.

(** A triangle fan of three faces. *)
Definition three_faces : list Effect -> Scene := mesh 3 3 5.

Definition reduce_run (target_reduction : Q) (w : Scene) : Res bool * St Scene :=
  intelligent_mesh_reduction target_reduction (init w).

(** Subdivision quadruples the mesh and the collapses that follow do not
    bring it back under the original count. *)
Definition overshoot : Scene :=
  dense_mesh [Becomes 4000; Becomes 3000; Becomes 2000; Unchanged; Becomes 1500].

(** The first strategy is effective but too far from the target, the second
    lands within the target band by a cut of less than 5%, the last two
    change nothing. *)
Definition near_miss : Scene :=
  structured_mesh [Becomes 660; Becomes 640; Unchanged; Unchanged].

(** The scenario of the specification: 1000 faces, then 680, then 480. *)
Definition converging : Scene := structured_mesh [Becomes 680; Becomes 480].

(** A flat triangulated sheet: the first collapse removes 20 faces,
    subdivision raises, and the planar dissolve of the composite strategy
    merges the sheet into 2 faces, which is under the floor of the collapse
    that follows. *)
Definition half_composite : Scene :=
  organic_mesh [Becomes 980; Fails; Becomes 2].

(** The first collapse empties the mesh; the subdivision of the second
    strategy gives it 10 faces and its collapse leaves 5. *)
Definition emptied : Scene := organic_mesh [Becomes 0; Becomes 10; Becomes 5].

(** The modifier of the first collapse cannot be applied; the un-subdivision
    that follows leaves 480 faces. *)
Definition failing_then_converging : Scene := structured_mesh [Fails; Becomes 480].

(** One collapse to 884 faces, just above 1.3 times the target that a
    reduction of 0.32 gives in binary64. *)
Definition above_rounded_band : Scene :=
  structured_mesh [Becomes 884; Unchanged; Unchanged; Unchanged].

(** Two collapses that each remove 1% of the faces. *)
Definition slight : Scene :=
  structured_mesh [Becomes 990; Unchanged; Becomes 980; Unchanged].

(** The composite strategy of the organic list. *)
Definition planar_then_quadric (target_reduction : Q) : Strategy :=
  snd (nth 2 (strategies "organic" target_reduction) ("", Planar 0)).

(** ** Further vocabulary: what a computation hands to the engine *)

Section Footprint.

Context {World : Type} {engine : Engine World}.

(** Every engine call a computation makes satisfies [P]. *)
Definition calls_all {A} (P : Op -> Prop) (m : M World A) : Prop :=
  forall s, exists cs,
    calls (snd (m s)) = calls s ++ cs /\ Forall (fun c => P (fst c)) cs.

(** Every run of a computation relates the state it starts from to the
    state it ends in. *)
Definition steps {A} (R : St World -> St World -> Prop) (m : M World A) : Prop :=
  forall s, R s (snd (m s)).

(** The scene keeps a property [I] through a computation. *)
Definition keeps (I : World -> Prop) (s s' : St World) : Prop :=
  I (world s) -> I (world s').

End Footprint.

(** A scene of the scripted engine that has faces and whose script never
    empties the mesh. *)
Definition never_emptied (w : Scene) : Prop :=
  0 < List.length (scene_faces w) /\
  Forall (fun e => e <> Becomes 0) (scene_script w).

(** Strategies made of the collapse, the un-subdivision and the planar
    dissolve only. *)
Fixpoint plain (f : Strategy) : bool :=
  match f with
  | SubSurfDecimate _ => false
  | AndThen first second => plain first && plain second
  | _ => true
  end.

(** The engine calls of [apply_smart_smooth], in order. *)
Definition smooth_steps : list Op :=
  [ SetActive; ModeSet "EDIT"; SelectAll "SELECT"; NormalsMakeConsistent false;
    ModeSet "OBJECT"; ShadeSmooth; ModifiersNew "EdgeSplit" "EDGE_SPLIT";
    ModifierSet "split_angle" (VRadians 30); ModifierApply "EdgeSplit" ].

(** Calls that went through without raising. *)
Definition went_through (ops : list Op) : list (Op * bool) :=
  map (fun op => (op, false)) ops.

(** A collapse ratio, when the call sets one, lies in [[lo, hi]]. *)
Definition ratio_within (lo hi : Q) (op : Op) : Prop :=
  forall q, op = ModifierSet "ratio" (VNum q) -> (lo <= q)%Q /\ (q <= hi)%Q.

(** A collapse ratio, when the call sets one, is at least [lo]. *)
Definition ratio_at_least (lo : Q) (op : Op) : Prop :=
  forall q, op = ModifierSet "ratio" (VNum q) -> (lo <= q)%Q.

(** ** Further vocabulary of the driver *)

(** The flag values that [float()] accepts, parsed, in order. *)
Fixpoint parsed_values (float_of_string : string -> option PyFloat)
    (values : list string) : list PyFloat :=
  match values with
  | [] => []
  | value :: rest =>
      match float_of_string value with
      | Some v => v :: parsed_values float_of_string rest
      | None => parsed_values float_of_string rest
      end
  end.

(** The line [parse_arguments] prints for one flag value. *)
Definition flag_line (float_of_string : string -> option PyFloat) (value : string)
  : DriverMsg :=
  match float_of_string value with
  | Some v => MsgReadReduction v
  | None => MsgInvalidReduction value
  end.

(** The per-file lines that report a processed and exported file. *)
Definition ok_lines (lines : list DriverMsg) : list DriverMsg :=
  filter (fun m => match m with MsgFileOk _ _ => true | _ => false end) lines.

(** ** The per-file pipeline: [import_obj_file], [export_obj_file],
       [capture_wireframe_screenshot], [process_obj_file]

    The scene-level and file-system calls of the pipeline are a second
    interface over the same scenes.  From the import on, the observations of
    [Engine] are those of [main_obj].  [SetupScene] stands for the whole of
    [setup_scene_for_screenshot] and [Capture] for the body of the [try]
    block of [capture_wireframe_screenshot]; the output paths are named by
    the input path and the stage. *)

Inductive Stage : Type := Before | After.

Inductive FileOp : Type :=
| ReadFactorySettings            (* bpy.ops.wm.read_factory_settings(use_empty=True) *)
| ObjImport (filepath : string)  (* bpy.ops.wm.obj_import(filepath=filepath) *)
| DeselectAll                    (* bpy.ops.object.select_all(action='DESELECT') *)
| SelectObject (i : nat)         (* mesh_objects[i].select_set(True) *)
| ActivateFirst                  (* bpy.context.view_layer.objects.active = mesh_objects[0] *)
| Join                           (* bpy.ops.object.join() *)
| MakeOutputDir                  (* os.makedirs(output_dir) *)
| SetupScene                     (* setup_scene_for_screenshot(main_obj) *)
| Capture (filepath : string) (stage : Stage)
| ObjExport (filepath : string). (* bpy.ops.wm.obj_export(filepath=<output path>) *)

Class Session (World : Type) {engine : Engine World} : Type := {
  (** [len([obj for obj in bpy.context.scene.objects if obj.type == 'MESH'])]. *)
  mesh_objects : World -> nat;
  (** [os.path.exists(output_dir)]. *)
  output_dir_exists : World -> bool;
  (** [glob.glob(os.path.join(input_dir, "*.obj"))]. *)
  input_files : World -> list string;
  (** One call: whether it raised, and the scene afterwards. *)
  file_exec : FileOp -> World -> bool * World
}.

Inductive FileExn : Type :=
| FileError (op : FileOp)
| Inner (e : Exn).

Inductive FRes (A : Type) : Type :=
| FOk (a : A)
| FRaise (e : FileExn).
Arguments FOk {A} a.
Arguments FRaise {A} e.

Inductive Band : Type := MetExpectation | SomeImprovement | LimitedImprovement.

Inductive FileMsg : Type :=
| FImportOk
| FImportFailed
| FNoMesh
| FImported (n : nat)
| FJoining
| FCaptured (stage : Stage)
| FCaptureFailed (stage : Stage)
| FDone (original_faces final_faces : nat) (actual_reduction : float)
| FBand (band : Band)
| FFailed
| FExported
| FExportFailed.

(** [num / den * 100] on floats, for two integers and [den] not 0. *)
Definition percentage (num : Z) (den : nat) : float :=
  fmul (float_of_ratio num (Pos.of_nat den)) (float_of_Z 100).

(** [target_reduction * 100 * 0.7], on floats. *)
Definition expected_reduction (target_reduction : Q) : float :=
  fmul (fmul (float_of_Q target_reduction) (float_of_Z 100)) (float_of_Q 0.7).

(** [actual_reduction >= expected], then [actual_reduction > 10]. *)
Definition verdict (expected actual_reduction : float) : Band :=
  if SFleb expected actual_reduction then MetExpectation
  else if SFltb (float_of_Z 10) actual_reduction then SomeImprovement
  else LimitedImprovement.

(** The three-way verdict [process_obj_file] prints after a success. *)
Definition quality_band (actual_reduction : float) (target_reduction : Q) : Band :=
  verdict (expected_reduction target_reduction) actual_reduction.

Section Pipeline.

Context {World : Type} {engine : Engine World} {session_ops : Session World}.

Record FileSt : Type := {
  session : St World;
  file_calls : list (FileOp * bool);
  file_stdout : list FileMsg
}.

Definition FM (A : Type) : Type := FileSt -> FRes A * FileSt.

Definition fret {A} (a : A) : FM A := fun fs => (FOk a, fs).

Definition fbind {A B} (m : FM A) (k : A -> FM B) : FM B :=
  fun fs => match m fs with
            | (FOk a, fs') => k a fs'
            | (FRaise e, fs') => (FRaise e, fs')
            end.

(** [try: m  except Exception: handler]. *)
Definition ftry {A} (m : FM A) (handler : FileExn -> FM A) : FM A :=
  fun fs => match m fs with
            | (FOk a, fs') => (FOk a, fs')
            | (FRaise e, fs') => handler e fs'
            end.

Notation "x <~ m ;; k" := (fbind m (fun x => k))
  (at level 61, m at next level, right associativity).
Notation "m ~;; k" := (fbind m (fun _ => k))
  (at level 61, right associativity).

Definition set_session (s : St World) (fs : FileSt) : FileSt :=
  {| session := s; file_calls := file_calls fs; file_stdout := file_stdout fs |}.

Definition set_world (w : World) (s : St World) : St World :=
  {| world := w; calls := calls s; stdout := stdout s; attempts := attempts s |}.

(** A computation of the controller, run on the session. *)
Definition flift {A} (m : M World A) : FM A :=
  fun fs => let (r, s) := m (session fs) in
            (match r with Ok a => FOk a | Raise e => FRaise (Inner e) end,
             set_session s fs).

Definition fgets {A} (f : World -> A) : FM A :=
  fun fs => (FOk (f (world (session fs))), fs).

Definition file_call (op : FileOp) : FM unit :=
  fun fs => let (raised, w) := file_exec op (world (session fs)) in
            (if raised then FRaise (FileError op) else FOk tt,
             {| session := set_world w (session fs);
                file_calls := file_calls fs ++ [(op, raised)];
                file_stdout := file_stdout fs |}).

Definition fprint (m : FileMsg) : FM unit :=
  fun fs => (FOk tt,
             {| session := session fs; file_calls := file_calls fs;
                file_stdout := file_stdout fs ++ [m] |}).

Definition import_obj_file (filepath : string) : FM bool :=
  ftry (file_call (ObjImport filepath) ~;; fprint FImportOk ~;; fret true)
       (fun _ => fprint FImportFailed ~;; fret false).

Definition export_obj_file (filepath : string) : FM bool :=
  ftry (file_call (ObjExport filepath) ~;; fprint FExported ~;; fret true)
       (fun _ => fprint FExportFailed ~;; fret false).

Definition capture_wireframe_screenshot (filepath : string) (stage : Stage) : FM bool :=
  ftry (file_call (Capture filepath stage) ~;; fprint (FCaptured stage) ~;; fret true)
       (fun _ => fprint (FCaptureFailed stage) ~;; fret false).

(** [num / den * 100] on floats, for two integers. *)
Definition float_percent (num : Z) (den : nat) : M World float :=
  if den =? 0 then raise ZeroDivisionError
  else ret (percentage num den).

(** [for obj in mesh_objects: obj.select_set(True)], from object [i] on. *)
Fixpoint select_each (i count : nat) : FM unit :=
  match count with
  | 0 => fret tt
  | S count' => file_call (SelectObject i) ~;; select_each (S i) count'
  end.

Definition process_obj_file (filepath : string) (target_reduction : Q) : FM bool :=
  file_call ReadFactorySettings ~;;
  imported <~ import_obj_file filepath ;;
  if negb imported then fret false else
  mesh_object_count <~ fgets mesh_objects ;;
  if mesh_object_count =? 0 then fprint FNoMesh ~;; fret false else
  fprint (FImported mesh_object_count) ~;;
  (if 1 <? mesh_object_count then
     fprint FJoining ~;;
     file_call DeselectAll ~;;
     select_each 0 mesh_object_count ~;;
     file_call ActivateFirst ~;;
     file_call Join
   else fret tt) ~;;
  original_faces <~ fgets polygons ;;
  dir_exists <~ fgets output_dir_exists ;;
  (if negb dir_exists then file_call MakeOutputDir else fret tt) ~;;
  file_call SetupScene ~;;
  _ <~ capture_wireframe_screenshot filepath Before ;;
  success <~ flift (intelligent_mesh_reduction target_reduction) ;;
  if success then
    final_faces <~ fgets polygons ;;
    actual_reduction <~
      flift (float_percent (Z.of_nat original_faces - Z.of_nat final_faces)
               original_faces) ;;
    fprint (FDone original_faces final_faces actual_reduction) ~;;
    _ <~ capture_wireframe_screenshot filepath After ;;
    fprint (FBand (quality_band actual_reduction target_reduction)) ~;;
    fret true
  else
    fprint FFailed ~;;
    fret false.

(** The per-file steps as [main] takes them.  [main] only passes on a
    reduction that passed its range check, which no infinity or NaN does. *)
Definition process_step (filepath : string) (TARGET_REDUCTION : PyFloat)
    (fs : FileSt) : option bool * FileSt :=
  match TARGET_REDUCTION with
  | Finite target_reduction =>
      match process_obj_file filepath target_reduction fs with
      | (FOk b, fs') => (Some b, fs')
      | (FRaise _, fs') => (None, fs')
      end
  | _ => (None, fs)
  end.

Definition export_step (filepath : string) (fs : FileSt) : bool * FileSt :=
  match export_obj_file filepath fs with
  | (FOk b, fs') => (b, fs')
  | (FRaise _, fs') => (false, fs')
  end.

(** [os.makedirs(output_dir)] as [main] calls it. *)
Definition makedirs_step (fs : FileSt) : bool * FileSt :=
  match file_call MakeOutputDir fs with
  | (FOk _, fs') => (false, fs')
  | (FRaise _, fs') => (true, fs')
  end.

Definition session_main (float_of_string : string -> option PyFloat)
    (argv : list string) (fs : FileSt) : Exit * list DriverMsg * FileSt :=
  main float_of_string FileSt
       (fun fs => output_dir_exists (world (session fs))) makedirs_step
       (fun fs => input_files (world (session fs)))
       process_step export_step argv fs.

Definition file_init (w : World) : FileSt :=
  {| session := init w; file_calls := []; file_stdout := [] |}.

End Pipeline.

Arguments FileSt World : clear implicits.
Arguments FM World A : clear implicits.

Notation "x <~ m ;; k" := (fbind m (fun x => k))
  (at level 61, m at next level, right associativity).
Notation "m ~;; k" := (fbind m (fun _ => k))
  (at level 61, right associativity).

(** *** Vocabulary of the pipeline's properties *)

Section PipelineVocabulary.

Context {World : Type} {engine : Engine World} {session_ops : Session World}.

(** Every run of [m] extends the log of file calls by some [cs], and its
    result and [cs] satisfy [Q]. *)
Definition fpost {A} (Q : FRes A -> list (FileOp * bool) -> Prop) (m : FM World A)
  : Prop :=
  forall fs, exists cs,
    file_calls (snd (m fs)) = file_calls fs ++ cs /\ Q (fst (m fs)) cs.

(** [m] makes calls in [P] only, and an exception that leaves it is in [E]. *)
Definition fsound {A} (P : FileOp -> Prop) (E : FileExn -> Prop) (m : FM World A)
  : Prop :=
  fpost (fun r cs => Forall (fun c => P (fst c)) cs /\
                     forall e, r = FRaise e -> E e) m.

End PipelineVocabulary.

(** The exceptions that can leave [process_obj_file]: those of the calls it
    makes outside a [try], a division by zero, the error of [int()] on a
    target that is not finite, and the error of the post-processor's
    recovery call. *)
Definition escaping (e : FileExn) : Prop :=
  match e with
  | FileError (ObjImport _) | FileError (Capture _ _) | FileError (ObjExport _) => False
  | FileError _ => True
  | Inner ZeroDivisionError | Inner OverflowError | Inner ValueError => True
  | Inner (EngineError op) => op = ModeSet "OBJECT"
  end.

(** The calls [process_obj_file] makes outside any [try]. *)
Definition unguarded (op : FileOp) : bool :=
  match op with
  | ObjImport _ | Capture _ _ | ObjExport _ => false
  | _ => true
  end.

Definition is_capture_after (c : FileOp * bool) : bool :=
  match fst c with
  | Capture _ After => true
  | _ => false
  end.

Definition is_export (op : FileOp) : bool :=
  match op with
  | ObjExport _ => true
  | _ => false
  end.

(** The export calls of a log that went through. *)
Definition good_exports (cs : list (FileOp * bool)) : list (FileOp * bool) :=
  filter (fun c => is_export (fst c) && negb (snd c)) cs.

(** *** A scripted session

    A project directory: the files it holds, each with the number of mesh
    objects it imports and the (merged) mesh; whether screenshots fail. *)

Record Project : Type := {
  project_scene : Scene;
  project_objects : nat;
  project_files : list (string * (nat * Scene));
  project_camera_broken : bool
}.

Definition set_scene (objects : nat) (w : Scene) (p : Project) : Project :=
  {| project_scene := w; project_objects := objects;
     project_files := project_files p;
     project_camera_broken := project_camera_broken p |}.

Fixpoint lookup_file (filepath : string) (files : list (string * (nat * Scene)))
  : option (nat * Scene) :=
  match files with
  | [] => None
  | (name, content) :: rest =>
      if String.eqb name filepath then Some content else lookup_file filepath rest
  end.

Definition project_exec (op : FileOp) (p : Project) : bool * Project :=
  match op with
  | ObjImport filepath =>
      match lookup_file filepath (project_files p) with
      | Some (objects, w) => (false, set_scene objects w p)
      | None => (true, p)
      end
  | Capture _ _ => (project_camera_broken p, p)
  | _ => (false, p)
  end.

#[export] Instance project_engine : Engine Project := {
  obj_type p := scene_type (project_scene p);
  face_verts p := scene_faces (project_scene p);
  vert_count p := scene_verts (project_scene p);
  edge_lengths p := scene_edges (project_scene p);
  exec op p :=
    let (raised, w) := scene_exec op (project_scene p) in
    (raised, set_scene (project_objects p) w p)
}.

#[export] Instance project_session : Session Project := {
  mesh_objects := project_objects;
  output_dir_exists _ := true;
  input_files p := map fst (project_files p);
  file_exec := project_exec
}.

(** A directory with the mesh of the run [converging], a mesh of three
    objects that no strategy reduces, and a file without any mesh. *)
Definition demo_project (camera_broken : bool) : Project :=
  {| project_scene := mesh 3 0 0 [];
     project_objects := 0;
     project_files :=
       [ ("good.obj", (1, converging));
         ("stubborn.obj", (3, structured_mesh []));
         ("empty.obj", (0, mesh 3 0 0 [])) ];
     project_camera_broken := camera_broken |}.

(** A directory in which no file can be reduced. *)
Definition stubborn_project : Project :=
  {| project_scene := mesh 3 0 0 [];
     project_objects := 0;
     project_files :=
       [ ("stubborn.obj", (3, structured_mesh []));
         ("empty.obj", (0, mesh 3 0 0 [])) ];
     project_camera_broken := false |}.

(** The same projects on a disk without an output directory, where none can
    be created. *)
Definition read_only_session : Session Project := {|
  mesh_objects := project_objects;
  output_dir_exists := fun _ => false;
  input_files := fun p => map fst (project_files p);
  file_exec := fun op p =>
    match op with
    | MakeOutputDir => (true, p)
    | _ => project_exec op p
    end |}.

(** ** The rounded numbers against whole-number rules

    The two places where binary64 decides, evaluated over a range of
    inputs: every face count of a range and every reduction given in whole
    percent. *)

Definition hundredth (k : nat) : Q := Z.of_nat k # 100.

(** The floor of [original_faces * (1 - k / 100)]. *)
Definition floor_target (original_faces k : nat) : Z :=
  (Z.of_nat original_faces * (100 - Z.of_nat k) / 100)%Z.

(** A target that is the floor or one below it, and within
    [[0, original_faces]]. *)
Definition target_near_floor (original_faces k : nat) (target : Res Z) : bool :=
  match target with
  | Ok t =>
      ((t =? floor_target original_faces k) || (t =? floor_target original_faces k - 1))%Z
      && (0 <=? t)%Z && (t <=? Z.of_nat original_faces)%Z
  | Raise _ => false
  end.

(** [target_near_floor] for [count] face counts from [first] on and every
    reduction from 0.00 to 1.00; the float [1 - k / 100] is computed once
    for each [k]. *)
Definition targets_near_floor (first count : nat) : bool :=
  let complements :=
    map (fun k => (k, fsub (float_of_Z 1) (float_of_Q (hundredth k)))) (seq 0 101) in
  forallb (fun n =>
             match float_of_int (Z.of_nat n) with
             | Ok faces =>
                 forallb (fun kx =>
                            target_near_floor n (fst kx)
                              (int_of_float (fmul faces (snd kx))))
                         complements
             | Raise _ => false
             end)
          (seq first count).

(** The verdict by counts: "met" when the faces removed are at least 0.7
    times [k] percent of the original ones, else "some" when they are more
    than a tenth. *)
Definition band_by_counts (original_faces removed k : Z) : Band :=
  if (7 * k * original_faces <=? 1000 * removed)%Z then MetExpectation
  else if (original_faces <? 10 * removed)%Z then SomeImprovement
  else LimitedImprovement.

Definition band_eqb (a b : Band) : bool :=
  match a, b with
  | MetExpectation, MetExpectation
  | SomeImprovement, SomeImprovement
  | LimitedImprovement, LimitedImprovement => true
  | _, _ => false
  end.

(** The verdict on floats against the verdict by counts, for every mesh of
    1 to [max_faces] faces, every number of faces removed and every
    reduction from 0.00 to 1.00. *)
Definition bands_by_counts (max_faces : nat) : bool :=
  let expectations :=
    map (fun k => (k, expected_reduction (hundredth k))) (seq 0 101) in
  forallb (fun o =>
             forallb (fun removed =>
                        let actual := percentage (Z.of_nat removed) o in
                        forallb (fun ke =>
                                   band_eqb (verdict (snd ke) actual)
                                     (band_by_counts (Z.of_nat o) (Z.of_nat removed)
                                        (Z.of_nat (fst ke))))
                                expectations)
                     (seq 0 (S o)))
          (seq 1 max_faces).

(** * Properties *)

Section ControllerProofs.

Context {World : Type} {engine : Engine World}.

Abbreviation St := (St World).
Abbreviation M := (M World).

(** ** The call-tracking rules *)

Lemma quiet_refl (s : St) : quiet s s [].
Proof. unfold quiet. rewrite app_nil_r. auto. Qed.

Lemma quiet_trans (s1 s2 s3 : St) cs1 cs2 :
  quiet s1 s2 cs1 -> quiet s2 s3 cs2 -> quiet s1 s3 (cs1 ++ cs2).
Proof.
  unfold quiet. intros (Hc1 & Ho1 & Ha1) (Hc2 & Ho2 & Ha2).
  rewrite Hc2, Hc1, Ho2, Ho1, Ha2, Ha1, app_assoc. auto.
Qed.

Lemma raised_in_app cs1 cs2 :
  raised_in (cs1 ++ cs2) = raised_in cs1 || raised_in cs2.
Proof. apply existsb_app. Qed.

Lemma tracked_ret {A} (Bad : A -> Prop) (a : A) : tracked Bad (ret a : M A).
Proof.
  intros s. exists []. simpl. split; [apply quiet_refl | split; [constructor | discriminate]].
Qed.

Lemma tracked_gets {A} (Bad : A -> Prop) (f : World -> A) : tracked Bad (gets f : M A).
Proof.
  intros s. exists []. simpl. split; [apply quiet_refl | split; [constructor | discriminate]].
Qed.

Lemma tracked_raise {A} (Bad : A -> Prop) (e : Exn) : tracked Bad (raise e : M A).
Proof.
  intros s. exists []. simpl. split; [apply quiet_refl | split; [constructor | discriminate]].
Qed.

Lemma tracked_call (Bad : unit -> Prop) (op : Op) :
  postprocess_op op = false -> tracked Bad (call op).
Proof.
  intros Hop s. unfold call. destruct (exec op (world s)) as [raised w].
  exists [(op, raised)]. simpl. split; [| split].
  - unfold quiet. simpl. auto.
  - repeat constructor. exact Hop.
  - destruct raised; [trivial | discriminate].
Qed.

Lemma tracked_bind {A B} (Bad : B -> Prop) (m : M A) (k : A -> M B) :
  tracked (fun _ => False) m -> (forall a, tracked Bad (k a)) ->
  tracked Bad (bind m k).
Proof.
  intros Hm Hk s. unfold bind.
  destruct (Hm s) as (cs1 & Hq1 & Hd1 & Hr1).
  destruct (m s) as [[a | e] s1]; simpl in *.
  - destruct (Hk a s1) as (cs2 & Hq2 & Hd2 & Hr2).
    exists (cs1 ++ cs2). split; [| split].
    + eapply quiet_trans; eauto.
    + apply Forall_app. auto.
    + rewrite raised_in_app. intros H.
      destruct (raised_in cs1); [destruct (Hr1 eq_refl) | exact (Hr2 H)].
  - exists cs1. auto.
Qed.

Lemma tracked_weaken {A} (Bad Bad' : A -> Prop) (m : M A) :
  (forall a, Bad a -> Bad' a) -> tracked Bad m -> tracked Bad' m.
Proof.
  intros Himp Hm s. destruct (Hm s) as (cs & Hq & Hd & Hr).
  exists cs. split; [| split]; auto.
  intros H. specialize (Hr H). destruct (fst (m s)); auto.
Qed.

Lemma primitive_try (body : M bool) :
  tracked (fun b => b = false) body ->
  primitive (try_except body (fun _ => ret false)).
Proof.
  intros Hb s. unfold try_except. destruct (Hb s) as (cs & Hq & Hd & Hr).
  destruct (body s) as [[b | e] s1]; simpl in *.
  - exists b, s1, cs. auto.
  - exists false, s1, cs. auto.
Qed.

Lemma primitive_tracked (m : M bool) :
  primitive m -> tracked (fun b => b = false) m.
Proof.
  intros Hm s. destruct (Hm s) as (b & s' & cs & E & Hq & Hd & Hr).
  exists cs. rewrite E. simpl. auto.
Qed.

Ltac track :=
  repeat first
    [ apply tracked_ret | apply tracked_gets | apply tracked_raise
    | apply tracked_call; reflexivity
    | apply tracked_bind; [| intro]
    | match goal with |- tracked _ (if ?c then _ else _) => destruct c end ].

Lemma primitive_quadric target_reduction preserve_sharp :
  primitive (try_quadric_decimate target_reduction preserve_sharp).
Proof. apply primitive_try. unfold quadric_body. track. Qed.

Lemma primitive_unsubdiv iterations : primitive (try_unsubdiv_decimate iterations).
Proof. apply primitive_try. unfold unsubdiv_body. track. Qed.

Lemma primitive_planar angle_threshold : primitive (try_planar_decimate angle_threshold).
Proof. apply primitive_try. unfold planar_body. track. Qed.

Lemma primitive_subsurf target_reduction :
  primitive (apply_subdivision_surface_then_decimate target_reduction).
Proof.
  apply primitive_try. unfold subsurf_body. track.
  apply primitive_tracked, primitive_quadric.
Qed.

Lemma primitive_strategy (f : Strategy) : primitive (run_strategy f).
Proof.
  induction f as [r p | n | a | r | f1 IH1 f2 IH2]; simpl.
  - apply primitive_quadric.
  - apply primitive_unsubdiv.
  - apply primitive_planar.
  - apply primitive_subsurf.
  - intros s. unfold bind.
    destruct (IH1 s) as (b1 & s1 & cs1 & E1 & Hq1 & Hd1 & Hr1). rewrite E1.
    destruct b1.
    + destruct (IH2 s1) as (b2 & s2 & cs2 & E2 & Hq2 & Hd2 & Hr2). rewrite E2.
      exists b2, s2, (cs1 ++ cs2). split; [reflexivity |].
      split; [eapply quiet_trans; eauto |]. split; [apply Forall_app; auto |].
      rewrite raised_in_app. intros H.
      destruct (raised_in cs1); [discriminate (Hr1 eq_refl) | exact (Hr2 H)].
    + exists false, s1, cs1. auto.
Qed.

(** ** One iteration of the strategy loop *)

Lemma strategy_loop_step target_faces i name f rest success (s : St) :
  exists b s1 cs,
    run_strategy f (put_msg (MsgStrategy i name) s) = (Ok b, s1) /\
    quiet (put_msg (MsgStrategy i name) s) s1 cs /\ decimation_calls cs /\
    (raised_in cs = true -> b = false) /\
    let before := polygons (world s) in
    let after := polygons (world s1) in
    let s2 := put_attempt (attempt_record name before after b) s1 in
    strategy_loop target_faces i ((name, f) :: rest) success s =
      if b then
        if before =? 0 then (Raise ZeroDivisionError, s2)
        else
          let reduction :=
            (inject_Z (Z.of_nat before - Z.of_nat after) / Qnat before * 100)%Q in
          let s3 := put_msg (MsgResult after reduction) s2 in
          if is_effective before after then
            if close_to_target target_faces after then (Ok true, put_msg MsgStop s3)
            else strategy_loop target_faces (S i) rest true s3
          else strategy_loop target_faces (S i) rest success s3
      else strategy_loop target_faces (S i) rest success s2.
Proof.
  destruct (primitive_strategy f (put_msg (MsgStrategy i name) s))
    as (b & s1 & cs & E & Hq & Hd & Hr).
  exists b, s1, cs. repeat (split; [assumption |]).
  cbn [strategy_loop]. unfold bind at 1. unfold print at 1.
  unfold bind at 1. unfold gets at 1. cbn [world put_msg].
  unfold bind at 1. rewrite E.
  unfold bind at 1. unfold note_attempt at 1.
  destruct b; [| reflexivity].
  unfold bind at 1. unfold gets at 1. cbn [world put_attempt].
  unfold bind at 1. unfold percent.
  destruct (polygons (world s) =? 0); [reflexivity |].
  unfold ret at 1. unfold bind at 1. unfold print at 1.
  destruct (is_effective (polygons (world s)) (polygons (world s1))); [| reflexivity].
  destruct (close_to_target target_faces (polygons (world s1))); reflexivity.
Qed.

(** ** The whole loop *)

Lemma loop_post_nil target_faces success (s : St) :
  loop_post target_faces success s (Ok success) s [] [] [].
Proof.
  unfold loop_post. rewrite !app_nil_r. simpl. rewrite orb_false_r.
  repeat split; auto; try constructor.
  intros pre a post H. destruct pre; discriminate.
Qed.

Lemma loop_post_last target_faces success (s s' : St) r a cs out :
  attempts s' = attempts s ++ [a] ->
  calls s' = calls s ++ cs -> decimation_calls cs ->
  stdout s' = stdout s ++ out -> ~ In MsgPostProcess out ->
  well_logged a -> faces_before a = polygons (world s) ->
  faces_after a = polygons (world s') ->
  match r with
  | Ok b => b = success || effective a
  | Raise e => e = ZeroDivisionError /\ succeeded a = true /\ faces_before a = 0
  end ->
  loop_post target_faces success s r s' [a] cs out.
Proof.
  intros Ha Hc Hd Ho Hn Hw Hb Hf Hr. unfold loop_post. simpl.
  repeat (split; [solve [auto] |]). split.
  - intros pre x post H. destruct pre as [| y pre]; simpl in H.
    + injection H as _ <-. reflexivity.
    + injection H as _ H. destruct pre; discriminate.
  - destruct r as [b | e].
    + rewrite orb_false_r. exact Hr.
    + destruct Hr as (He & Hs & H0). split; [exact He |]. exists a. auto.
Qed.

Lemma loop_post_cons target_faces success (s s1 s' : St) r a cs1 out1 new cs out :
  attempts s1 = attempts s ++ [a] ->
  calls s1 = calls s ++ cs1 -> decimation_calls cs1 ->
  stdout s1 = stdout s ++ out1 -> ~ In MsgPostProcess out1 ->
  well_logged a -> faces_before a = polygons (world s) ->
  faces_after a = polygons (world s1) ->
  stops target_faces a = false ->
  loop_post target_faces (success || effective a) s1 r s' new cs out ->
  loop_post target_faces success s r s' (a :: new) (cs1 ++ cs) (out1 ++ out).
Proof.
  intros Ha Hc Hd Ho Hn Hw Hb Hf Hs
    (Ha' & Hc' & Hd' & Ho' & Hn' & Hw' & Hch & Hl & Hstop & Hr).
  unfold loop_post.
  split; [rewrite Ha', Ha, <- app_assoc; reflexivity |].
  split; [rewrite Hc', Hc, <- app_assoc; reflexivity |].
  split; [apply Forall_app; auto |].
  split; [rewrite Ho', Ho, <- app_assoc; reflexivity |].
  split; [rewrite in_app_iff; tauto |].
  split; [constructor; auto |].
  split; [simpl; rewrite Hf; auto |].
  split; [simpl; rewrite Hf; auto |].
  split.
  - intros pre x post H Hx. destruct pre as [| y pre]; simpl in H.
    + injection H as -> _. congruence.
    + injection H as _ H. eapply Hstop; eauto.
  - destruct r as [b | e].
    + simpl. rewrite Hr, orb_assoc. reflexivity.
    + destruct Hr as (He & x & Hx & Hxs & Hx0). split; [exact He |].
      exists x. simpl. auto.
Qed.

Lemma strategy_loop_log strategies target_faces :
  forall i success (s : St),
  exists new cs out,
    loop_post target_faces success s
      (fst (strategy_loop target_faces i strategies success s))
      (snd (strategy_loop target_faces i strategies success s)) new cs out.
Proof.
  induction strategies as [| [name f] rest IH]; intros i success s.
  - exists [], [], []. apply loop_post_nil.
  - destruct (strategy_loop_step target_faces i name f rest success s)
      as (b & s1 & cs1 & _ & (Hc1 & Ho1 & Ha1) & Hd1 & _ & Heq).
    cbv zeta in Heq. rewrite Heq. clear Heq.
    simpl in Hc1, Ho1, Ha1.
    set (before := polygons (world s)).
    set (after := polygons (world s1)).
    set (a := attempt_record name before after b).
    assert (Hw : well_logged a) by reflexivity.
    destruct b.
    + destruct (before =? 0) eqn:E0.
      * exists [a], cs1, [MsgStrategy i name]. simpl fst. simpl snd.
        apply loop_post_last; simpl; auto; try congruence.
        -- intros [H | []]. discriminate.
        -- apply Nat.eqb_eq in E0. auto.
      * cbv zeta.
        set (reduction := (inject_Z (Z.of_nat before - Z.of_nat after) / Qnat before * 100)%Q).
        set (s3 := put_msg (MsgResult after reduction) (put_attempt a s1)).
        destruct (is_effective before after) eqn:Eeff.
        -- destruct (close_to_target target_faces after) eqn:Eclose.
           ++ exists [a], cs1, [MsgStrategy i name; MsgResult after reduction; MsgStop].
              simpl fst. simpl snd.
              apply loop_post_last; simpl; auto; try congruence.
              ** rewrite Ho1, <- !app_assoc. reflexivity.
              ** intros [H | [H | [H | []]]]; discriminate.
              ** rewrite Eeff. destruct success; reflexivity.
           ++ destruct (IH (S i) true s3) as (new & cs & out & Hpost).
              exists (a :: new), (cs1 ++ cs),
                ([MsgStrategy i name; MsgResult after reduction] ++ out).
              eapply loop_post_cons with (s1 := s3); simpl; auto; try congruence.
              ** rewrite Ho1, <- !app_assoc. reflexivity.
              ** intros [H | [H | []]]; discriminate.
              ** unfold stops. simpl. rewrite Eclose. apply andb_false_r.
              ** rewrite Eeff, orb_true_r. exact Hpost.
        -- destruct (IH (S i) success s3) as (new & cs & out & Hpost).
           exists (a :: new), (cs1 ++ cs),
             ([MsgStrategy i name; MsgResult after reduction] ++ out).
           eapply loop_post_cons with (s1 := s3); simpl; auto; try congruence.
           ** rewrite Ho1, <- !app_assoc. reflexivity.
           ** intros [H | [H | []]]; discriminate.
           ** unfold stops. simpl. rewrite Eeff. reflexivity.
           ** rewrite Eeff, orb_false_r. exact Hpost.
    + destruct (IH (S i) success (put_attempt a s1)) as (new & cs & out & Hpost).
      exists (a :: new), (cs1 ++ cs), ([MsgStrategy i name] ++ out).
      eapply loop_post_cons with (s1 := put_attempt a s1); simpl; auto; try congruence.
      * intros [H | []]. discriminate.
      * rewrite orb_false_r. exact Hpost.
Qed.

(** ** [analyze_mesh_quality] and the frame of [intelligent_mesh_reduction] *)

Lemma analyze_valid (s : St) :
  is_valid_obj (world s) = true ->
  analyze_mesh_quality s =
    (Ok (category (world s)), put_msg (MsgMetrics (mesh_metrics (world s))) s).
Proof.
  intros Hv. unfold analyze_mesh_quality, category, bind, gets, print, ret.
  rewrite Hv. cbn [negb world put_msg].
  destruct (Qltb 0.7 (quad_ratio (mesh_metrics (world s)))); [reflexivity |].
  destruct (Qltb 0.8 (vert_face_ratio (mesh_metrics (world s)))); reflexivity.
Qed.

Lemma analyze_invalid (s : St) :
  is_valid_obj (world s) = false -> analyze_mesh_quality s = (Ok "unknown", s).
Proof.
  intros Hv. unfold analyze_mesh_quality, bind, gets, ret. rewrite Hv. reflexivity.
Qed.

Lemma reduce_invalid target_reduction (s : St) :
  is_valid_obj (world s) = false ->
  intelligent_mesh_reduction target_reduction s = (Ok false, put_msg MsgInvalid s).
Proof.
  intros Hv. unfold intelligent_mesh_reduction, bind, gets, print, ret.
  rewrite Hv. reflexivity.
Qed.

Lemma reduce_small target_reduction (s : St) :
  is_valid_obj (world s) = true -> polygons (world s) < 100 ->
  intelligent_mesh_reduction target_reduction s =
    (Ok true, put_msg MsgSkip (put_msg (MsgStart (polygons (world s))) s)).
Proof.
  intros Hv Hs. unfold intelligent_mesh_reduction, bind, gets, print, ret.
  rewrite Hv. simpl. apply Nat.ltb_lt in Hs. rewrite Hs. reflexivity.
Qed.

Lemma reduce_large target_reduction (s : St) target_faces :
  is_valid_obj (world s) = true -> 100 <= polygons (world s) ->
  target_faces_of (polygons (world s)) target_reduction = Ok target_faces ->
  intelligent_mesh_reduction target_reduction s =
    (success <- strategy_loop target_faces 1
                  (strategies (category (world s)) target_reduction) false ;;
     after_loop (polygons (world s)) success) (loop_entry s).
Proof.
  intros Hv Hs Ht. unfold intelligent_mesh_reduction.
  unfold bind at 1. unfold gets at 1. rewrite Hv. cbn [negb].
  unfold bind at 1. unfold gets at 1.
  unfold bind at 1. unfold print at 1.
  apply Nat.ltb_ge in Hs. rewrite Hs.
  unfold bind at 1. rewrite analyze_valid by exact Hv.
  unfold bind at 1. unfold lift at 1. cbn [world put_msg]. rewrite Ht.
  unfold bind at 1. unfold print at 1. reflexivity.
Qed.

(** The errors of the target computation are those of [int()] on an
    infinity or a NaN. *)
Lemma target_error_kind original_faces target_reduction e :
  target_faces_of original_faces target_reduction = Raise e ->
  e = OverflowError \/ e = ValueError.
Proof.
  unfold target_faces_of, float_of_int, int_of_float.
  destruct (float_of_Z _); try (intros H; injection H as <-; auto);
    destruct (fmul _ _); intros H; try discriminate H; injection H as <-; auto.
Qed.

(** When [int()] raises on the target, the call ends there: the mesh was
    analysed, no strategy was tried. *)
Lemma reduce_no_target target_reduction (s : St) e :
  is_valid_obj (world s) = true -> 100 <= polygons (world s) ->
  target_faces_of (polygons (world s)) target_reduction = Raise e ->
  intelligent_mesh_reduction target_reduction s =
    (Raise e,
     put_msg (MsgMetrics (mesh_metrics (world s)))
       (put_msg (MsgStart (polygons (world s))) s)).
Proof.
  intros Hv Hs Ht. unfold intelligent_mesh_reduction.
  unfold bind at 1. unfold gets at 1. rewrite Hv. cbn [negb].
  unfold bind at 1. unfold gets at 1.
  unfold bind at 1. unfold print at 1.
  apply Nat.ltb_ge in Hs. rewrite Hs.
  unfold bind at 1. rewrite analyze_valid by exact Hv.
  unfold bind at 1. unfold lift at 1. cbn [world put_msg]. rewrite Ht.
  reflexivity.
Qed.

Ltac run_calls :=
  repeat match goal with
         | |- context [exec ?op ?w] => destruct (exec op w) as [[|] ?]; simpl
         end.

Lemma smart_smooth_attempts (s : St) :
  attempts (snd (apply_smart_smooth s)) = attempts s.
Proof.
  unfold apply_smart_smooth, try_except, smart_smooth_body, bind, call, ret. simpl.
  run_calls; reflexivity.
Qed.

Lemma smart_smooth_stdout (s : St) :
  stdout (snd (apply_smart_smooth s)) = stdout s.
Proof.
  unfold apply_smart_smooth, try_except, smart_smooth_body, bind, call, ret. simpl.
  run_calls; reflexivity.
Qed.

Lemma smart_smooth_raises (s : St) e s' :
  apply_smart_smooth s = (Raise e, s') -> e = EngineError (ModeSet "OBJECT").
Proof.
  unfold apply_smart_smooth, try_except, smart_smooth_body, bind, call, ret. simpl.
  run_calls; intros H; first [discriminate H | injection H as <- _; reflexivity].
Qed.

Lemma after_loop_attempts original_faces success (s : St) :
  attempts (snd (after_loop original_faces success s)) = attempts s.
Proof.
  unfold after_loop. unfold bind at 1.
  assert (H : forall s1 : St, attempts s1 = attempts s ->
            attempts (snd ((final_faces <- gets polygons ;;
              final_reduction <-
                percent (Z.of_nat original_faces - Z.of_nat final_faces) original_faces ;;
              if final_faces <? original_faces
              then print (MsgReduced original_faces final_faces final_reduction) ;; ret true
              else print MsgUnchanged ;; ret false) s1)) = attempts s).
  { intros s1 H1. unfold bind, gets, percent, raise, ret, print.
    destruct (original_faces =? 0); [exact H1 |].
    destruct (polygons (world s1) <? original_faces); exact H1. }
  destruct success.
  - unfold bind at 1. unfold print at 1. unfold bind at 1.
    pose proof (smart_smooth_attempts (put_msg MsgPostProcess s)) as Hs.
    destruct (apply_smart_smooth (put_msg MsgPostProcess s)) as [[b | e] s1];
      simpl in Hs; [apply H | ]; exact Hs.
  - unfold ret at 1. apply H. reflexivity.
Qed.

Lemma reduce_log target_reduction (s : St) :
  exists new,
    attempts (snd (intelligent_mesh_reduction target_reduction s)) = attempts s ++ new /\
    Forall well_logged new /\
    (forall target_faces pre a post,
       target_faces_of (polygons (world s)) target_reduction = Ok target_faces ->
       new = pre ++ a :: post ->
       stops target_faces a = true ->
       post = []).
Proof.
  assert (Hnil : forall s1 : St, attempts s1 = attempts s ->
            exists new, attempts s1 = attempts s ++ new /\ Forall well_logged new /\
              (forall target_faces pre a post,
                 target_faces_of (polygons (world s)) target_reduction = Ok target_faces ->
                 new = pre ++ a :: post ->
                 stops target_faces a = true ->
                 post = [])).
  { intros s1 H. exists []. rewrite app_nil_r. repeat split; auto.
    intros t pre a post _ E. destruct pre; discriminate. }
  destruct (is_valid_obj (world s)) eqn:Hv.
  - destruct (Nat.lt_ge_cases (polygons (world s)) 100) as [Hs | Hs].
    + rewrite reduce_small by assumption. apply Hnil. reflexivity.
    + destruct (target_faces_of (polygons (world s)) target_reduction)
        as [target_faces | e0] eqn:Et.
      * rewrite (reduce_large _ _ target_faces) by assumption. unfold bind at 1.
        destruct (strategy_loop_log (strategies (category (world s)) target_reduction)
                    target_faces 1 false (loop_entry s))
          as (new & cs & out & Ha & _ & _ & _ & _ & Hw & _ & _ & Hstop & _).
        exists new.
        assert (Hstop' : forall t pre a post,
                  Ok target_faces = Ok t -> new = pre ++ a :: post ->
                  stops t a = true -> post = []).
        { intros t pre a post E. injection E as <-. apply Hstop. }
        destruct (strategy_loop _ _ _ _ _) as [[success | e] s1]; simpl in Ha.
        -- rewrite after_loop_attempts. auto.
        -- simpl. auto.
      * rewrite (reduce_no_target _ _ e0) by assumption.
        exists []. simpl. rewrite app_nil_r. repeat split; auto.
        intros t pre a post E. discriminate E.
  - rewrite reduce_invalid by assumption. apply Hnil. reflexivity.
Qed.

Lemma Qltb_lt (x y : Q) : Qltb x y = true <-> (x < y)%Q.
Proof.
  unfold Qltb. rewrite negb_true_iff. split.
  - intros H. apply Qnot_le_lt. intros Hle.
    apply Qle_bool_iff in Hle. congruence.
  - intros H. destruct (Qle_bool y x) eqn:E; [| reflexivity].
    apply Qle_bool_iff in E. exfalso. exact (Qlt_not_le _ _ H E).
Qed.

Lemma Qltb_comp (x y x' y' : Q) :
  (x == x')%Q -> (y == y')%Q -> Qltb x y = Qltb x' y'.
Proof. intros Hx Hy. unfold Qltb. rewrite Hx, Hy. reflexivity. Qed.

Lemma after_loop_result original_faces success (s1 : St) b s' :
  after_loop original_faces success s1 = (Ok b, s') ->
  b = (polygons (world s') <? original_faces) /\
  exists out,
    stdout s' = out ++
      [if b then
         MsgReduced original_faces (polygons (world s'))
           (inject_Z (Z.of_nat original_faces - Z.of_nat (polygons (world s')))
            / Qnat original_faces * 100)%Q
       else MsgUnchanged].
Proof.
  unfold after_loop. unfold bind at 1.
  assert (H : forall s2 : St,
            (final_faces <- gets polygons ;;
             final_reduction <-
               percent (Z.of_nat original_faces - Z.of_nat final_faces) original_faces ;;
             if final_faces <? original_faces
             then print (MsgReduced original_faces final_faces final_reduction) ;; ret true
             else print MsgUnchanged ;; ret false) s2 = (Ok b, s') ->
            b = (polygons (world s') <? original_faces) /\
            exists out,
              stdout s' = out ++
                [if b then
                   MsgReduced original_faces (polygons (world s'))
                     (inject_Z (Z.of_nat original_faces - Z.of_nat (polygons (world s')))
                      / Qnat original_faces * 100)%Q
                 else MsgUnchanged]).
  { intros s2. unfold bind, gets, percent, raise, ret, print.
    destruct (original_faces =? 0); [discriminate |].
    destruct (polygons (world s2) <? original_faces) eqn:E;
      intros H; injection H as <- <-; simpl; rewrite E;
      (split; [reflexivity | eexists; reflexivity]). }
  destruct success.
  - unfold bind at 1. unfold print at 1. unfold bind at 1.
    destruct (apply_smart_smooth (put_msg MsgPostProcess s1)) as [[ok | e] s2];
      [apply H | discriminate].
  - unfold ret at 1. apply H.
Qed.

(** ** The claims about the controller *)

(** C1. When [intelligent_mesh_reduction] gets past its two entry guards
    (valid object, at least 100 faces) and returns, the value it returns is
    [True] exactly when the face count of the final scene is below the
    original one: it is the comparison of the two counts, whatever the flag
    of the strategy loop was.  The last line it prints then carries the two
    counts and the percentage
    [(original_faces - final_faces) / original_faces * 100]. *)
Theorem reduce_reports_final_state target_reduction (s : St) b s' :
  is_valid_obj (world s) = true ->
  100 <= polygons (world s) ->
  intelligent_mesh_reduction target_reduction s = (Ok b, s') ->
  (b = true <-> polygons (world s') < polygons (world s)) /\
  exists out,
    stdout s' = out ++
      [if b then
         MsgReduced (polygons (world s)) (polygons (world s'))
           (inject_Z (Z.of_nat (polygons (world s)) - Z.of_nat (polygons (world s')))
            / Qnat (polygons (world s)) * 100)%Q
       else MsgUnchanged].
Proof.
  intros Hv Hs H.
  destruct (target_faces_of (polygons (world s)) target_reduction)
    as [target_faces | e0] eqn:Et;
    [| rewrite (reduce_no_target _ _ e0) in H by assumption; discriminate].
  rewrite (reduce_large _ _ target_faces) in H by assumption.
  unfold bind at 1 in H.
  destruct (strategy_loop _ _ _ _ _) as [[success | e] s1]; [| discriminate].
  apply after_loop_result in H. destruct H as [Hb Hout].
  split; [| exact Hout].
  rewrite Hb. apply Nat.ltb_lt.
Qed.

(** C2. [analyze_mesh_quality] answers "unknown" for an object that is not a
    mesh with at least one polygon.  For a valid mesh the rules are tried in
    order: a quad ratio above 0.7 gives "structured"; otherwise a
    vertex-to-face ratio above 0.8 gives "dense"; otherwise "organic".  Two
    valid meshes with the same two ratios get the same category, and the
    analysis leaves the scene as it was. *)
Theorem analyze_classifies (s : St) :
  let m := mesh_metrics (world s) in
  (is_valid_obj (world s) = false ->
   fst (analyze_mesh_quality s) = Ok "unknown") /\
  (is_valid_obj (world s) = true ->
   quad_ratio m =
     (Qnat (List.length (filter (Nat.eqb 4) (face_verts (world s))))
      / Qnat (polygons (world s)))%Q /\
   vert_face_ratio m = (Qnat (vert_count (world s)) / Qnat (polygons (world s)))%Q /\
   ((0.7 < quad_ratio m)%Q ->
    fst (analyze_mesh_quality s) = Ok "structured") /\
   (~ (0.7 < quad_ratio m)%Q -> (0.8 < vert_face_ratio m)%Q ->
    fst (analyze_mesh_quality s) = Ok "dense") /\
   (~ (0.7 < quad_ratio m)%Q -> ~ (0.8 < vert_face_ratio m)%Q ->
    fst (analyze_mesh_quality s) = Ok "organic")) /\
  (forall s2 : St,
     is_valid_obj (world s) = true -> is_valid_obj (world s2) = true ->
     (quad_ratio m == quad_ratio (mesh_metrics (world s2)))%Q ->
     (vert_face_ratio m == vert_face_ratio (mesh_metrics (world s2)))%Q ->
     fst (analyze_mesh_quality s) = fst (analyze_mesh_quality s2)) /\
  world (snd (analyze_mesh_quality s)) = world s.
Proof.
  cbv zeta. split; [| split; [| split]].
  - intros Hv. rewrite analyze_invalid by exact Hv. reflexivity.
  - intros Hv. rewrite analyze_valid by exact Hv. cbn [fst].
    assert (Hpos : (0 <? polygons (world s)) = true).
    { unfold is_valid_obj in Hv. destruct (obj_type (world s)); [| discriminate].
      apply andb_true_iff in Hv. tauto. }
    split; [unfold mesh_metrics; cbn [quad_ratio]; rewrite Hpos; reflexivity |].
    split; [unfold mesh_metrics; cbn [vert_face_ratio]; rewrite Hpos; reflexivity |].
    unfold category. cbv zeta. rewrite <- !Qltb_lt.
    destruct (Qltb 0.7 (quad_ratio (mesh_metrics (world s))));
      destruct (Qltb 0.8 (vert_face_ratio (mesh_metrics (world s))));
      repeat split; intros; congruence.
  - intros s2 Hv Hv2 Hq Hr. rewrite !analyze_valid by assumption. cbn [fst].
    unfold category. cbv zeta.
    rewrite (Qltb_comp 0.7 _ 0.7 _ (Qeq_refl _) Hq).
    rewrite (Qltb_comp 0.8 _ 0.8 _ (Qeq_refl _) Hr). reflexivity.
  - destruct (is_valid_obj (world s)) eqn:Hv.
    + rewrite analyze_valid by exact Hv. reflexivity.
    + rewrite analyze_invalid by exact Hv. reflexivity.
Qed.

(** C4. On a valid mesh with fewer than 100 faces
    [intelligent_mesh_reduction] returns [True] without touching the engine:
    the scene, hence the face count, is the one it was given, no engine call
    is made and no strategy is attempted. *)
Theorem small_mesh_is_left_alone target_reduction (s : St) :
  is_valid_obj (world s) = true ->
  polygons (world s) < 100 ->
  exists s',
    intelligent_mesh_reduction target_reduction s = (Ok true, s') /\
    world s' = world s /\
    polygons (world s') = polygons (world s) /\
    calls s' = calls s /\
    attempts s' = attempts s.
Proof.
  intros Hv Hs. rewrite reduce_small by assumption.
  eexists. split; [reflexivity |]. simpl. auto.
Qed.

Lemma reduce_engine_error target_reduction (s : St) op s' :
  intelligent_mesh_reduction target_reduction s = (Raise (EngineError op), s') ->
  op = ModeSet "OBJECT" /\
  exists out, stdout s' = stdout s ++ out /\ In MsgPostProcess out.
Proof.
  intros H. destruct (is_valid_obj (world s)) eqn:Hv;
    [| rewrite reduce_invalid in H by assumption; discriminate].
  destruct (Nat.lt_ge_cases (polygons (world s)) 100) as [Hs | Hs];
    [rewrite reduce_small in H by assumption; discriminate |].
  destruct (target_faces_of (polygons (world s)) target_reduction)
    as [target_faces | e0] eqn:Et.
  2:{ rewrite (reduce_no_target _ _ e0) in H by assumption.
      injection H as -> _. exfalso. revert Et.
      unfold target_faces_of, float_of_int, int_of_float.
      destruct (float_of_Z _); try discriminate;
        destruct (fmul _ _); discriminate. }
  rewrite (reduce_large _ _ target_faces) in H by assumption.
  destruct (strategy_loop_log (strategies (category (world s)) target_reduction)
              target_faces 1 false (loop_entry s))
    as (new & cs & out & _ & _ & _ & Ho & _ & _ & _ & _ & _ & Hr).
  unfold bind at 1 in H.
  destruct (strategy_loop _ _ _ _ _) as [[success | e] s1]; simpl in Ho, Hr.
  - unfold after_loop in H. unfold bind at 1 in H. destruct success.
    + unfold bind at 1 in H. unfold print at 1 in H. unfold bind at 1 in H.
      pose proof (smart_smooth_stdout (put_msg MsgPostProcess s1)) as Hso.
      pose proof (smart_smooth_raises (put_msg MsgPostProcess s1)) as Hsr.
      destruct (apply_smart_smooth (put_msg MsgPostProcess s1)) as [[ok | e] s2];
        simpl in Hso.
      * exfalso. revert H. unfold bind, gets, percent, raise, ret, print.
        destruct (polygons (world s) =? 0); [discriminate |].
        destruct (polygons (world s2) <? polygons (world s)); discriminate.
      * injection H as -> <-. specialize (Hsr _ _ eq_refl).
        injection Hsr as ->. split; [reflexivity |].
        eexists. rewrite Hso. simpl. rewrite Ho. rewrite <- !app_assoc.
        split; [reflexivity |]. rewrite !in_app_iff. simpl. tauto.
    + exfalso. revert H. unfold bind, gets, percent, raise, ret, print.
      destruct (polygons (world s) =? 0); [discriminate |].
      destruct (polygons (world s1) <? polygons (world s)); discriminate.
  - injection H as -> _. destruct Hr as [Hr _]. discriminate Hr.
Qed.

Lemma reduce_raise_cases target_reduction (s : St) e s' :
  intelligent_mesh_reduction target_reduction s = (Raise e, s') ->
  (e = EngineError (ModeSet "OBJECT") /\
   exists out, stdout s' = stdout s ++ out /\ In MsgPostProcess out) \/
  (e = ZeroDivisionError /\
   exists new a,
     attempts s' = attempts s ++ new /\ In a new /\
     succeeded a = true /\ faces_before a = 0) \/
  (target_faces_of (polygons (world s)) target_reduction = Raise e /\
   attempts s' = attempts s /\ calls s' = calls s).
Proof.
  intros H. destruct (is_valid_obj (world s)) eqn:Hv;
    [| rewrite reduce_invalid in H by assumption; discriminate].
  destruct (Nat.lt_ge_cases (polygons (world s)) 100) as [Hs | Hs];
    [rewrite reduce_small in H by assumption; discriminate |].
  destruct (target_faces_of (polygons (world s)) target_reduction)
    as [target_faces | e0] eqn:Et.
  2:{ rewrite (reduce_no_target _ _ e0) in H by assumption.
      injection H as <- <-. right. right. auto. }
  rewrite (reduce_large _ _ target_faces) in H by assumption.
  destruct (strategy_loop_log (strategies (category (world s)) target_reduction)
              target_faces 1 false (loop_entry s))
    as (new & cs & out & Ha & _ & _ & Ho & _ & _ & _ & _ & _ & Hr).
  unfold bind at 1 in H.
  destruct (strategy_loop _ _ _ _ _) as [[success | e1] s1]; simpl in Ha, Ho, Hr.
  - left. unfold after_loop in H. unfold bind at 1 in H.
    assert (Hpos : (polygons (world s) =? 0) = false) by (apply Nat.eqb_neq; lia).
    destruct success.
    + unfold bind at 1 in H. unfold print at 1 in H. unfold bind at 1 in H.
      pose proof (smart_smooth_stdout (put_msg MsgPostProcess s1)) as Hso.
      pose proof (smart_smooth_raises (put_msg MsgPostProcess s1)) as Hsr.
      destruct (apply_smart_smooth (put_msg MsgPostProcess s1)) as [[ok | e2] s2];
        simpl in Hso.
      * exfalso. revert H. unfold bind, gets, percent, raise, ret, print.
        rewrite Hpos.
        destruct (polygons (world s2) <? polygons (world s)); discriminate.
      * injection H as <- <-. specialize (Hsr _ _ eq_refl).
        split; [exact Hsr |].
        eexists. rewrite Hso. simpl. rewrite Ho. rewrite <- !app_assoc.
        split; [reflexivity |]. rewrite !in_app_iff. simpl. tauto.
    + exfalso. revert H. unfold bind, gets, percent, raise, ret, print.
      rewrite Hpos.
      destruct (polygons (world s1) <? polygons (world s)); discriminate.
  - injection H as <- <-. destruct Hr as (-> & a & Hin & Hok & H0).
    right. left. split; [reflexivity |]. exists new, a. auto.
Qed.


Lemma close_to_target_iff target_faces faces :
  close_to_target target_faces faces = true <->
  (inject_Z target_faces * 0.7 <= Qnat faces)%Q /\
  (Qnat faces <= inject_Z target_faces * 1.3)%Q.
Proof.
  unfold close_to_target. rewrite andb_true_iff, !Qle_bool_iff. reflexivity.
Qed.

(** C3, as the code has it.  In a run of [intelligent_mesh_reduction], an
    attempt whose strategy returned [True], that cut the face count by more
    than 5% and that left it within [0.7 * target_faces, 1.3 * target_faces]
    is the last one: no later strategy of the list runs.  [target_faces] is
    the integer the code computes, [int()] of the binary64 product. *)
Theorem early_stop_after_effective_attempt target_reduction (s : St) r s'
    target_faces pre a post :
  intelligent_mesh_reduction target_reduction s = (r, s') ->
  attempts s' = attempts s ++ pre ++ a :: post ->
  target_faces_of (polygons (world s)) target_reduction = Ok target_faces ->
  effective a = true ->
  (inject_Z target_faces * 0.7 <= Qnat (faces_after a))%Q ->
  (Qnat (faces_after a) <= inject_Z target_faces * 1.3)%Q ->
  post = [].
Proof.
  intros Hrun Hlog Htarget Heff Hlo Hhi.
  destruct (reduce_log target_reduction s) as (new & Hnew & _ & Hstop).
  rewrite Hrun in Hnew. simpl in Hnew. rewrite Hlog in Hnew.
  apply app_inv_head in Hnew.
  apply (Hstop target_faces pre a post Htarget); [symmetry; exact Hnew |].
  unfold stops. rewrite Heff. apply close_to_target_iff. split; assumption.
Qed.

(** C5, as the code has it.  On a mesh with 3 faces the collapse primitive
    returns [False] at its 4-face floor, having made at most its three
    preparatory calls (given that these leave the face count alone), and
    [intelligent_mesh_reduction] on such a valid mesh returns [True] through
    its small-mesh guard without calling the engine. *)
Theorem three_face_mesh target_reduction preserve_sharp (s : St) :
  polygons (world s) = 3 ->
  (forall op w, In op [SetActive; ModeSet "OBJECT"; ModifiersClear] ->
                polygons (snd (exec op w)) = polygons w) ->
  (exists s' cs,
     try_quadric_decimate target_reduction preserve_sharp s = (Ok false, s') /\
     calls s' = calls s ++ cs /\
     Forall (fun c => In (fst c) [SetActive; ModeSet "OBJECT"; ModifiersClear]) cs /\
     polygons (world s') = 3) /\
  (is_valid_obj (world s) = true ->
   exists s',
     intelligent_mesh_reduction target_reduction s = (Ok true, s') /\
     world s' = world s /\ calls s' = calls s).
Proof.
  intros H3 Hframe.
  split.
  - unfold try_quadric_decimate, try_except, quadric_body.
    unfold bind, call, gets, ret.
    pose proof (Hframe SetActive (world s) (or_introl eq_refl)) as F1.
    destruct (exec SetActive (world s)) as [[|] w1]; simpl in F1 |- *.
    { eexists _, [_]. split; [reflexivity |]. split; [reflexivity |].
      split; [| simpl; congruence].
      repeat (apply Forall_cons; [simpl; tauto |]). apply Forall_nil. }
    pose proof (Hframe (ModeSet "OBJECT") w1 (or_intror (or_introl eq_refl))) as F2.
    destruct (exec (ModeSet "OBJECT") w1) as [[|] w2]; simpl in F2 |- *.
    { eexists _, [_; _]. split; [reflexivity |].
      split; [simpl; rewrite <- app_assoc; reflexivity |].
      split; [| simpl; congruence].
      repeat (apply Forall_cons; [simpl; tauto |]). apply Forall_nil. }
    pose proof (Hframe ModifiersClear w2
                  (or_intror (or_intror (or_introl eq_refl)))) as F3.
    destruct (exec ModifiersClear w2) as [[|] w3]; simpl in F3 |- *.
    { eexists _, [_; _; _]. split; [reflexivity |].
      split; [simpl; rewrite <- !app_assoc; reflexivity |].
      split; [| simpl; congruence].
      repeat (apply Forall_cons; [simpl; tauto |]). apply Forall_nil. }
    assert (E : polygons w3 = 3) by congruence. rewrite E. simpl.
    eexists _, [_; _; _]. split; [reflexivity |].
    split; [simpl; rewrite <- !app_assoc; reflexivity |].
    split; [| exact E].
    repeat (apply Forall_cons; [simpl; tauto |]). apply Forall_nil.
  - intros Hv. rewrite reduce_small by (try assumption; lia).
    eexists. simpl. auto.
Qed.

(** C6, as the code has it.  In a run of the strategy loop that starts with
    the flag down, an attempt counts as effective exactly when its strategy
    returned [True] and left fewer than 0.95 times the faces it found; the
    flag the loop returns is up exactly when some attempt was effective. *)
Theorem effective_flag_of_attempts target_faces i strategies (s : St) r s' new :
  strategy_loop target_faces i strategies false s = (r, s') ->
  attempts s' = attempts s ++ new ->
  (forall a, In a new ->
     (effective a = true <->
      succeeded a = true /\
      (Qnat (faces_after a) < Qnat (faces_before a) * 0.95)%Q)) /\
  (forall b, r = Ok b -> (b = true <-> exists a, In a new /\ effective a = true)).
Proof.
  intros Hrun Hlog.
  destruct (strategy_loop_log strategies target_faces i false s)
    as (new0 & cs & out & Ha & _ & _ & _ & _ & Hw & _ & _ & _ & Hr).
  rewrite Hrun in Ha, Hr. simpl in Ha, Hr.
  rewrite Hlog in Ha. apply app_inv_head in Ha. subst new0. split.
  - intros a Hin. rewrite Forall_forall in Hw. rewrite (Hw a Hin).
    rewrite andb_true_iff. unfold is_effective. rewrite Qltb_lt. reflexivity.
  - intros b ->. simpl in Hr. rewrite Hr. apply existsb_exists.
Qed.

(** C7, as the code has it.  The catalog: for each category the four
    strategies in order, with their parameters.  The composite strategy of
    the organic list runs the planar dissolve first and runs the quadric
    collapse only when the dissolve returned [True]; it returns [True] only
    when both did. *)
Theorem strategy_catalog target_reduction :
  strategies "structured" target_reduction =
    [ ("Conservative Quadric", Quadric (target_reduction * 0.7) true);
      ("Un-Subdivide", Unsubdiv 2);
      ("Standard Quadric", Quadric target_reduction true);
      ("Planar Dissolve", Planar 5) ] /\
  strategies "dense" target_reduction =
    [ ("SubSurf + Decimate", SubSurfDecimate target_reduction);
      ("Progressive Quadric", Quadric (target_reduction * 0.8) true);
      ("Un-Subdivide", Unsubdiv 3);
      ("Aggressive Quadric", Quadric target_reduction false) ] /\
  strategies "organic" target_reduction =
    [ ("Quality Quadric", Quadric (target_reduction * 0.6) true);
      ("SubSurf + Decimate", SubSurfDecimate target_reduction);
      ("Planar + Quadric",
       AndThen (Planar 3) (Quadric (target_reduction * 0.5) true));
      ("Standard Quadric", Quadric target_reduction true) ] /\
  forall s : St,
    exists planar_ok s1,
      try_planar_decimate 3 s = (Ok planar_ok, s1) /\
      run_strategy (AndThen (Planar 3) (Quadric (target_reduction * 0.5) true)) s =
        if planar_ok then try_quadric_decimate (target_reduction * 0.5) true s1
        else (Ok false, s1).
Proof.
  repeat (split; [reflexivity |]).
  intros s. destruct (primitive_planar 3 s) as (b & s1 & cs & E & _).
  exists b, s1. split; [exact E |].
  simpl. unfold bind. rewrite E. destruct b; reflexivity.
Qed.

Lemma slight_keeps_faces (before after : nat) :
  (Qnat before * 0.95 <= Qnat after)%Q -> 0 < before -> 0 < after.
Proof.
  unfold Qle, Qnat. simpl. lia.
Qed.

Lemma slight_not_effective (a : Attempt) :
  well_logged a ->
  (Qnat (faces_before a) * 0.95 <= Qnat (faces_after a))%Q ->
  effective a = false.
Proof.
  intros Hw Hle. rewrite Hw. unfold is_effective, Qltb.
  apply Qle_bool_iff in Hle. rewrite Hle. apply andb_false_r.
Qed.

Lemma slight_chain (new : list Attempt) :
  forall start,
    0 < start -> chained start new ->
    (forall a, In a new ->
       faces_after a <= faces_before a /\
       (Qnat (faces_before a) * 0.95 <= Qnat (faces_after a))%Q) ->
    (forall a, In a new -> 0 < faces_before a) /\
    last_faces start new <= start /\
    ((exists a, In a new /\ faces_after a < faces_before a) ->
     last_faces start new < start).
Proof.
  induction new as [| x new IH]; intros start Hpos Hch Hall; simpl in *.
  - split; [tauto |]. split; [lia |]. intros (a & [] & _).
  - destruct Hch as [Hb Hch].
    destruct (Hall x (or_introl eq_refl)) as [Hle Hq].
    assert (Hpos' : 0 < faces_after x).
    { apply (slight_keeps_faces (faces_before x)); [exact Hq | lia]. }
    destruct (IH (faces_after x) Hpos' Hch (fun a H => Hall a (or_intror H)))
      as (IHpos & IHle & IHlt).
    split; [| split].
    + intros a [<- | Hin]; [lia | auto].
    + lia.
    + intros (a & [<- | Hin] & Hlt); [lia |].
      assert (last_faces (faces_after x) new < faces_after x) by eauto. lia.
Qed.

Lemma after_loop_false original_faces (s1 : St) :
  0 < original_faces ->
  after_loop original_faces false s1 =
    if polygons (world s1) <? original_faces then
      (Ok true,
       put_msg (MsgReduced original_faces (polygons (world s1))
                  (inject_Z (Z.of_nat original_faces - Z.of_nat (polygons (world s1)))
                   / Qnat original_faces * 100)%Q) s1)
    else (Ok false, put_msg MsgUnchanged s1).
Proof.
  intros Hpos. unfold after_loop, bind, gets, percent, raise, ret, print.
  destruct (Nat.eqb_spec original_faces 0); [lia |].
  destruct (polygons (world s1) <? original_faces); reflexivity.
Qed.

Lemma app_self_nil {A} (l new : list A) : l = l ++ new -> new = [].
Proof.
  intros H. rewrite <- (app_nil_r l) in H at 1.
  apply app_inv_head in H. auto.
Qed.

(** C10. Take a run of [intelligent_mesh_reduction] in which no attempt
    raises the face count, every attempt keeps at least 0.95 times the faces
    it found, and some attempt removes at least one face.  The run returns
    [True] with fewer faces than it started from, and yet the post-processor
    is not invoked: the engine calls made are those of the decimation
    primitives alone and the post-processing line is not printed. *)
Theorem slight_reductions_skip_postprocessing target_reduction (s : St) r s' new :
  intelligent_mesh_reduction target_reduction s = (r, s') ->
  attempts s' = attempts s ++ new ->
  (forall a, In a new ->
     faces_after a <= faces_before a /\
     (Qnat (faces_before a) * 0.95 <= Qnat (faces_after a))%Q) ->
  (exists a, In a new /\ faces_after a < faces_before a) ->
  r = Ok true /\
  polygons (world s') < polygons (world s) /\
  exists cs out,
    calls s' = calls s ++ cs /\ decimation_calls cs /\
    stdout s' = stdout s ++ out /\ ~ In MsgPostProcess out.
Proof.
  intros Hrun Hlog Hall Hsome.
  assert (Hnonempty : new <> []) by (destruct Hsome as (a & Hin & _); destruct new; [destruct Hin | discriminate]).
  assert (Hv : is_valid_obj (world s) = true).
  { destruct (is_valid_obj (world s)) eqn:Hv; [reflexivity |].
    rewrite reduce_invalid in Hrun by assumption. injection Hrun as <- <-.
    simpl in Hlog. apply app_self_nil in Hlog. contradiction. }
  assert (Hs : 100 <= polygons (world s)).
  { destruct (Nat.lt_ge_cases (polygons (world s)) 100) as [Hs | Hs]; [| exact Hs].
    rewrite reduce_small in Hrun by assumption. injection Hrun as <- <-.
    simpl in Hlog. apply app_self_nil in Hlog. contradiction. }
  destruct (target_faces_of (polygons (world s)) target_reduction)
    as [target_faces | e0] eqn:Et.
  2:{ rewrite (reduce_no_target _ _ e0) in Hrun by assumption.
      injection Hrun as <- <-. simpl in Hlog. apply app_self_nil in Hlog.
      contradiction. }
  rewrite (reduce_large _ _ target_faces) in Hrun by assumption.
  destruct (strategy_loop_log (strategies (category (world s)) target_reduction)
              target_faces 1 false (loop_entry s))
    as (new0 & cs & out & Ha & Hc & Hd & Ho & Hn & Hw & Hch & Hl & _ & Hr).
  unfold bind at 1 in Hrun.
  destruct (strategy_loop _ _ _ _ _) as [[success | e] s1];
    simpl in Ha, Hc, Ho, Hch, Hl, Hr.
  - assert (Hnew : new0 = new).
    { pose proof (after_loop_attempts (polygons (world s)) success s1) as H.
      rewrite Hrun in H. simpl in H. rewrite H, Ha in Hlog.
      apply app_inv_head in Hlog. exact Hlog. }
    subst new0.
    destruct (slight_chain new (polygons (world s)) ltac:(lia) Hch Hall)
      as (_ & _ & Hlt). specialize (Hlt Hsome).
    assert (Hfalse : existsb effective new = false).
    { apply not_true_is_false. intros H.
      apply existsb_exists in H. destruct H as (a & Hin & Heff).
      rewrite Forall_forall in Hw.
      rewrite (slight_not_effective a (Hw a Hin) (proj2 (Hall a Hin))) in Heff.
      discriminate. }
    simpl in Hr. rewrite Hfalse in Hr. subst success.
    rewrite after_loop_false in Hrun by lia.
    rewrite Hl in Hrun. apply Nat.ltb_lt in Hlt. rewrite Hlt in Hrun.
    injection Hrun as <- <-. split; [reflexivity |].
    apply Nat.ltb_lt in Hlt. simpl. split; [rewrite Hl; exact Hlt |].
    exists cs. eexists. split; [exact Hc |]. split; [exact Hd |].
    split.
    + rewrite Ho. simpl. rewrite <- !app_assoc. reflexivity.
    + simpl. rewrite !in_app_iff. simpl.
      intros [H | [H | [H | [H | [H | []]]]]]; try discriminate. exact (Hn H).
  - exfalso. injection Hrun as <- <-.
    rewrite Ha in Hlog. apply app_inv_head in Hlog. subst new0.
    destruct Hr as (_ & a & Hin & _ & H0).
    destruct (slight_chain new (polygons (world s)) ltac:(lia) Hch Hall)
      as (Hpos & _). specialize (Hpos a Hin). lia.
Qed.

End ControllerProofs.

(** ** The command-line driver *)

Section DriverProofs.

Variable float_of_string : string -> option PyFloat.
Variable Batch : Type.
Variable output_dir_exists : Batch -> bool.
Variable makedirs : Batch -> bool * Batch.
Variable glob_obj_files : Batch -> list string.
Variable process_obj_file : string -> PyFloat -> Batch -> option bool * Batch.
Variable export_obj_file : string -> Batch -> bool * Batch.

Lemma parse_loop_invalid argv :
  forall TARGET_REDUCTION out,
    (forall value, In value (flag_values argv) -> float_of_string value = None) ->
    parse_loop float_of_string argv TARGET_REDUCTION out =
      (TARGET_REDUCTION, out ++ map MsgInvalidReduction (flag_values argv)).
Proof.
  induction argv as [| arg rest IH]; intros cur out Hall; simpl in *.
  - rewrite app_nil_r. reflexivity.
  - destruct (is_flag arg).
    + destruct rest as [| value rest'].
      * simpl. rewrite app_nil_r. reflexivity.
      * rewrite (Hall value (or_introl eq_refl)).
        rewrite IH by (intros v Hv; apply Hall; right; exact Hv).
        rewrite <- app_assoc. reflexivity.
    + apply IH. exact Hall.
Qed.

(** C9, as the code has it.  When none of the values given to the flag parses
    as a float, [parse_arguments] prints one warning per value and keeps the
    default 0.5, and [main] goes on with the batch under it: what it prints
    after the warnings, how it ends and the state it leaves are those of the
    batch run with 0.5.  When the value [parse_arguments] returns is outside
    [0, 1], [main] prints an error and returns: no output directory is
    created, no file is processed and the batch state is untouched. *)
Theorem reduction_flag_handling (argv : list string) (b : Batch) :
  ((forall value, In value (flag_values argv) -> float_of_string value = None) ->
   parse_arguments float_of_string argv =
     (Finite 0.5, map MsgInvalidReduction (flag_values argv)) /\
   main float_of_string Batch output_dir_exists makedirs glob_obj_files
        process_obj_file export_obj_file argv b =
     let '(exit, out, b') :=
       run_batch Batch output_dir_exists makedirs glob_obj_files
                 process_obj_file export_obj_file (Finite 0.5) b in
     (exit, map MsgInvalidReduction (flag_values argv) ++ out, b')) /\
  (in_unit_range (fst (parse_arguments float_of_string argv)) = false ->
   main float_of_string Batch output_dir_exists makedirs glob_obj_files
        process_obj_file export_obj_file argv b =
     (Returned,
      snd (parse_arguments float_of_string argv)
        ++ [MsgRangeError (fst (parse_arguments float_of_string argv))],
      b)).
Proof.
  split.
  - intros Hall.
    assert (Hp : parse_arguments float_of_string argv =
                 (Finite 0.5, map MsgInvalidReduction (flag_values argv))).
    { unfold parse_arguments. rewrite parse_loop_invalid by exact Hall. reflexivity. }
    split; [exact Hp |].
    unfold main. rewrite Hp. reflexivity.
  - intros Hr. unfold main.
    destruct (parse_arguments float_of_string argv) as [v out].
    simpl in Hr |- *. rewrite Hr. reflexivity.
Qed.

End DriverProofs.

(** ** Concrete runs on the scripted engine *)

Lemma scripted_setup_keeps_faces (op : Op) (w : Scene) :
  In op [SetActive; ModeSet "OBJECT"; ModifiersClear] ->
  polygons (snd (exec op w)) = polygons w.
Proof. intros [<- | [<- | [<- | []]]]; reflexivity. Qed.

(** The scenario of the specification: a structured mesh of 1000 faces and a
    target reduction of 0.5 give a target of 500 faces; the conservative
    collapse leaves 680 faces, the un-subdivision 480, and the loop stops
    there; the call returns [True] and reports a reduction of 52%. *)
Lemma converging_run :
  target_faces_of 1000 0.5 = Ok 500%Z /\
  fst (reduce_run 0.5 converging) = Ok true /\
  map strategy_name (attempts (snd (reduce_run 0.5 converging)))
    = ["Conservative Quadric"; "Un-Subdivide"] /\
  exists final_reduction,
    last (stdout (snd (reduce_run 0.5 converging))) MsgInvalid
      = MsgReduced 1000 480 final_reduction /\
    (final_reduction == 52)%Q.
Proof.
  split; [vm_compute; reflexivity |].
  split; [vm_compute; reflexivity |].
  split; [vm_compute; reflexivity |].
  eexists. split; vm_compute; reflexivity.
Qed.

(** The target is the truncation of a binary64 product: for 700 faces and
    0.3, 1000 faces and 0.32, 170 faces and 0.3 it is one below the floor of
    the exact product.  On the run [above_rounded_band] (1000 faces, a
    reduction of 0.32, a first collapse to 884 faces) the attempt is just
    above the band of the target 679, which ends at 882.7, and the loop goes
    on through all four strategies; the band of 680 would have held it. *)
Lemma rounded_target_run :
  target_faces_of 700 0.3 = Ok 489%Z /\
  target_faces_of 1000 0.32 = Ok 679%Z /\
  target_faces_of 170 0.3 = Ok 118%Z /\
  py_int (Qnat 1000 * (1 - 0.32)) = 680%Z /\
  close_to_target 679 884 = false /\
  close_to_target 680 884 = true /\
  map strategy_name (attempts (snd (reduce_run 0.32 above_rounded_band)))
    = ["Conservative Quadric"; "Un-Subdivide"; "Standard Quadric"; "Planar Dissolve"].
Proof.
  do 6 (split; [vm_compute; reflexivity |]). vm_compute. reflexivity.
Qed.

(** The floats of the model against known binary64 values: 0.1, 0.32 and
    0.7 as mantissa and exponent, and the two percentages that decide the
    verdict for a mesh cut from 400 to 197 faces under a target of 0.725. *)
Lemma binary64_values :
  float_of_Q 0.1 = S754_finite false 7205759403792794 (-56) /\
  float_of_Q 0.32 = S754_finite false 5764607523034235 (-54) /\
  float_of_Q 0.7 = S754_finite false 6305039478318694 (-53) /\
  percentage 203 400 = S754_finite false 7142427534032895 (-47) /\
  expected_reduction 0.725 = S754_finite false 7142427534032896 (-47) /\
  quality_band (percentage 203 400) 0.725 = SomeImprovement.
Proof.
  do 5 (split; [vm_compute; reflexivity |]). vm_compute. reflexivity.
Qed.

(** C1 on the run [overshoot]: the loop raised its flag (the post-processing
    line is printed), the mesh ends with 1500 faces, and the call returns
    [False]. *)
Lemma reduce_reports_final_state_witness :
  let s := init overshoot in
  let s' := snd (reduce_run 0.5 overshoot) in
  In MsgPostProcess (stdout s') /\
  polygons (world s') = 1500 /\
  ((false = true <-> polygons (world s') < polygons (world s)) /\
   exists out, stdout s' = out ++ [MsgUnchanged]).
Proof.
  cbv zeta. split; [vm_compute; tauto |]. split; [vm_compute; reflexivity |].
  apply (reduce_reports_final_state 0.5 (init overshoot) false
           (snd (reduce_run 0.5 overshoot))).
  - reflexivity.
  - apply Nat.leb_le. reflexivity.
  - vm_compute. reflexivity.
Defined.

(** C2 on three meshes: all quads; triangles with 0.9 vertices per face;
    triangles with 0.502 vertices per face. *)
Lemma analyze_classifies_witness :
  fst (analyze_mesh_quality (init (structured_mesh []))) = Ok "structured" /\
  fst (analyze_mesh_quality (init (dense_mesh []))) = Ok "dense" /\
  fst (analyze_mesh_quality (init (organic_mesh []))) = Ok "organic" /\
  fst (analyze_mesh_quality (init (mesh 4 0 0 []))) = Ok "unknown".
Proof.
  split; [| split; [| split]].
  - apply (analyze_classifies (init (structured_mesh []))).
    + reflexivity.
    + vm_compute. reflexivity.
  - apply (analyze_classifies (init (dense_mesh []))).
    + reflexivity.
    + vm_compute. discriminate.
    + vm_compute. reflexivity.
  - apply (analyze_classifies (init (organic_mesh []))).
    + reflexivity.
    + vm_compute. discriminate.
    + vm_compute. discriminate.
  - apply (analyze_classifies (init (mesh 4 0 0 []))). reflexivity.
Defined.

(** C3 fails on the run [near_miss]: the second attempt leaves 640 faces,
    inside the band [350, 650] around the target of 500, and the third and
    fourth strategies still run. *)
Lemma in_range_attempt_does_not_stop :
  let s := init near_miss in
  let s' := snd (reduce_run 0.5 near_miss) in
  target_faces_of (polygons (world s)) 0.5 = Ok 500%Z /\
  attempts s' =
    [ {| strategy_name := "Conservative Quadric"; faces_before := 1000;
         faces_after := 660; succeeded := true; effective := true |};
      {| strategy_name := "Un-Subdivide"; faces_before := 660;
         faces_after := 640; succeeded := true; effective := false |};
      {| strategy_name := "Standard Quadric"; faces_before := 640;
         faces_after := 640; succeeded := false; effective := false |};
      {| strategy_name := "Planar Dissolve"; faces_before := 640;
         faces_after := 640; succeeded := false; effective := false |} ] /\
  ~ (forall pre a post,
       attempts s' = attempts s ++ pre ++ a :: post ->
       (inject_Z 500 * 0.7 <= Qnat (faces_after a))%Q ->
       (Qnat (faces_after a) <= inject_Z 500 * 1.3)%Q ->
       post = []).
Proof.
  cbv zeta. split; [vm_compute; reflexivity |].
  split; [vm_compute; reflexivity |].
  intros H.
  specialize
    (H [ {| strategy_name := "Conservative Quadric"; faces_before := 1000;
            faces_after := 660; succeeded := true; effective := true |} ]
       {| strategy_name := "Un-Subdivide"; faces_before := 660;
          faces_after := 640; succeeded := true; effective := false |}
       [ {| strategy_name := "Standard Quadric"; faces_before := 640;
            faces_after := 640; succeeded := false; effective := false |};
         {| strategy_name := "Planar Dissolve"; faces_before := 640;
            faces_after := 640; succeeded := false; effective := false |} ]).
  assert (E : [ {| strategy_name := "Standard Quadric"; faces_before := 640;
                   faces_after := 640; succeeded := false; effective := false |};
                {| strategy_name := "Planar Dissolve"; faces_before := 640;
                   faces_after := 640; succeeded := false; effective := false |} ]
              = []).
  { apply H.
    - vm_compute. reflexivity.
    - vm_compute. discriminate.
    - vm_compute. discriminate. }
  discriminate E.
Qed.

(** C3 as amended, on the run [converging]: the second attempt is effective
    and leaves 480 faces, inside [350, 650]; nothing follows it. *)
Lemma early_stop_after_effective_attempt_witness :
  let s := init converging in
  let s' := snd (reduce_run 0.5 converging) in
  let first :=
    {| strategy_name := "Conservative Quadric"; faces_before := 1000;
       faces_after := 680; succeeded := true; effective := true |} in
  let second :=
    {| strategy_name := "Un-Subdivide"; faces_before := 680;
       faces_after := 480; succeeded := true; effective := true |} in
  attempts s' = attempts s ++ [first] ++ second :: [] /\
  target_faces_of (polygons (world s)) 0.5 = Ok 500%Z /\
  (@nil Attempt) = [].
Proof.
  cbv zeta.
  assert (Htarget : target_faces_of (polygons (world (init converging))) 0.5 = Ok 500%Z)
    by (vm_compute; reflexivity).
  assert (Hlog : attempts (snd (reduce_run 0.5 converging)) =
                 attempts (init converging) ++
                 [ {| strategy_name := "Conservative Quadric"; faces_before := 1000;
                      faces_after := 680; succeeded := true; effective := true |} ] ++
                 {| strategy_name := "Un-Subdivide"; faces_before := 680;
                    faces_after := 480; succeeded := true; effective := true |} :: [])
    by (vm_compute; reflexivity).
  split; [exact Hlog |]. split; [exact Htarget |].
  apply (early_stop_after_effective_attempt 0.5 (init converging)
           (fst (reduce_run 0.5 converging)) (snd (reduce_run 0.5 converging))
           500%Z _ _ _ (surjective_pairing _) Hlog Htarget).
  - reflexivity.
  - vm_compute. discriminate.
  - vm_compute. discriminate.
Defined.

(** C4 on a valid mesh of 50 quads. *)
Lemma small_mesh_is_left_alone_witness :
  exists s',
    intelligent_mesh_reduction 0.5 (init (mesh 4 50 60 [Becomes 10])) = (Ok true, s') /\
    world s' = mesh 4 50 60 [Becomes 10] /\
    polygons (world s') = 50 /\
    calls s' = [] /\
    attempts s' = [].
Proof.
  exact (small_mesh_is_left_alone 0.5 (init (mesh 4 50 60 [Becomes 10]))
           eq_refl (proj1 (Nat.ltb_lt 50 100) eq_refl)).
Defined.

(** C5 fails on a valid mesh of three faces: [intelligent_mesh_reduction]
    returns [True]; and a planar dissolve that merges the three faces into
    one returns [True] as well. *)
Lemma three_face_mesh_reported_success :
  fst (reduce_run 0.5 (three_faces [])) = Ok true /\
  fst (try_planar_decimate 5 (init (three_faces [Becomes 1]))) = Ok true.
Proof. split; vm_compute; reflexivity. Qed.

(** C5 as amended, on the same mesh. *)
Lemma three_face_mesh_witness :
  (exists s' cs,
     try_quadric_decimate 0.5 true (init (three_faces [Becomes 1])) = (Ok false, s') /\
     calls s' = calls (init (three_faces [Becomes 1])) ++ cs /\
     Forall (fun c => In (fst c) [SetActive; ModeSet "OBJECT"; ModifiersClear]) cs /\
     polygons (world s') = 3) /\
  (is_valid_obj (world (init (three_faces [Becomes 1]))) = true ->
   exists s',
     intelligent_mesh_reduction 0.5 (init (three_faces [Becomes 1])) = (Ok true, s') /\
     world s' = world (init (three_faces [Becomes 1])) /\
     calls s' = calls (init (three_faces [Becomes 1]))).
Proof.
  apply (three_face_mesh 0.5 true (init (three_faces [Becomes 1]))).
  - reflexivity.
  - exact scripted_setup_keeps_faces.
Defined.

(** C6 fails on the run [half_composite]: the third attempt takes the mesh
    from 980 faces to 2, far below 0.95 * 980, but its strategy returned
    [False] (the dissolve did the work and the collapse then skipped); it is
    not counted as effective, the flag stays down and the post-processor is
    not run. *)
Lemma large_drop_without_effective_flag :
  let s' := snd (reduce_run 0.5 half_composite) in
  let third :=
    {| strategy_name := "Planar + Quadric"; faces_before := 980;
       faces_after := 2; succeeded := false; effective := false |} in
  In third (attempts s') /\
  (Qnat (faces_after third) < Qnat (faces_before third) * 0.95)%Q /\
  existsb effective (attempts s') = false /\
  ~ In MsgPostProcess (stdout s') /\
  fst (strategy_loop 500 1 (strategies "organic" 0.5) false (init half_composite))
    = Ok false.
Proof.
  cbv zeta. split; [vm_compute; tauto |].
  split; [vm_compute; reflexivity |].
  split; [vm_compute; reflexivity |].
  split; [| vm_compute; reflexivity].
  vm_compute. intuition discriminate.
Qed.

(** C6 as amended, on the loop of the run [converging]. *)
Lemma effective_flag_of_attempts_witness :
  let new :=
    [ {| strategy_name := "Conservative Quadric"; faces_before := 1000;
         faces_after := 680; succeeded := true; effective := true |};
      {| strategy_name := "Un-Subdivide"; faces_before := 680;
         faces_after := 480; succeeded := true; effective := true |} ] in
  (forall a, In a new ->
     (effective a = true <->
      succeeded a = true /\
      (Qnat (faces_after a) < Qnat (faces_before a) * 0.95)%Q)) /\
  (forall b,
     fst (strategy_loop 500 1 (strategies "structured" 0.5) false (init converging))
       = Ok b ->
     (b = true <-> exists a, In a new /\ effective a = true)).
Proof.
  cbv zeta.
  apply (effective_flag_of_attempts 500 1 (strategies "structured" 0.5)
           (init converging) _ _ _ (surjective_pairing _)).
  vm_compute. reflexivity.
Defined.

(** C7 fails where the planar dissolve of the composite returns [False]: the
    composite is then the dissolve alone, and the collapse is not run (its
    modifier is never applied and its scripted effect is still pending). *)
Lemma composite_skips_quadric :
  let s := init (organic_mesh [Unchanged; Becomes 400]) in
  planar_then_quadric 0.5 = AndThen (Planar 3) (Quadric (0.5 * 0.5) true) /\
  run_strategy (planar_then_quadric 0.5) s = try_planar_decimate 3 s /\
  fst (run_strategy (planar_then_quadric 0.5) s) = Ok false /\
  (forall raised,
     ~ In (ModifierApply "QuadricDecimate", raised)
          (calls (snd (run_strategy (planar_then_quadric 0.5) s)))) /\
  scene_script (world (snd (run_strategy (planar_then_quadric 0.5) s)))
    = [Becomes 400].
Proof.
  cbv zeta. split; [reflexivity |].
  split; [vm_compute; reflexivity |].
  split; [vm_compute; reflexivity |].
  split; [| vm_compute; reflexivity].
  intros raised. vm_compute. intuition discriminate.
Qed.

(** C8 fails on the run [emptied]: no engine call raises; the first collapse
    leaves no face, the second strategy subdivides the empty mesh into 10
    faces, collapses them to 5 and returns [True]; the loop then divides by
    the face count the attempt started from, and the [ZeroDivisionError]
    leaves [intelligent_mesh_reduction] from inside the second attempt. *)
Lemma zero_division_leaves_reduce :
  let s' := snd (reduce_run 0.5 emptied) in
  fst (reduce_run 0.5 emptied) = Raise ZeroDivisionError /\
  raised_in (calls s') = false /\
  attempts s' =
    [ {| strategy_name := "Quality Quadric"; faces_before := 1000;
         faces_after := 0; succeeded := true; effective := true |};
      {| strategy_name := "SubSurf + Decimate"; faces_before := 0;
         faces_after := 5; succeeded := true; effective := false |} ] /\
  ~ (forall (w : Scene) target_reduction new,
       attempts (snd (reduce_run target_reduction w)) = new ->
       new <> [] ->
       exists b, fst (reduce_run target_reduction w) = Ok b).
Proof.
  cbv zeta. split; [vm_compute; reflexivity |].
  split; [vm_compute; reflexivity |].
  split; [vm_compute; reflexivity |].
  intros H. destruct (H emptied 0.5%Q _ eq_refl) as [b Hb].
  - vm_compute. discriminate.
  - vm_compute in Hb. discriminate Hb.
Qed.


(** C9 fails on the command line [-r 1.5]: the value is read, [main] prints
    the range error and stops, and neither input file is processed; without
    the flag both are. *)
Lemma out_of_range_reduction_is_fatal :
  demo_main ["remesh.py"; "-r"; "1.5"] =
    (Returned, [MsgReadReduction (Finite (3 # 2)); MsgRangeError (Finite (3 # 2))], []) /\
  snd (demo_main ["remesh.py"]) = ["a.obj"; "b.obj"].
Proof. split; vm_compute; reflexivity. Qed.

(** C9 as amended, on [-r abc] and on [-r 1.5]. *)
Lemma reduction_flag_handling_witness :
  demo_main ["remesh.py"; "-r"; "abc"] =
    (Returned,
     [MsgInvalidReduction "abc"; MsgBanner (Finite 0.5); MsgFound 2;
      MsgFileOk 1 2; MsgFileOk 2 2; MsgSummary 2 2],
     ["a.obj"; "b.obj"]) /\
  demo_main ["remesh.py"; "-r"; "1.5"] =
    (Returned, [MsgReadReduction (Finite (3 # 2)); MsgRangeError (Finite (3 # 2))], []).
Proof.
  split.
  - apply (reduction_flag_handling decimal_float (list string)
             (fun _ => true) (fun done => (false, done)) (fun _ => demo_files)
             (fun filepath _ done => (Some true, done ++ [filepath]))
             (fun _ done => (true, done))
             ["remesh.py"; "-r"; "abc"] []).
    intros value [<- | []]. reflexivity.
  - apply (reduction_flag_handling decimal_float (list string)
             (fun _ => true) (fun done => (false, done)) (fun _ => demo_files)
             (fun filepath _ done => (Some true, done ++ [filepath]))
             (fun _ done => (true, done))
             ["remesh.py"; "-r"; "1.5"] []).
    reflexivity.
Defined.

(** C10 on the run [slight]: 1000 faces, then 990, then 980; the call returns
    [True] and the post-processor is not run. *)
Lemma slight_reductions_skip_postprocessing_witness :
  let s' := snd (reduce_run 0.5 slight) in
  fst (reduce_run 0.5 slight) = Ok true /\
  polygons (world s') < polygons (world (init slight)) /\
  exists cs out,
    calls s' = calls (init slight) ++ cs /\ decimation_calls cs /\
    stdout s' = stdout (init slight) ++ out /\ ~ In MsgPostProcess out.
Proof.
  cbv zeta.
  apply (slight_reductions_skip_postprocessing 0.5 (init slight)
           (fst (reduce_run 0.5 slight)) (snd (reduce_run 0.5 slight))
           [ {| strategy_name := "Conservative Quadric"; faces_before := 1000;
                faces_after := 990; succeeded := true; effective := false |};
             {| strategy_name := "Un-Subdivide"; faces_before := 990;
                faces_after := 990; succeeded := false; effective := false |};
             {| strategy_name := "Standard Quadric"; faces_before := 990;
                faces_after := 980; succeeded := true; effective := false |};
             {| strategy_name := "Planar Dissolve"; faces_before := 980;
                faces_after := 980; succeeded := false; effective := false |} ]).
  - vm_compute. reflexivity.
  - vm_compute. reflexivity.
  - intros a [<- | [<- | [<- | [<- | []]]]];
      (split; [simpl; lia | vm_compute; discriminate]).
  - eexists. split; [left; reflexivity |]. simpl. lia.
Defined.

(** * Further properties of the controller *)

Section ControllerFacts.

Context {World : Type} {engine : Engine World}.

Abbreviation St := (St World).
Abbreviation M := (M World).

(** ** Footprint rules *)

Lemma calls_all_ret {A} (P : Op -> Prop) (a : A) : calls_all P (ret a : M A).
Proof. intros s. exists []. simpl. rewrite app_nil_r. auto. Qed.

Lemma calls_all_gets {A} (P : Op -> Prop) (f : World -> A) :
  calls_all P (gets f : M A).
Proof. intros s. exists []. simpl. rewrite app_nil_r. auto. Qed.

Lemma calls_all_raise {A} (P : Op -> Prop) (e : Exn) : calls_all P (raise e : M A).
Proof. intros s. exists []. simpl. rewrite app_nil_r. auto. Qed.

Lemma calls_all_call (P : Op -> Prop) (op : Op) : P op -> calls_all P (call op).
Proof.
  intros Hop s. unfold call. destruct (exec op (world s)) as [raised w].
  exists [(op, raised)]. simpl. auto.
Qed.

Lemma calls_all_bind {A B} (P : Op -> Prop) (m : M A) (k : A -> M B) :
  calls_all P m -> (forall a, calls_all P (k a)) -> calls_all P (bind m k).
Proof.
  intros Hm Hk s. unfold bind. destruct (Hm s) as (cs1 & Hc1 & Hp1).
  destruct (m s) as [[a | e] s1]; simpl in *.
  - destruct (Hk a s1) as (cs2 & Hc2 & Hp2).
    exists (cs1 ++ cs2). rewrite Hc2, Hc1, app_assoc.
    split; [reflexivity | apply Forall_app; auto].
  - exists cs1. auto.
Qed.

Lemma calls_all_try {A} (P : Op -> Prop) (m : M A) (handler : Exn -> M A) :
  calls_all P m -> (forall e, calls_all P (handler e)) ->
  calls_all P (try_except m handler).
Proof.
  intros Hm Hh s. unfold try_except. destruct (Hm s) as (cs1 & Hc1 & Hp1).
  destruct (m s) as [[a | e] s1]; simpl in *.
  - exists cs1. auto.
  - destruct (Hh e s1) as (cs2 & Hc2 & Hp2).
    exists (cs1 ++ cs2). rewrite Hc2, Hc1, app_assoc.
    split; [reflexivity | apply Forall_app; auto].
Qed.

Lemma calls_all_weaken {A} (P P' : Op -> Prop) (m : M A) :
  (forall op, P op -> P' op) -> calls_all P m -> calls_all P' m.
Proof.
  intros Himp Hm s. destruct (Hm s) as (cs & Hc & Hp). exists cs.
  split; [exact Hc |]. eapply Forall_impl; [| exact Hp]. simpl. auto.
Qed.

Ltac footprint side :=
  repeat first
    [ apply calls_all_ret | apply calls_all_gets | apply calls_all_raise
    | apply calls_all_call; solve [side]
    | match goal with
      | |- calls_all _ (bind _ _) => apply calls_all_bind; [| intro]
      | |- calls_all _ (try_except _ _) => apply calls_all_try; [| intro]
      | |- calls_all _ (if ?c then _ else _) => destruct c
      end ].

(** ** The collapse ratio *)

Lemma Qltb_false_le (x y : Q) : Qltb x y = false -> (y <= x)%Q.
Proof.
  unfold Qltb. rewrite negb_false_iff. apply Qle_bool_iff.
Qed.

Lemma py_max_lower (a b : Q) : (a <= py_max a b)%Q.
Proof.
  unfold py_max. destruct (Qltb a b) eqn:E.
  - apply Qlt_le_weak. apply Qltb_lt. exact E.
  - apply Qle_refl.
Qed.

Lemma py_max_upper (a b c : Q) : (a <= c)%Q -> (b <= c)%Q -> (py_max a b <= c)%Q.
Proof. intros Ha Hb. unfold py_max. destruct (Qltb a b); assumption. Qed.

Lemma py_min_upper (a b : Q) : (py_min a b <= a)%Q.
Proof.
  unfold py_min. destruct (Qltb b a) eqn:E.
  - apply Qlt_le_weak. apply Qltb_lt. exact E.
  - apply Qle_refl.
Qed.

Ltac not_ratio :=
  let q := fresh in let H := fresh in intros q H; discriminate H.

Lemma quadric_ratio_at_least target_reduction preserve_sharp :
  calls_all (ratio_at_least 0.1) (try_quadric_decimate target_reduction preserve_sharp).
Proof.
  unfold try_quadric_decimate, quadric_body.
  footprint ltac:(first [ not_ratio
                        | intros q H; injection H as <-; apply py_max_lower ]).
Qed.

Lemma quadric_ratio_within target_reduction preserve_sharp hi :
  (0.1 <= hi)%Q -> (1 - target_reduction <= hi)%Q ->
  calls_all (ratio_within 0.1 hi) (try_quadric_decimate target_reduction preserve_sharp).
Proof.
  intros Hlo Hhi. unfold try_quadric_decimate, quadric_body.
  footprint ltac:(first [ not_ratio
                        | intros q H; injection H as <-;
                          split; [apply py_max_lower | apply py_max_upper; assumption] ]).
Qed.

Lemma clamped_reduction_band (x : Q) :
  (0.1 <= py_max 0.1 (py_min 0.9 x))%Q /\ (py_max 0.1 (py_min 0.9 x) <= 0.9)%Q.
Proof.
  split; [apply py_max_lower |].
  apply py_max_upper; [discriminate | apply py_min_upper].
Qed.

Lemma one_minus_clamped (x : Q) :
  (1 - py_max 0.1 (py_min 0.9 x) <= 0.9)%Q.
Proof.
  destruct (clamped_reduction_band x) as [Hlo _].
  revert Hlo. generalize (py_max 0.1 (py_min 0.9 x)). intros [n d].
  unfold Qle, Qminus, Qplus, Qopp. cbn [Qnum Qden]. lia.
Qed.

Lemma subsurf_ratio_within target_reduction :
  calls_all (ratio_within 0.1 0.9)
    (apply_subdivision_surface_then_decimate target_reduction).
Proof.
  unfold apply_subdivision_surface_then_decimate, subsurf_body.
  footprint ltac:(not_ratio).
  cbv zeta. apply quadric_ratio_within; [discriminate | apply one_minus_clamped].
Qed.

(** ** Footprint of the loop and of the whole reduction *)

Lemma calls_all_print (P : Op -> Prop) (m : Msg) : calls_all P (print m : M unit).
Proof. intros s. exists []. simpl. rewrite app_nil_r. auto. Qed.

Lemma calls_all_note (P : Op -> Prop) name faces_before ok :
  calls_all P (note_attempt name faces_before ok : M unit).
Proof. intros s. exists []. simpl. rewrite app_nil_r. auto. Qed.

Lemma calls_all_percent (P : Op -> Prop) num den : calls_all P (percent num den : M Q).
Proof.
  unfold percent. destruct (den =? 0); [apply calls_all_raise | apply calls_all_ret].
Qed.

Lemma calls_all_lift {A} (P : Op -> Prop) (r : Res A) : calls_all P (lift r : M A).
Proof. intros s. exists []. simpl. rewrite app_nil_r. auto. Qed.

Lemma calls_all_strategy_loop (P : Op -> Prop) strategies :
  (forall name f, In (name, f) strategies -> calls_all P (run_strategy f)) ->
  forall target_faces i success,
    calls_all P (strategy_loop target_faces i strategies success).
Proof.
  induction strategies as [| [name f] rest IH]; intros Hall target_faces i success.
  - apply calls_all_ret.
  - assert (Hrest : forall tf j b, calls_all P (strategy_loop tf j rest b)).
    { apply IH. intros n g Hin. apply (Hall n g). right. exact Hin. }
    cbn [strategy_loop].
    apply calls_all_bind; [apply calls_all_print | intros _].
    apply calls_all_bind; [apply calls_all_gets | intros faces_before].
    apply calls_all_bind; [apply (Hall name f); left; reflexivity | intros ok].
    apply calls_all_bind; [apply calls_all_note | intros _].
    destruct ok; [| apply Hrest].
    apply calls_all_bind; [apply calls_all_gets | intros faces_after].
    apply calls_all_bind; [apply calls_all_percent | intros reduction].
    apply calls_all_bind; [apply calls_all_print | intros _].
    destruct (is_effective faces_before faces_after); [| apply Hrest].
    destruct (close_to_target target_faces faces_after); [| apply Hrest].
    apply calls_all_bind; [apply calls_all_print | intros _]. apply calls_all_ret.
Qed.

Lemma calls_all_smart_smooth (P : Op -> Prop) :
  Forall P smooth_steps -> calls_all P apply_smart_smooth.
Proof.
  intros Hall. unfold apply_smart_smooth, smart_smooth_body.
  assert (H : forall op, In op smooth_steps -> P op)
    by (apply Forall_forall; exact Hall).
  footprint ltac:(apply H; simpl; tauto).
Qed.

Lemma calls_all_analyze (P : Op -> Prop) : calls_all P analyze_mesh_quality.
Proof.
  unfold analyze_mesh_quality.
  footprint ltac:(fail). all: apply calls_all_print.
Qed.

Lemma calls_all_reduce (P : Op -> Prop) target_reduction :
  (forall mesh_type name f,
     In (name, f) (strategies mesh_type target_reduction) ->
     calls_all P (run_strategy f)) ->
  Forall P smooth_steps ->
  calls_all P (intelligent_mesh_reduction target_reduction).
Proof.
  intros Hstrategies Hsmooth. unfold intelligent_mesh_reduction.
  apply calls_all_bind; [apply calls_all_gets | intros valid].
  destruct (negb valid).
  { apply calls_all_bind; [apply calls_all_print | intros _]. apply calls_all_ret. }
  apply calls_all_bind; [apply calls_all_gets | intros original_faces].
  apply calls_all_bind; [apply calls_all_print | intros _].
  destruct (original_faces <? 100).
  { apply calls_all_bind; [apply calls_all_print | intros _]. apply calls_all_ret. }
  apply calls_all_bind; [apply calls_all_analyze | intros mesh_type].
  apply calls_all_bind; [apply calls_all_lift | intros target_faces].
  apply calls_all_bind; [apply calls_all_print | intros _].
  apply calls_all_bind;
    [apply calls_all_strategy_loop; apply Hstrategies | intros success].
  apply calls_all_bind.
  { destruct success; [| apply calls_all_ret].
    apply calls_all_bind; [apply calls_all_print | intros _].
    apply calls_all_bind; [apply calls_all_smart_smooth; exact Hsmooth | intros _].
    apply calls_all_ret. }
  intros _.
  apply calls_all_bind; [apply calls_all_gets | intros final_faces].
  apply calls_all_bind; [apply calls_all_percent | intros final_reduction].
  destruct (final_faces <? original_faces);
    (apply calls_all_bind; [apply calls_all_print | intros _]; apply calls_all_ret).
Qed.

Lemma strategy_ratio_at_least (f : Strategy) :
  calls_all (ratio_at_least 0.1) (run_strategy f).
Proof.
  induction f as [r p | n | a | r | f1 IH1 f2 IH2]; simpl.
  - apply quadric_ratio_at_least.
  - unfold try_unsubdiv_decimate, unsubdiv_body. footprint ltac:(not_ratio).
  - unfold try_planar_decimate, planar_body. footprint ltac:(not_ratio).
  - eapply calls_all_weaken; [| apply subsurf_ratio_within].
    intros op H q E. apply (H q E).
  - apply calls_all_bind; [exact IH1 | intros ok].
    destruct ok; [exact IH2 | apply calls_all_ret].
Qed.

(** X1. Whatever reduction is asked for (negative, above 1, any value), every
    collapse ratio that a run of [intelligent_mesh_reduction] sets on a
    decimate modifier is at least 0.1. *)
Theorem collapse_ratio_never_below_floor target_reduction (s : St) cs :
  calls (snd (intelligent_mesh_reduction target_reduction s)) = calls s ++ cs ->
  forall q raised, In (ModifierSet "ratio" (VNum q), raised) cs -> (0.1 <= q)%Q.
Proof.
  intros Hcs q raised Hin.
  destruct (calls_all_reduce (ratio_at_least 0.1) target_reduction) with (s := s)
    as (cs' & Hcs' & Hall).
  - intros mesh_type name f _. apply strategy_ratio_at_least.
  - unfold smooth_steps. repeat constructor; intros q' H; discriminate H.
  - rewrite Hcs in Hcs'. apply app_inv_head in Hcs'. subst cs'.
    rewrite Forall_forall in Hall. exact (Hall _ Hin q eq_refl).
Qed.

(** ** One iteration, by cases *)

Lemma loop_cases target_faces i name f rest success (s : St) :
  exists b s1,
    run_strategy f (put_msg (MsgStrategy i name) s) = (Ok b, s1) /\
    let a := attempt_record name (polygons (world s)) (polygons (world s1)) b in
    let run := strategy_loop target_faces i ((name, f) :: rest) success s in
    (attempts (snd run) = attempts s ++ [a] /\
     (fst run = Raise ZeroDivisionError \/
      (fst run = Ok true /\ stops target_faces a = true)))
    \/
    (exists s3,
       run = strategy_loop target_faces (S i) rest (success || effective a) s3 /\
       attempts s3 = attempts s ++ [a] /\
       world s3 = world s1 /\
       stops target_faces a = false).
Proof.
  destruct (strategy_loop_step target_faces i name f rest success s)
    as (b & s1 & cs & E & (_ & _ & Ha) & _ & _ & Heq).
  exists b, s1. split; [exact E |]. cbv zeta in Heq |- *. rewrite Heq. clear Heq.
  simpl in Ha. unfold stops. simpl.
  destruct b; simpl.
  - destruct (polygons (world s) =? 0).
    + left. simpl. rewrite Ha. auto.
    + destruct (is_effective (polygons (world s)) (polygons (world s1))).
      * destruct (close_to_target target_faces (polygons (world s1))).
        -- left. simpl. rewrite Ha. auto.
        -- right. eexists. rewrite orb_true_r.
           split; [reflexivity |]. simpl. rewrite Ha. auto.
      * right. eexists. rewrite orb_false_r.
        split; [reflexivity |]. simpl. rewrite Ha. auto.
  - right. eexists. rewrite orb_false_r.
    split; [reflexivity |]. simpl. rewrite Ha. auto.
Qed.

Lemma loop_extends target_faces i strategies success (s : St) :
  exists new,
    attempts (snd (strategy_loop target_faces i strategies success s))
      = attempts s ++ new.
Proof.
  destruct (strategy_loop_log strategies target_faces i success s)
    as (new & cs & out & Ha & _). exists new. exact Ha.
Qed.

(** The attempts of a run of the loop, split into the first one and the
    attempts of the rest of the run. *)
Lemma loop_split target_faces i name f rest success (s : St) new :
  attempts (snd (strategy_loop target_faces i ((name, f) :: rest) success s))
    = attempts s ++ new ->
  exists b s0 s1 new',
    world s0 = world s /\
    run_strategy f s0 = (Ok b, s1) /\
    new = attempt_record name (polygons (world s)) (polygons (world s1)) b :: new' /\
    ((new' = [] /\
      (fst (strategy_loop target_faces i ((name, f) :: rest) success s)
         = Raise ZeroDivisionError \/
       (fst (strategy_loop target_faces i ((name, f) :: rest) success s) = Ok true /\
        stops target_faces
          (attempt_record name (polygons (world s)) (polygons (world s1)) b) = true)))
     \/
     (exists success' s3,
        strategy_loop target_faces i ((name, f) :: rest) success s
          = strategy_loop target_faces (S i) rest success' s3 /\
        attempts (snd (strategy_loop target_faces (S i) rest success' s3))
          = attempts s3 ++ new' /\
        world s3 = world s1 /\
        stops target_faces
          (attempt_record name (polygons (world s)) (polygons (world s1)) b) = false)).
Proof.
  intros Hnew.
  destruct (loop_cases target_faces i name f rest success s) as (b & s1 & E & H).
  cbv zeta in H. exists b, (put_msg (MsgStrategy i name) s), s1.
  destruct H as [[Ha Hend] | (s3 & Heq & Ha & Hw & Hstop)].
  - exists []. split; [reflexivity |]. split; [exact E |].
    rewrite Ha in Hnew. apply app_inv_head in Hnew. split; [auto |]. left. auto.
  - destruct (loop_extends target_faces (S i) rest
                (success || effective
                   (attempt_record name (polygons (world s)) (polygons (world s1)) b))
                s3) as (new' & Hnew').
    exists new'. split; [reflexivity |]. split; [exact E |].
    rewrite Heq, Hnew', Ha, <- app_assoc in Hnew. apply app_inv_head in Hnew.
    split; [auto |]. right.
    exists (success || effective
              (attempt_record name (polygons (world s)) (polygons (world s1)) b)), s3.
    auto.
Qed.

Lemma loop_attempts_satisfy (R : string -> nat -> nat -> bool -> Prop) strategies :
  (forall name f, In (name, f) strategies ->
     forall (s : St) b s1, run_strategy f s = (Ok b, s1) ->
       R name (polygons (world s)) (polygons (world s1)) b) ->
  forall target_faces i success (s : St) new,
    attempts (snd (strategy_loop target_faces i strategies success s))
      = attempts s ++ new ->
    Forall (fun a => R (strategy_name a) (faces_before a) (faces_after a) (succeeded a))
           new.
Proof.
  induction strategies as [| [name f] rest IH]; intros Hall target_faces i success s new Hnew.
  - simpl in Hnew. apply app_self_nil in Hnew. subst. constructor.
  - destruct (loop_split _ _ _ _ _ _ _ _ Hnew)
      as (b & s0 & s1 & new' & Hw0 & E & -> & Hrest).
    constructor.
    + simpl. rewrite <- Hw0. apply (Hall name f (or_introl eq_refl) s0 b s1 E).
    + destruct Hrest as [[-> _] | (success' & s3 & _ & Hnew' & _)]; [constructor |].
      eapply IH; [| exact Hnew'].
      intros n g Hin. apply Hall. right. exact Hin.
Qed.

(** ** Relations kept along a computation *)

Section Steps.

Variable R : St -> St -> Prop.
Hypothesis R_refl : forall s, R s s.
Hypothesis R_trans : forall s1 s2 s3, R s1 s2 -> R s2 s3 -> R s1 s3.
Hypothesis R_msg : forall m s, R s (put_msg m s).
Hypothesis R_attempt : forall a s, R s (put_attempt a s).

Lemma steps_ret {A} (a : A) : steps R (ret a : M A).
Proof. intros s. apply R_refl. Qed.

Lemma steps_gets {A} (f : World -> A) : steps R (gets f : M A).
Proof. intros s. apply R_refl. Qed.

Lemma steps_raise {A} (e : Exn) : steps R (raise e : M A).
Proof. intros s. apply R_refl. Qed.

Lemma steps_print (m : Msg) : steps R (print m : M unit).
Proof. intros s. apply R_msg. Qed.

Lemma steps_note name faces_before ok :
  steps R (note_attempt name faces_before ok : M unit).
Proof. intros s. apply R_attempt. Qed.

Lemma steps_percent num den : steps R (percent num den : M Q).
Proof. unfold percent. destruct (den =? 0); [apply steps_raise | apply steps_ret]. Qed.

Lemma steps_bind {A B} (m : M A) (k : A -> M B) :
  steps R m -> (forall a, steps R (k a)) -> steps R (bind m k).
Proof.
  intros Hm Hk s. unfold bind. specialize (Hm s).
  destruct (m s) as [[a | e] s1]; simpl in *; [| exact Hm].
  eapply R_trans; [exact Hm | apply Hk].
Qed.

Lemma steps_try {A} (m : M A) (handler : Exn -> M A) :
  steps R m -> (forall e, steps R (handler e)) -> steps R (try_except m handler).
Proof.
  intros Hm Hh s. unfold try_except. specialize (Hm s).
  destruct (m s) as [[a | e] s1]; simpl in *; [exact Hm |].
  eapply R_trans; [exact Hm | apply Hh].
Qed.

Hypothesis R_call : forall op, steps R (call op).

Ltac stepping :=
  repeat first
    [ apply steps_ret | apply steps_gets | apply steps_raise | apply steps_print
    | apply steps_note | apply steps_percent | apply R_call
    | match goal with
      | |- steps _ (bind _ _) => apply steps_bind; [| intro]
      | |- steps _ (try_except _ _) => apply steps_try; [| intro]
      | |- steps _ (if ?c then _ else _) => destruct c
      end ].

Lemma steps_quadric target_reduction preserve_sharp :
  steps R (try_quadric_decimate target_reduction preserve_sharp).
Proof. unfold try_quadric_decimate, quadric_body. stepping. Qed.

Lemma steps_strategy (f : Strategy) : steps R (run_strategy f).
Proof.
  induction f as [r p | n | a | r | f1 IH1 f2 IH2]; simpl.
  - apply steps_quadric.
  - unfold try_unsubdiv_decimate, unsubdiv_body. stepping.
  - unfold try_planar_decimate, planar_body. stepping.
  - unfold apply_subdivision_surface_then_decimate, subsurf_body. stepping.
    cbv zeta. apply steps_quadric.
  - apply steps_bind; [exact IH1 | intros ok].
    destruct ok; [exact IH2 | apply steps_ret].
Qed.

Lemma steps_smart_smooth : steps R apply_smart_smooth.
Proof. unfold apply_smart_smooth, smart_smooth_body. stepping. Qed.

End Steps.

(** ** When the reduction returns *)

Section Returns.

Variable I : World -> Prop.
Hypothesis I_faces : forall w, I w -> 0 < polygons w.
Hypothesis I_exec : forall op w, I w -> I (snd (exec op w)).
Hypothesis I_mode : forall w, I w -> fst (exec (ModeSet "OBJECT") w) = false.

Lemma keeps_call (op : Op) : steps (keeps I) (call op).
Proof.
  intros s Hs. unfold call. specialize (I_exec op (world s) Hs).
  destruct (exec op (world s)) as [raised w]. exact I_exec.
Qed.

Lemma keeps_strategy (f : Strategy) : steps (keeps I) (run_strategy f).
Proof.
  apply steps_strategy; unfold keeps; auto. exact keeps_call.
Qed.

Lemma smart_smooth_returns (s : St) :
  I (world s) ->
  exists ok s', apply_smart_smooth s = (Ok ok, s') /\ I (world s').
Proof.
  intros Hs.
  assert (Hbody : steps (keeps I) smart_smooth_body).
  { unfold smart_smooth_body.
    repeat (apply steps_bind; unfold keeps; auto; [apply keeps_call | intros _]).
    apply steps_ret. unfold keeps. auto. }
  specialize (Hbody s Hs). unfold apply_smart_smooth, try_except.
  destruct (smart_smooth_body s) as [[ok | e] s1]; simpl in Hbody.
  - eauto.
  - unfold bind, call, ret. specialize (I_mode (world s1) Hbody).
    specialize (I_exec (ModeSet "OBJECT") (world s1) Hbody).
    destruct (exec (ModeSet "OBJECT") (world s1)) as [raised w]. simpl in *.
    subst raised. eexists _, _. split; [reflexivity | exact I_exec].
Qed.

Lemma strategy_loop_returns strategies :
  forall target_faces i success (s : St),
    I (world s) ->
    exists b s',
      strategy_loop target_faces i strategies success s = (Ok b, s') /\ I (world s').
Proof.
  induction strategies as [| [name f] rest IH]; intros target_faces i success s Hs.
  - exists success, s. auto.
  - destruct (strategy_loop_step target_faces i name f rest success s)
      as (b & s1 & cs & E & _ & _ & _ & Heq).
    pose proof (keeps_strategy f (put_msg (MsgStrategy i name) s) Hs) as Hs1.
    rewrite E in Hs1. simpl in Hs1.
    cbv zeta in Heq. rewrite Heq. clear Heq.
    destruct b; [| apply IH; exact Hs1].
    destruct (Nat.eqb_spec (polygons (world s)) 0) as [E0 | _].
    { specialize (I_faces _ Hs). lia. }
    destruct (is_effective (polygons (world s)) (polygons (world s1)));
      [| apply IH; exact Hs1].
    destruct (close_to_target target_faces (polygons (world s1)));
      [| apply IH; exact Hs1].
    eexists _, _. split; [reflexivity | exact Hs1].
Qed.


End Returns.

(** ** The attempts of a whole run *)

Lemma reduce_attempts_cases target_reduction (s : St) new :
  attempts (snd (intelligent_mesh_reduction target_reduction s)) = attempts s ++ new ->
  new = [] \/
  (is_valid_obj (world s) = true /\ 100 <= polygons (world s) /\
   exists target_faces,
     target_faces_of (polygons (world s)) target_reduction = Ok target_faces /\
     attempts (snd (strategy_loop target_faces 1
                      (strategies (category (world s)) target_reduction) false
                      (loop_entry s)))
       = attempts (loop_entry s) ++ new).
Proof.
  intros Hnew. destruct (is_valid_obj (world s)) eqn:Hv.
  - destruct (Nat.lt_ge_cases (polygons (world s)) 100) as [Hsmall | Hlarge].
    + rewrite reduce_small in Hnew by assumption. simpl in Hnew.
      left. eapply app_self_nil. exact Hnew.
    + destruct (target_faces_of (polygons (world s)) target_reduction)
        as [target_faces | e0] eqn:Et.
      * right. split; [reflexivity |]. split; [exact Hlarge |].
        exists target_faces. split; [reflexivity |].
        rewrite (reduce_large _ _ target_faces) in Hnew by assumption.
        unfold bind at 1 in Hnew.
        destruct (strategy_loop _ _ _ _ _) as [[success | e] s1]; simpl.
        -- rewrite after_loop_attempts in Hnew. exact Hnew.
        -- exact Hnew.
      * rewrite (reduce_no_target _ _ e0) in Hnew by assumption. simpl in Hnew.
        left. eapply app_self_nil. exact Hnew.
  - rewrite reduce_invalid in Hnew by assumption. simpl in Hnew.
    left. eapply app_self_nil. exact Hnew.
Qed.

Lemma loop_names strategies :
  forall target_faces i success (s : St) new,
    attempts (snd (strategy_loop target_faces i strategies success s))
      = attempts s ++ new ->
    map strategy_name new = firstn (List.length new) (map fst strategies) /\
    List.length new <= List.length strategies /\
    ((exists b, fst (strategy_loop target_faces i strategies success s) = Ok b) ->
     Forall (fun a => stops target_faces a = false) new ->
     List.length new = List.length strategies).
Proof.
  induction strategies as [| [name f] rest IH]; intros target_faces i success s new Hnew.
  - simpl in Hnew. apply app_self_nil in Hnew. subst. simpl. auto.
  - destruct (loop_split _ _ _ _ _ _ _ _ Hnew)
      as (b & s0 & s1 & new' & _ & _ & -> & Hrest).
    remember (strategy_loop target_faces i ((name, f) :: rest) success s) as run
      eqn:Erun in *. clear Erun Hnew.
    destruct Hrest as [[-> Hend] | (success' & s3 & Heq & Hnew' & _ & Hstop)].
    + split; [reflexivity |]. split; [simpl; lia |].
      intros [b' Hb'] Hall. exfalso.
      destruct Hend as [Hraise | [_ Hstops]].
      * rewrite Hraise in Hb'. discriminate.
      * inversion Hall as [| ? ? Hfalse _]. subst. congruence.
    + destruct (IH target_faces (S i) success' s3 new' Hnew') as (Hn & Hl & Hc).
      split; [simpl; rewrite Hn; reflexivity |]. split; [simpl; lia |].
      intros Hok Hall. simpl. f_equal. apply Hc.
      * rewrite <- Heq. exact Hok.
      * inversion Hall. assumption.
Qed.

Lemma catalog_length mesh_type target_reduction :
  List.length (strategies mesh_type target_reduction) = 4.
Proof.
  unfold strategies. destruct (String.eqb mesh_type "structured");
    [| destruct (String.eqb mesh_type "dense")]; reflexivity.
Qed.

(** X4. The attempts of a run of [intelligent_mesh_reduction] follow the
    catalog of the mesh's category: their names are the first names of that
    list, in order, so there are at most four.  Each attempt starts from the
    face count the previous one left, the first from the original count.
    When the call returns and no attempt was both effective and within the
    band of the target that the code computes, all four strategies were
    tried. *)
Theorem attempts_follow_catalog target_reduction (s : St) new :
  attempts (snd (intelligent_mesh_reduction target_reduction s)) = attempts s ++ new ->
  map strategy_name new =
    firstn (List.length new)
      (map fst (strategies (category (world s)) target_reduction)) /\
  List.length new <= 4 /\
  chained (polygons (world s)) new /\
  (forall target_faces,
     target_faces_of (polygons (world s)) target_reduction = Ok target_faces ->
     new <> [] ->
     (exists b, fst (intelligent_mesh_reduction target_reduction s) = Ok b) ->
     Forall (fun a => stops target_faces a = false) new ->
     List.length new = 4).
Proof.
  intros Hnew.
  destruct (reduce_attempts_cases target_reduction s new Hnew)
    as [-> | (Hv & Hlarge & target_faces & Htarget & Hloop)].
  - simpl. repeat split; auto; try lia. intros t _ H. contradiction.
  - destruct (loop_names _ _ _ _ _ _ Hloop) as (Hn & Hl & Hc).
    rewrite catalog_length in Hl, Hc.
    split; [exact Hn |]. split; [exact Hl |]. split.
    + destruct (strategy_loop_log (strategies (category (world s)) target_reduction)
                  target_faces 1 false (loop_entry s))
        as (new0 & cs & out & Ha & _ & _ & _ & _ & _ & Hch & _).
      rewrite Hloop in Ha. apply app_inv_head in Ha. subst new0. exact Hch.
    + intros t Ht _ [b Hb] Hall.
      rewrite Htarget in Ht. injection Ht as <-.
      apply Hc; [| exact Hall].
      rewrite (reduce_large _ _ target_faces) in Hb by assumption.
      unfold bind at 1 in Hb.
      destruct (strategy_loop _ _ _ _ _) as [[success | e] s1]; simpl in Hb |- *.
      * eauto.
      * discriminate.
Qed.

(** ** The post-processor *)

Lemma after_loop_stdout original_faces success (s1 : St) :
  exists tail,
    stdout (snd (after_loop original_faces success s1))
      = stdout s1 ++ (if success then [MsgPostProcess] else []) ++ tail /\
    ~ In MsgPostProcess tail /\
    (forall e, fst (after_loop original_faces success s1) = Raise e ->
               e <> ZeroDivisionError -> success = true).
Proof.
  unfold after_loop. unfold bind at 1.
  assert (H : forall s2 : St, exists tail,
            stdout (snd ((final_faces <- gets polygons ;;
              final_reduction <-
                percent (Z.of_nat original_faces - Z.of_nat final_faces) original_faces ;;
              if final_faces <? original_faces
              then print (MsgReduced original_faces final_faces final_reduction) ;; ret true
              else print MsgUnchanged ;; ret false) s2)) = stdout s2 ++ tail /\
            ~ In MsgPostProcess tail /\
            (forall e, fst ((final_faces <- gets polygons ;;
              final_reduction <-
                percent (Z.of_nat original_faces - Z.of_nat final_faces) original_faces ;;
              if final_faces <? original_faces
              then print (MsgReduced original_faces final_faces final_reduction) ;; ret true
              else print MsgUnchanged ;; ret false) s2) = Raise e ->
              e = ZeroDivisionError)).
  { intros s2. unfold bind, gets, percent, raise, ret, print.
    destruct (original_faces =? 0).
    - exists []. simpl. rewrite app_nil_r. repeat split; auto.
      intros e H. injection H as <-. reflexivity.
    - destruct (polygons (world s2) <? original_faces); simpl;
        eexists [_]; (split; [reflexivity |]);
        (split; [intros [H | []]; discriminate | intros e H; discriminate]). }
  destruct success.
  - unfold bind at 1. unfold print at 1. unfold bind at 1.
    pose proof (smart_smooth_stdout (put_msg MsgPostProcess s1)) as Hs.
    destruct (apply_smart_smooth (put_msg MsgPostProcess s1)) as [[ok | e] s2];
      simpl in Hs.
    + unfold ret at 1. destruct (H s2) as (tail & Ht & Hn & _).
      exists tail. rewrite Ht, Hs, <- app_assoc. auto.
    + exists []. simpl. rewrite Hs. auto.
  - unfold ret at 1. destruct (H s1) as (tail & Ht & Hn & He).
    exists tail. simpl. split; [exact Ht |]. split; [exact Hn |].
    intros e Hraise Hne. exfalso. apply Hne. apply He. exact Hraise.
Qed.


(** X7. [apply_smart_smooth] runs its nine engine calls in order and stops at
    the first one that raises.  It returns [True] only when all nine went
    through.  After a failure it makes exactly one more call, the switch back
    to object mode, and returns [False]; if that call raises too, its error
    is the one that leaves the function. *)
Theorem smart_smooth_stops_at_first_failure (s : St) :
  exists cs,
    calls (snd (apply_smart_smooth s)) = calls s ++ cs /\
    ((fst (apply_smart_smooth s) = Ok true /\ cs = went_through smooth_steps) \/
     exists k failed recovery_raised,
       nth_error smooth_steps k = Some failed /\
       cs = went_through (firstn k smooth_steps)
              ++ [(failed, true); (ModeSet "OBJECT", recovery_raised)] /\
       fst (apply_smart_smooth s) =
         if recovery_raised then Raise (EngineError (ModeSet "OBJECT"))
         else Ok false).
Proof.
  unfold apply_smart_smooth, try_except, smart_smooth_body, bind, call, ret. simpl.
  repeat match goal with
         | |- context [exec ?op ?w] => destruct (exec op w) as [[|] ?]; simpl
         end;
    rewrite <- ?app_assoc; simpl;
    (eexists; split; [reflexivity |]);
    first [ left; split; reflexivity
          | right; exists 0; eexists _, _; repeat split; reflexivity
          | right; exists 1; eexists _, _; repeat split; reflexivity
          | right; exists 2; eexists _, _; repeat split; reflexivity
          | right; exists 3; eexists _, _; repeat split; reflexivity
          | right; exists 4; eexists _, _; repeat split; reflexivity
          | right; exists 5; eexists _, _; repeat split; reflexivity
          | right; exists 6; eexists _, _; repeat split; reflexivity
          | right; exists 7; eexists _, _; repeat split; reflexivity
          | right; exists 8; eexists _, _; repeat split; reflexivity ].
Qed.

(** ** The thresholds, in whole numbers *)

Lemma Qlt_ratio (c : Z) (d : positive) (n f : nat) :
  0 < f ->
  ((c # d) < Qnat n / Qnat f)%Q <-> (c * Z.of_nat f < Z.pos d * Z.of_nat n)%Z.
Proof.
  intros Hf. destruct f as [| f']; [lia |].
  unfold Qlt, Qdiv, Qmult, Qinv, Qnat, inject_Z. cbn [Qnum Qden].
  rewrite Nat2Z.inj_succ.
  replace (Z.succ (Z.of_nat f')) with (Z.pos (Pos.of_succ_nat f')) by lia.
  cbn [Qnum Qden]. lia.
Qed.

Lemma quads_at_most_faces (l : list nat) :
  List.length (filter (Nat.eqb 4) l) <= List.length l.
Proof.
  induction l as [| x l IH]; cbn [filter List.length]; [lia |].
  destruct (4 =? x); cbn [List.length]; lia.
Qed.

Lemma valid_has_faces (w : World) :
  is_valid_obj w = true <-> obj_type w = Some "MESH" /\ 0 < polygons w.
Proof.
  unfold is_valid_obj. destruct (obj_type w) as [t |].
  - rewrite andb_true_iff, String.eqb_eq, Nat.ltb_lt.
    split; [intros [-> H]; auto | intros [H1 H2]; injection H1 as ->; auto].
  - split; [discriminate | intros [H _]; discriminate].
Qed.

(** X8. For a valid mesh with [quads] four-sided faces among [faces] faces and
    [verts] vertices, [analyze_mesh_quality] answers "structured" exactly
    when 10 * quads > 7 * faces; "dense" exactly when that fails and
    5 * verts > 4 * faces; "organic" exactly when both fail.  The quad ratio
    it reports lies between 0 and 1; the vertex-to-face ratio is not bounded
    by 1. *)
Theorem classification_by_counts (s : St) :
  is_valid_obj (world s) = true ->
  let quads := List.length (filter (Nat.eqb 4) (face_verts (world s))) in
  let faces := polygons (world s) in
  let verts := vert_count (world s) in
  (fst (analyze_mesh_quality s) = Ok "structured" <-> 7 * faces < 10 * quads) /\
  (fst (analyze_mesh_quality s) = Ok "dense" <->
   10 * quads <= 7 * faces /\ 4 * faces < 5 * verts) /\
  (fst (analyze_mesh_quality s) = Ok "organic" <->
   10 * quads <= 7 * faces /\ 5 * verts <= 4 * faces) /\
  (0 <= quad_ratio (mesh_metrics (world s)))%Q /\
  (quad_ratio (mesh_metrics (world s)) <= 1)%Q.
Proof.
  intros Hv. cbv zeta.
  assert (Hpos : 0 < polygons (world s)) by (apply valid_has_faces in Hv; tauto).
  assert (Hltb : (0 <? polygons (world s)) = true) by (apply Nat.ltb_lt; exact Hpos).
  pose proof (quads_at_most_faces (face_verts (world s))) as Hq.
  fold (polygons (world s)) in Hq.
  rewrite analyze_valid by exact Hv. cbn [fst]. unfold category. cbv zeta.
  unfold mesh_metrics. cbn [quad_ratio vert_face_ratio]. rewrite Hltb.
  set (quads := List.length (filter (Nat.eqb 4) (face_verts (world s)))) in *.
  assert (H7 : Qltb 0.7 (Qnat quads / Qnat (polygons (world s))) = true <->
               7 * polygons (world s) < 10 * quads).
  { rewrite Qltb_lt. change 0.7%Q with (7 # 10). rewrite Qlt_ratio by exact Hpos. lia. }
  assert (H8 : Qltb 0.8 (Qnat (vert_count (world s)) / Qnat (polygons (world s))) = true
               <-> 4 * polygons (world s) < 5 * vert_count (world s)).
  { rewrite Qltb_lt. change 0.8%Q with (8 # 10). rewrite Qlt_ratio by exact Hpos. lia. }
  destruct (Qltb 0.7 (Qnat quads / Qnat (polygons (world s))));
    destruct (Qltb 0.8 (Qnat (vert_count (world s)) / Qnat (polygons (world s))));
    (split; [| split; [| split; [| split]]]);
    try (split; [intros H; try discriminate H | intros H]);
    try (assert (7 * polygons (world s) < 10 * quads) by (apply H7; reflexivity));
    try (assert (4 * polygons (world s) < 5 * vert_count (world s))
           by (apply H8; reflexivity));
    try (assert (~ 7 * polygons (world s) < 10 * quads)
           by (intros Hc; apply H7 in Hc; discriminate));
    try (assert (~ 4 * polygons (world s) < 5 * vert_count (world s))
           by (intros Hc; apply H8 in Hc; discriminate));
    try reflexivity; try lia.
  all: destruct (polygons (world s)) as [| f']; try lia;
       unfold Qle, Qdiv, Qmult, Qinv, Qnat, inject_Z; cbn [Qnum Qden];
       rewrite Nat2Z.inj_succ in *;
       replace (Z.succ (Z.of_nat f')) with (Z.pos (Pos.of_succ_nat f')) by lia;
       cbn [Qnum Qden]; lia.
Qed.

(** X11. [intelligent_mesh_reduction] refuses the objects that are not a
    mesh or have no polygon: for those it returns [False] at once,
    prints the one "invalid" line, makes no engine call and no attempt, and
    [analyze_mesh_quality] answers "unknown". *)
Theorem invalid_object_is_refused target_reduction (s : St) :
  obj_type (world s) <> Some "MESH" \/ polygons (world s) = 0 ->
  intelligent_mesh_reduction target_reduction s = (Ok false, put_msg MsgInvalid s) /\
  analyze_mesh_quality s = (Ok "unknown", s).
Proof.
  intros H.
  assert (Hv : is_valid_obj (world s) = false).
  { apply not_true_is_false. intros Hv. apply valid_has_faces in Hv.
    destruct Hv as [Ht Hp]. destruct H as [H | H]; [contradiction | lia]. }
  split; [apply reduce_invalid | apply analyze_invalid]; exact Hv.
Qed.

(** ** What a [True] from a primitive means *)

Section Frame.

(** Only applying a modifier changes the number of polygons. *)
Hypothesis frame :
  forall op w, (forall name, op <> ModifierApply name) ->
               polygons (snd (exec op w)) = polygons w.

Ltac frame_step :=
  match goal with
  | |- context [exec ?op ?w] =>
      first [ let F := fresh "F" in
              assert (F := frame op w ltac:(intros ? H; discriminate H));
              destruct (exec op w) as [[|] ?]; cbn [snd] in F
            | destruct (exec op w) as [[|] ?] ];
      cbn [fst snd world put_call]
  end.

Ltac frame_run :=
  unfold try_except, bind, call, gets, ret;
  cbn [fst snd world put_call];
  repeat (frame_step; try discriminate).

Lemma unsubdiv_true_fewer iterations (s : St) s' :
  try_unsubdiv_decimate iterations s = (Ok true, s') ->
  polygons (world s') < polygons (world s).
Proof.
  unfold try_unsubdiv_decimate, unsubdiv_body. frame_run.
  intros H. injection H as H <-. cbn [world put_call].
  apply Nat.ltb_lt in H. congruence.
Qed.

Lemma planar_true_fewer angle_threshold (s : St) s' :
  try_planar_decimate angle_threshold s = (Ok true, s') ->
  polygons (world s') < polygons (world s).
Proof.
  unfold try_planar_decimate, planar_body. frame_run.
  intros H. injection H as H <-. cbn [world put_call].
  apply Nat.ltb_lt in H. congruence.
Qed.

Lemma quadric_true_fewer target_reduction preserve_sharp (s : St) s' :
  try_quadric_decimate target_reduction preserve_sharp s = (Ok true, s') ->
  polygons (world s') < polygons (world s).
Proof.
  unfold try_quadric_decimate, quadric_body. frame_run.
  match goal with |- context [?n <? 4] => destruct (n <? 4) end;
    [discriminate |].
  destruct preserve_sharp; frame_run;
    (intros H; injection H as H <-; cbn [world put_call];
     apply Nat.ltb_lt in H; congruence).
Qed.

Lemma plain_true_fewer (f : Strategy) :
  plain f = true ->
  forall (s : St) s',
    run_strategy f s = (Ok true, s') ->
    polygons (world s') < polygons (world s).
Proof.
  induction f as [r p | n | a | r | f1 IH1 f2 IH2]; simpl; intros Hplain s s' Hrun.
  - eapply quadric_true_fewer; eauto.
  - eapply unsubdiv_true_fewer; eauto.
  - eapply planar_true_fewer; eauto.
  - discriminate.
  - apply andb_true_iff in Hplain. destruct Hplain as [H1 H2].
    unfold bind in Hrun.
    destruct (run_strategy f1 s) as [[[|] | e] s1] eqn:E1; try discriminate.
    specialize (IH1 H1 s s1 E1). specialize (IH2 H2 s1 s' Hrun). lia.
Qed.

(** X2. On an engine where only applying a modifier changes the number of
    polygons, a strategy made of collapses, un-subdivisions and planar
    dissolves that returns [True] has left strictly fewer faces than it
    found. *)
Theorem plain_strategy_true_means_fewer_faces (f : Strategy) (s : St) s' :
  plain f = true ->
  run_strategy f s = (Ok true, s') ->
  polygons (world s') < polygons (world s).
Proof. intros Hplain. apply plain_true_fewer. exact Hplain. Qed.

Lemma catalog_plain_or_subsurf mesh_type target_reduction name f :
  In (name, f) (strategies mesh_type target_reduction) ->
  plain f = true \/ name = "SubSurf + Decimate".
Proof.
  unfold strategies.
  destruct (String.eqb mesh_type "structured");
    [| destruct (String.eqb mesh_type "dense")];
    simpl; intros H;
    repeat (destruct H as [H | H]; [injection H as <- <-; auto |]);
    destruct H.
Qed.

(** X3. On such an engine, in any run of [intelligent_mesh_reduction], every
    attempt whose strategy returned [True] ends with strictly fewer faces
    than it started with, except possibly the subdivide-then-collapse
    strategy, which compares against the subdivided mesh. *)
Theorem succeeded_attempts_lose_faces target_reduction (s : St) new :
  attempts (snd (intelligent_mesh_reduction target_reduction s)) = attempts s ++ new ->
  forall a, In a new ->
    succeeded a = true -> strategy_name a <> "SubSurf + Decimate" ->
    faces_after a < faces_before a.
Proof.
  intros Hnew.
  destruct (reduce_attempts_cases target_reduction s new Hnew)
    as [-> | (_ & _ & target_faces & _ & Hloop)]; [intros a [] |].
  assert (H : Forall (fun a => succeeded a = true ->
                              strategy_name a <> "SubSurf + Decimate" ->
                              faces_after a < faces_before a) new).
  { eapply (loop_attempts_satisfy
              (fun name before after b =>
                 b = true -> name <> "SubSurf + Decimate" -> after < before));
      [| exact Hloop].
    intros name f Hin s0 b s1 Hrun -> Hname.
    destruct (catalog_plain_or_subsurf _ _ _ _ Hin) as [Hplain | ->];
      [| contradiction].
    eapply plain_true_fewer; eauto. }
  rewrite Forall_forall in H. exact H.
Qed.

End Frame.

End ControllerFacts.

(** ** Numbers of the controller *)

(** ** The target, rounded *)

Lemma targets_near_floor_spec (first count : nat) :
  targets_near_floor first count = true ->
  forall original_faces k,
    first <= original_faces < first + count -> k <= 100 ->
    exists target_faces,
      target_faces_of original_faces (hundredth k) = Ok target_faces /\
      (target_faces = floor_target original_faces k \/
       target_faces = (floor_target original_faces k - 1)%Z) /\
      (0 <= target_faces <= Z.of_nat original_faces)%Z.
Proof.
  intros H original_faces k Hn Hk.
  unfold targets_near_floor in H. cbv zeta in H. rewrite forallb_forall in H.
  specialize (H original_faces). rewrite in_seq in H. specialize (H Hn).
  unfold target_faces_of.
  destruct (float_of_int (Z.of_nat original_faces)) as [faces | e]; [| discriminate H].
  rewrite forallb_forall in H.
  specialize (H (k, fsub (float_of_Z 1) (float_of_Q (hundredth k)))).
  assert (Hin : In (k, fsub (float_of_Z 1) (float_of_Q (hundredth k)))
                   (map (fun k => (k, fsub (float_of_Z 1) (float_of_Q (hundredth k))))
                        (seq 0 101))).
  { apply in_map_iff. exists k. split; [reflexivity |]. apply in_seq. lia. }
  specialize (H Hin). cbn [fst snd] in H. unfold target_near_floor in H.
  destruct (int_of_float _) as [t | e]; [| discriminate H].
  apply andb_true_iff in H. destruct H as [H Hle].
  apply andb_true_iff in H. destruct H as [Hfloor H0].
  apply orb_true_iff in Hfloor. rewrite !Z.eqb_eq in Hfloor.
  apply Z.leb_le in H0, Hle.
  exists t. auto.
Qed.

Lemma targets_checked : targets_near_floor 100 901 = true.
Proof. vm_compute. reflexivity. Qed.


Lemma Qle_scaled (c : Z) (d : positive) (x : Z) (n : nat) :
  (inject_Z x * (c # d) <= Qnat n)%Q <-> (c * x <= Z.pos d * Z.of_nat n)%Z.
Proof. unfold Qle, Qmult, Qnat, inject_Z. cbn [Qnum Qden]. lia. Qed.

Lemma Qge_scaled (c : Z) (d : positive) (x : Z) (n : nat) :
  (Qnat n <= inject_Z x * (c # d))%Q <-> (Z.pos d * Z.of_nat n <= c * x)%Z.
Proof. unfold Qle, Qmult, Qnat, inject_Z. cbn [Qnum Qden]. lia. Qed.

(** X10. The two tests of the strategy loop, in whole numbers: an attempt is
    effective exactly when 20 * faces_after < 19 * faces_before, so a cut of
    exactly 5% does not count and an effective attempt has removed at least
    one face; the face count is close to the target exactly when
    7 * target_faces <= 10 * faces_after <= 13 * target_faces, which no face
    count is for a negative target. *)
Theorem loop_tests_in_whole_numbers (faces_before faces_after : nat) (target_faces : Z) :
  (is_effective faces_before faces_after = true <->
   20 * faces_after < 19 * faces_before) /\
  (is_effective faces_before faces_after = true -> faces_after < faces_before) /\
  (close_to_target target_faces faces_after = true <->
   (7 * target_faces <= 10 * Z.of_nat faces_after)%Z /\
   (10 * Z.of_nat faces_after <= 13 * target_faces)%Z) /\
  (close_to_target target_faces faces_after = true -> (0 <= target_faces)%Z).
Proof.
  assert (Heff : is_effective faces_before faces_after = true <->
                 20 * faces_after < 19 * faces_before).
  { unfold is_effective, Qltb. rewrite negb_true_iff.
    rewrite <- not_true_iff_false, Qle_bool_iff.
    unfold Qle, Qmult, Qnat, inject_Z. cbn [Qnum Qden]. lia. }
  assert (Hclose : close_to_target target_faces faces_after = true <->
                   (7 * target_faces <= 10 * Z.of_nat faces_after)%Z /\
                   (10 * Z.of_nat faces_after <= 13 * target_faces)%Z).
  { unfold close_to_target. rewrite andb_true_iff, !Qle_bool_iff.
    change 0.7%Q with (7 # 10). change 1.3%Q with (13 # 10).
    rewrite Qle_scaled, Qge_scaled. lia. }
  split; [exact Heff |]. split; [rewrite Heff; lia |].
  split; [exact Hclose |]. rewrite Hclose. lia.
Qed.

(** * Further properties of the driver *)

Section DriverFacts.

Variable float_of_string : string -> option PyFloat.
Variable Batch : Type.
Variable output_dir_exists : Batch -> bool.
Variable makedirs : Batch -> bool * Batch.
Variable glob_obj_files : Batch -> list string.
Variable process_obj_file : string -> PyFloat -> Batch -> option bool * Batch.
Variable export_obj_file : string -> Batch -> bool * Batch.

Lemma last_cons {A} (x d : A) (l : list A) : last (x :: l) d = last l x.
Proof.
  revert x d. induction l as [| y l IH]; intros x d; [reflexivity |].
  change (last (x :: y :: l) d) with (last (y :: l) d).
  rewrite (IH y d). symmetry. apply IH.
Qed.

Lemma parse_loop_spec argv :
  forall TARGET_REDUCTION out,
    parse_loop float_of_string argv TARGET_REDUCTION out =
      (last (parsed_values float_of_string (flag_values argv)) TARGET_REDUCTION,
       out ++ map (flag_line float_of_string) (flag_values argv)).
Proof.
  induction argv as [| arg rest IH]; intros cur out.
  - simpl. rewrite app_nil_r. reflexivity.
  - cbn [parse_loop flag_values]. destruct (is_flag arg); [| apply IH].
    destruct rest as [| value rest'].
    + simpl. rewrite app_nil_r. reflexivity.
    + cbn [parsed_values map]. unfold flag_line at 1.
      destruct (float_of_string value) as [v |]; rewrite IH, <- app_assoc.
      * rewrite last_cons. reflexivity.
      * reflexivity.
Qed.

(** X12. [parse_arguments] returns the value of the last occurrence of the
    flag whose argument parses as a float, and the default 0.5 when there is
    none; it prints one line per occurrence that has an argument, in order.
    An argument that does not parse is skipped: it does not reset an earlier
    value to the default. *)
Theorem last_parsable_flag_wins (argv : list string) :
  parse_arguments float_of_string argv =
    (last (parsed_values float_of_string (flag_values argv)) (Finite 0.5),
     map (flag_line float_of_string) (flag_values argv)).
Proof. unfold parse_arguments. rewrite parse_loop_spec. reflexivity. Qed.

Lemma process_files_tally files :
  forall n i TARGET_REDUCTION k b,
    let result :=
      process_files Batch process_obj_file export_obj_file n i files
        TARGET_REDUCTION k b in
    List.length (snd (fst result)) = List.length files /\
    fst (fst result) = k + List.length (ok_lines (snd (fst result))).
Proof.
  induction files as [| filepath rest IH]; intros n i tr k b; cbv zeta.
  - simpl. auto.
  - cbn [process_files].
    destruct (process_obj_file filepath tr b) as [[[|] |] b1].
    + destruct (export_obj_file filepath b1) as [[|] b2].
      * specialize (IH n (S i) tr (S k) b2). cbv zeta in IH.
        destruct (process_files _ _ _ n (S i) rest tr (S k) b2) as [[k' out] b'].
        simpl in *. destruct IH as [-> ->]. split; lia.
      * specialize (IH n (S i) tr k b2). cbv zeta in IH.
        destruct (process_files _ _ _ n (S i) rest tr k b2) as [[k' out] b'].
        simpl in *. destruct IH as [-> ->]. split; lia.
    + specialize (IH n (S i) tr k b1). cbv zeta in IH.
      destruct (process_files _ _ _ n (S i) rest tr k b1) as [[k' out] b'].
      simpl in *. destruct IH as [-> ->]. split; lia.
    + specialize (IH n (S i) tr k b1). cbv zeta in IH.
      destruct (process_files _ _ _ n (S i) rest tr k b1) as [[k' out] b'].
      simpl in *. destruct IH as [-> ->]. split; lia.
Qed.

Lemma ok_lines_length (lines : list DriverMsg) :
  List.length (ok_lines lines) <= List.length lines.
Proof.
  unfold ok_lines. induction lines as [| m lines IH]; cbn [filter List.length]; [lia |].
  destruct m; cbn [List.length]; lia.
Qed.

(** X13. With a reduction inside [0, 1], [main] prints the banner and makes
    sure the output directory exists.  When [os.makedirs] raises, its error
    leaves [main] and no file is looked for.  Otherwise, on an empty input
    directory [main] prints the "no files" line and changes nothing else;
    on a directory with files it prints, after the file count, exactly one
    line per input file, whatever failed or raised along the way, and a
    summary whose success count is the number of "processed and exported"
    lines, hence at most the number of files. *)
Theorem batch_reports_every_file (argv : list string) (b : Batch) :
  let TARGET_REDUCTION := fst (parse_arguments float_of_string argv) in
  let out := snd (parse_arguments float_of_string argv) in
  let raised := fst (ensure_output_dir Batch output_dir_exists makedirs b) in
  let b1 := snd (ensure_output_dir Batch output_dir_exists makedirs b) in
  let n := List.length (glob_obj_files b1) in
  in_unit_range TARGET_REDUCTION = true ->
  (raised = true ->
   main float_of_string Batch output_dir_exists makedirs glob_obj_files
        process_obj_file export_obj_file argv b
     = (MakedirsRaised, out ++ [MsgBanner TARGET_REDUCTION], b1)) /\
  (raised = false -> glob_obj_files b1 = [] ->
   main float_of_string Batch output_dir_exists makedirs glob_obj_files
        process_obj_file export_obj_file argv b
     = (Returned, out ++ [MsgBanner TARGET_REDUCTION; MsgNoFiles], b1)) /\
  (raised = false -> glob_obj_files b1 <> [] ->
   exists lines successful_files,
     fst (main float_of_string Batch output_dir_exists makedirs glob_obj_files
            process_obj_file export_obj_file argv b)
       = (Returned,
          out ++ MsgBanner TARGET_REDUCTION :: MsgFound n :: lines
              ++ [MsgSummary successful_files n]) /\
     List.length lines = n /\
     successful_files = List.length (ok_lines lines) /\
     successful_files <= n).
Proof.
  cbv zeta. intros Hrange. unfold main.
  destruct (parse_arguments float_of_string argv) as [tr out]. cbn [fst snd] in *.
  rewrite Hrange. cbn [negb]. unfold run_batch.
  destruct (ensure_output_dir Batch output_dir_exists makedirs b) as [raised b1].
  cbn [fst snd]. split; [| split].
  - intros ->. reflexivity.
  - intros -> ->. reflexivity.
  - intros -> Hfiles.
    destruct (glob_obj_files b1) as [| f files] eqn:E; [contradiction |].
    pose proof (process_files_tally (f :: files) (List.length (f :: files)) 1 tr 0 b1)
      as H. cbv zeta in H.
    destruct (process_files _ _ _ _ 1 (f :: files) tr 0 b1) as [[k lines] b'].
    cbn [fst snd] in *. destruct H as [Hlen Hk]. simpl in Hk.
    exists lines, k. split; [reflexivity |]. split; [exact Hlen |].
    split; [exact Hk |]. rewrite Hk, <- Hlen. apply ok_lines_length.
Qed.

Lemma process_files_without_success files :
  forall n i TARGET_REDUCTION k b,
    (forall done filepath rest,
       files = done ++ filepath :: rest ->
       fst (process_obj_file filepath TARGET_REDUCTION
              (fold_left (fun b0 f => snd (process_obj_file f TARGET_REDUCTION b0))
                         done b))
         <> Some true) ->
    let result :=
      process_files Batch process_obj_file export_obj_file n i files
        TARGET_REDUCTION k b in
    fst (fst result) = k /\
    snd result =
      fold_left (fun b0 f => snd (process_obj_file f TARGET_REDUCTION b0)) files b.
Proof.
  induction files as [| filepath rest IH]; intros n i tr k b Hnone; cbv zeta.
  - simpl. auto.
  - cbn [process_files fold_left].
    pose proof (Hnone [] filepath rest eq_refl) as Hhere. cbn [fold_left] in Hhere.
    assert (Hrest : forall done f rest',
              rest = done ++ f :: rest' ->
              fst (process_obj_file f tr
                     (fold_left (fun b0 f0 => snd (process_obj_file f0 tr b0)) done
                        (snd (process_obj_file filepath tr b))))
                <> Some true).
    { intros done f rest' E. apply (Hnone (filepath :: done) f rest').
      rewrite E. reflexivity. }
    destruct (process_obj_file filepath tr b) as [[[|] |] b1]; cbn [fst snd] in *.
    + contradiction Hhere. reflexivity.
    + specialize (IH n (S i) tr k b1 Hrest). cbv zeta in IH.
      destruct (process_files _ _ _ n (S i) rest tr k b1) as [[k' out] b'].
      exact IH.
    + specialize (IH n (S i) tr k b1 Hrest). cbv zeta in IH.
      destruct (process_files _ _ _ n (S i) rest tr k b1) as [[k' out] b'].
      exact IH.
Qed.

(** X14. Take a batch in which no call of [process_obj_file] returns [True]:
    for each input file, in order, the call made in the state the earlier
    calls left returns [False] or raises.  Then [main] never calls
    [export_obj_file]: the state it leaves is the one those calls of
    [process_obj_file] produce, one after the other, and the summary counts
    0 successes. *)
Theorem nothing_exported_without_success (argv : list string) (b : Batch) :
  let TARGET_REDUCTION := fst (parse_arguments float_of_string argv) in
  let b1 := snd (ensure_output_dir Batch output_dir_exists makedirs b) in
  let step := fun b0 filepath => snd (process_obj_file filepath TARGET_REDUCTION b0) in
  in_unit_range TARGET_REDUCTION = true ->
  fst (ensure_output_dir Batch output_dir_exists makedirs b) = false ->
  glob_obj_files b1 <> [] ->
  (forall done filepath rest,
     glob_obj_files b1 = done ++ filepath :: rest ->
     fst (process_obj_file filepath TARGET_REDUCTION (fold_left step done b1))
       <> Some true) ->
  snd (main float_of_string Batch output_dir_exists makedirs glob_obj_files
            process_obj_file export_obj_file argv b)
    = fold_left step (glob_obj_files b1) b1 /\
  last (snd (fst (main float_of_string Batch output_dir_exists makedirs glob_obj_files
                       process_obj_file export_obj_file argv b))) MsgNoFiles
    = MsgSummary 0 (List.length (glob_obj_files b1)).
Proof.
  cbv zeta. intros Hrange Hdir Hfiles Hnone. unfold main.
  destruct (parse_arguments float_of_string argv) as [tr out]. cbn [fst snd] in *.
  rewrite Hrange. cbn [negb]. unfold run_batch.
  destruct (ensure_output_dir Batch output_dir_exists makedirs b) as [raised b1].
  cbn [fst snd] in *. subst raised.
  destruct (glob_obj_files b1) as [| f files] eqn:E; [contradiction |].
  pose proof (process_files_without_success (f :: files)
                (List.length (f :: files)) 1 tr 0 b1 Hnone) as H.
  cbv zeta in H.
  destruct (process_files _ _ _ _ 1 (f :: files) tr 0 b1) as [[k lines] b'].
  cbn [fst snd] in *. destruct H as [-> ->]. split; [reflexivity |].
  match goal with
  | |- last (out ++ ?x :: ?y :: lines ++ ?z) _ = _ =>
      replace (out ++ x :: y :: lines ++ z) with ((out ++ x :: y :: lines) ++ z)
        by (rewrite <- app_assoc; reflexivity)
  end.
  apply last_last.
Qed.

End DriverFacts.

(** * Properties of the per-file pipeline *)

Section PipelineFacts.

Context {World : Type} {engine : Engine World} {session_ops : Session World}.

Abbreviation FileSt := (FileSt World).
Abbreviation FM := (FM World).

(** ** Rules *)

Lemma fpost_weaken {A} (Q Q' : FRes A -> list (FileOp * bool) -> Prop) (m : FM A) :
  (forall r cs, Q r cs -> Q' r cs) -> fpost Q m -> fpost Q' m.
Proof.
  intros Himp Hm fs. destruct (Hm fs) as (cs & Hc & Hq). exists cs. auto.
Qed.

Lemma fsound_fret {A} P E (a : A) : fsound P E (fret a : FM A).
Proof.
  intros fs. exists []. simpl. rewrite app_nil_r.
  repeat split; auto. intros e H. discriminate.
Qed.

Lemma fsound_fgets {A} P E (f : World -> A) : fsound P E (fgets f : FM A).
Proof.
  intros fs. exists []. simpl. rewrite app_nil_r.
  repeat split; auto. intros e H. discriminate.
Qed.

Lemma fsound_fprint P E (m : FileMsg) : fsound P E (fprint m : FM unit).
Proof.
  intros fs. exists []. simpl. rewrite app_nil_r.
  repeat split; auto. intros e H. discriminate.
Qed.

Lemma fsound_file_call (P : FileOp -> Prop) (E : FileExn -> Prop) (op : FileOp) :
  P op -> E (FileError op) -> fsound P E (file_call op).
Proof.
  intros Hp He fs. unfold file_call.
  destruct (file_exec op (world (session fs))) as [raised w].
  exists [(op, raised)]. simpl. split; [reflexivity |]. split; [auto |].
  intros e H. destruct raised; [injection H as <-; exact He | discriminate].
Qed.

Lemma fsound_flift {A} (P : FileOp -> Prop) (E : FileExn -> Prop) (m : M World A) :
  (forall s e, fst (m s) = Raise e -> E (Inner e)) -> fsound P E (flift m).
Proof.
  intros He fs. unfold flift. specialize (He (session fs)).
  destruct (m (session fs)) as [[a | e] s]; exists []; simpl; rewrite app_nil_r;
    (split; [reflexivity |]); (split; [constructor |]); intros e' H.
  - discriminate.
  - injection H as <-. apply He. reflexivity.
Qed.

Lemma fsound_fbind {A B} P E (m : FM A) (k : A -> FM B) :
  fsound P E m -> (forall a, fsound P E (k a)) -> fsound P E (fbind m k).
Proof.
  intros Hm Hk fs. unfold fbind. destruct (Hm fs) as (cs1 & Hc1 & Hp1 & He1).
  destruct (m fs) as [[a | e] fs1]; simpl in *.
  - destruct (Hk a fs1) as (cs2 & Hc2 & Hp2 & He2).
    exists (cs1 ++ cs2). rewrite Hc2, Hc1, app_assoc.
    split; [reflexivity |]. split; [apply Forall_app; auto | exact He2].
  - exists cs1. split; [exact Hc1 |]. split; [exact Hp1 |].
    intros e0 H. injection H as <-. apply He1. reflexivity.
Qed.

Lemma fsound_ftry {A} P E E' (m : FM A) (handler : FileExn -> FM A) :
  fsound P E' m -> (forall e, fsound P E (handler e)) -> fsound P E (ftry m handler).
Proof.
  intros Hm Hh fs. unfold ftry. destruct (Hm fs) as (cs1 & Hc1 & Hp1 & He1).
  destruct (m fs) as [[a | e] fs1]; simpl in *.
  - exists cs1. split; [exact Hc1 |]. split; [exact Hp1 |]. intros e H. discriminate.
  - destruct (Hh e fs1) as (cs2 & Hc2 & Hp2 & He2).
    exists (cs1 ++ cs2). rewrite Hc2, Hc1, app_assoc.
    split; [reflexivity |]. split; [apply Forall_app; auto | exact He2].
Qed.

Lemma fsound_select_each P E count :
  (forall i, P (SelectObject i)) -> (forall i, E (FileError (SelectObject i))) ->
  forall i, fsound P E (select_each i count).
Proof.
  intros Hp He. induction count as [| count IH]; intros i; simpl.
  - apply fsound_fret.
  - apply fsound_fbind; [apply fsound_file_call; auto | intros _; apply IH].
Qed.

(** The three wrappers make calls in [P] and never raise. *)
Lemma fsound_import P E filepath :
  P (ObjImport filepath) -> fsound P E (import_obj_file filepath).
Proof.
  intros Hp. unfold import_obj_file.
  apply (fsound_ftry P E (fun _ => True)).
  - apply fsound_fbind; [apply fsound_file_call; auto | intros _].
    apply fsound_fbind; [apply fsound_fprint | intros _; apply fsound_fret].
  - intros e. apply fsound_fbind; [apply fsound_fprint | intros _; apply fsound_fret].
Qed.

Lemma fsound_capture P E filepath stage :
  P (Capture filepath stage) -> fsound P E (capture_wireframe_screenshot filepath stage).
Proof.
  intros Hp. unfold capture_wireframe_screenshot.
  apply (fsound_ftry P E (fun _ => True)).
  - apply fsound_fbind; [apply fsound_file_call; auto | intros _].
    apply fsound_fbind; [apply fsound_fprint | intros _; apply fsound_fret].
  - intros e. apply fsound_fbind; [apply fsound_fprint | intros _; apply fsound_fret].
Qed.

Lemma reduce_raises target_reduction (s : St World) e :
  fst (intelligent_mesh_reduction target_reduction s) = Raise e ->
  escaping (Inner e).
Proof.
  intros H.
  destruct (intelligent_mesh_reduction target_reduction s) as [r s'] eqn:E.
  simpl in H. subst r.
  destruct (reduce_raise_cases target_reduction s e s' E)
    as [[-> _] | [[-> _] | [Ht _]]]; simpl; auto.
  destruct (target_error_kind _ _ _ Ht) as [-> | ->]; exact I.
Qed.

Lemma percent_raises num den (s : St World) e :
  fst (float_percent num den s) = Raise e -> escaping (Inner e).
Proof.
  unfold float_percent, raise, ret. destruct (den =? 0); simpl; intros H.
  - injection H as <-. exact I.
  - discriminate.
Qed.

(** [process_obj_file], call by call: calls in [P], exceptions in [E]. *)
Lemma fsound_process (P : FileOp -> Prop) (E : FileExn -> Prop) filepath target_reduction :
  (forall op, unguarded op = true -> P op /\ E (FileError op)) ->
  (forall e, escaping (Inner e) -> E (Inner e)) ->
  P (ObjImport filepath) -> P (Capture filepath Before) -> P (Capture filepath After) ->
  fsound P E (process_obj_file filepath target_reduction).
Proof.
  intros Hun Hinner Himport Hbefore Hafter. unfold process_obj_file.
  assert (Hcall : forall op, unguarded op = true -> fsound P E (file_call op)).
  { intros op H. apply fsound_file_call; apply Hun; exact H. }
  apply fsound_fbind; [apply Hcall; reflexivity | intros _].
  apply fsound_fbind; [apply fsound_import; exact Himport | intros imported].
  destruct (negb imported); [apply fsound_fret |].
  apply fsound_fbind; [apply fsound_fgets | intros n].
  destruct (n =? 0).
  { apply fsound_fbind; [apply fsound_fprint | intros _; apply fsound_fret]. }
  apply fsound_fbind; [apply fsound_fprint | intros _].
  apply fsound_fbind.
  { destruct (1 <? n); [| apply fsound_fret].
    apply fsound_fbind; [apply fsound_fprint | intros _].
    apply fsound_fbind; [apply Hcall; reflexivity | intros _].
    apply fsound_fbind.
    { apply fsound_select_each; intros i; apply (Hun (SelectObject i)); reflexivity. }
    intros _.
    apply fsound_fbind; [apply Hcall; reflexivity | intros _].
    apply Hcall; reflexivity. }
  intros _.
  apply fsound_fbind; [apply fsound_fgets | intros original_faces].
  apply fsound_fbind; [apply fsound_fgets | intros dir_exists].
  apply fsound_fbind.
  { destruct (negb dir_exists); [| apply fsound_fret]. apply Hcall; reflexivity. }
  intros _.
  apply fsound_fbind; [apply Hcall; reflexivity | intros _].
  apply fsound_fbind; [apply fsound_capture; exact Hbefore | intros _].
  apply fsound_fbind.
  { apply fsound_flift. intros s e H. apply Hinner. eapply reduce_raises. exact H. }
  intros success. destruct success.
  - apply fsound_fbind; [apply fsound_fgets | intros final_faces].
    apply fsound_fbind.
    { apply fsound_flift. intros s e H. apply Hinner. eapply percent_raises. exact H. }
    intros actual_reduction.
    apply fsound_fbind; [apply fsound_fprint | intros _].
    apply fsound_fbind; [apply fsound_capture; exact Hafter | intros _].
    apply fsound_fbind; [apply fsound_fprint | intros _; apply fsound_fret].
  - apply fsound_fbind; [apply fsound_fprint | intros _; apply fsound_fret].
Qed.

(** ** The wrappers *)

(** X15. [import_obj_file], [export_obj_file] and
    [capture_wireframe_screenshot] never raise: each runs its guarded body
    (one call of the session) and returns [True] exactly when it went
    through. *)
Theorem file_wrappers_never_raise filepath stage (fs : FileSt) :
  let w := world (session fs) in
  (exists fs',
     import_obj_file filepath fs
       = (FOk (negb (fst (file_exec (ObjImport filepath) w))), fs') /\
     file_calls fs' = file_calls fs
         ++ [(ObjImport filepath, fst (file_exec (ObjImport filepath) w))]) /\
  (exists fs',
     export_obj_file filepath fs
       = (FOk (negb (fst (file_exec (ObjExport filepath) w))), fs') /\
     file_calls fs' = file_calls fs
         ++ [(ObjExport filepath, fst (file_exec (ObjExport filepath) w))]) /\
  (exists fs',
     capture_wireframe_screenshot filepath stage fs
       = (FOk (negb (fst (file_exec (Capture filepath stage) w))), fs') /\
     file_calls fs' = file_calls fs
         ++ [(Capture filepath stage, fst (file_exec (Capture filepath stage) w))]).
Proof.
  cbv zeta.
  unfold import_obj_file, export_obj_file, capture_wireframe_screenshot,
    ftry, fbind, file_call, fprint, fret.
  repeat split;
    match goal with
    | |- context [file_exec ?op ?w] => destruct (file_exec op w) as [[|] ?]
    end; simpl; eexists; split; reflexivity.
Qed.

(** ** [process_obj_file] *)

(** X16. When the import fails, or imports no mesh object,
    [process_obj_file] returns [False] after its first two calls: the
    controller is not run (no engine call of its own, no attempt, nothing
    printed by it) and no screenshot is taken. *)
Theorem nothing_to_reduce filepath target_reduction (fs : FileSt) :
  let w0 := world (session fs) in
  let w1 := snd (file_exec ReadFactorySettings w0) in
  let import_raised := fst (file_exec (ObjImport filepath) w1) in
  let w2 := snd (file_exec (ObjImport filepath) w1) in
  fst (file_exec ReadFactorySettings w0) = false ->
  import_raised = true \/ mesh_objects w2 = 0 ->
  exists fs',
    process_obj_file filepath target_reduction fs = (FOk false, fs') /\
    file_calls fs' = file_calls fs
        ++ [(ReadFactorySettings, false); (ObjImport filepath, import_raised)] /\
    calls (session fs') = calls (session fs) /\
    attempts (session fs') = attempts (session fs) /\
    stdout (session fs') = stdout (session fs).
Proof.
  cbv zeta. intros Hreset Hnothing.
  unfold process_obj_file. unfold fbind at 1. unfold file_call at 1.
  destruct (file_exec ReadFactorySettings (world (session fs))) as [raised w1].
  simpl in Hreset, Hnothing. subst raised.
  unfold fbind at 1. unfold import_obj_file, ftry, fbind at 1, file_call at 1.
  cbn [world session set_world fst snd].
  destruct (file_exec (ObjImport filepath) w1) as [[|] w2]; simpl in Hnothing |- *.
  - eexists. split; [reflexivity |]. simpl. rewrite <- app_assoc. auto.
  - destruct Hnothing as [H | H]; [discriminate |].
    unfold fbind, fgets, fprint, fret. simpl. rewrite H. simpl.
    eexists. split; [reflexivity |]. simpl. rewrite <- app_assoc. auto.
Qed.


(** ** The second screenshot *)

Lemma no_capture_after (cs : list (FileOp * bool)) :
  Forall (fun c => forall q, fst c <> Capture q After) cs ->
  existsb is_capture_after cs = false.
Proof.
  induction 1 as [| [op raised] cs Hop _ IH]; [reflexivity |].
  simpl. rewrite IH, orb_false_r. unfold is_capture_after. simpl in *.
  destruct op as [| | | | | | | | q [|] |]; try reflexivity.
  contradiction (Hop q). reflexivity.
Qed.

Lemma after_shot_bind {A} (m : FM A) (k : A -> FM bool) :
  fsound (fun op => forall q, op <> Capture q After) (fun _ => True) m ->
  (forall a,
     fpost (fun r cs => forall b, r = FOk b ->
                          (b = true <-> existsb is_capture_after cs = true)) (k a)) ->
  fpost (fun r cs => forall b, r = FOk b ->
                       (b = true <-> existsb is_capture_after cs = true)) (fbind m k).
Proof.
  intros Hm Hk fs. unfold fbind. destruct (Hm fs) as (cs1 & Hc1 & Hp1 & _).
  destruct (m fs) as [[a | e] fs1]; simpl in *.
  - destruct (Hk a fs1) as (cs2 & Hc2 & Hq2).
    exists (cs1 ++ cs2). rewrite Hc2, Hc1, app_assoc. split; [reflexivity |].
    intros b Hb. rewrite existsb_app, (no_capture_after cs1 Hp1). simpl.
    apply Hq2. exact Hb.
  - exists cs1. split; [exact Hc1 |]. intros b H. discriminate.
Qed.

Lemma after_shot_false :
  fpost (fun r cs => forall b, r = FOk b ->
                       (b = true <-> existsb is_capture_after cs = true))
        (fret false : FM bool).
Proof.
  intros fs. exists []. simpl. rewrite app_nil_r. split; [reflexivity |].
  intros b H. injection H as <-. simpl. split; discriminate.
Qed.

Lemma after_shot_process filepath target_reduction :
  fpost (fun r cs => forall b, r = FOk b ->
                       (b = true <-> existsb is_capture_after cs = true))
        (process_obj_file filepath target_reduction).
Proof.
  unfold process_obj_file.
  assert (Hcall : forall op, unguarded op = true ->
            fsound (fun op => forall q, op <> Capture q After) (fun _ => True)
                   (file_call op)).
  { intros op H. apply fsound_file_call; [| exact I].
    intros q E. subst op. discriminate H. }
  apply after_shot_bind; [apply Hcall; reflexivity | intros _].
  apply after_shot_bind; [apply fsound_import; discriminate | intros imported].
  destruct (negb imported); [apply after_shot_false |].
  apply after_shot_bind; [apply fsound_fgets | intros n].
  destruct (n =? 0).
  { apply after_shot_bind; [apply fsound_fprint | intros _; apply after_shot_false]. }
  apply after_shot_bind; [apply fsound_fprint | intros _].
  apply after_shot_bind.
  { destruct (1 <? n); [| apply fsound_fret].
    apply fsound_fbind; [apply fsound_fprint | intros _].
    apply fsound_fbind; [apply Hcall; reflexivity | intros _].
    apply fsound_fbind.
    { apply fsound_select_each; [intros i q H; discriminate H | intros i; exact I]. }
    intros _.
    apply fsound_fbind; [apply Hcall; reflexivity | intros _].
    apply Hcall; reflexivity. }
  intros _.
  apply after_shot_bind; [apply fsound_fgets | intros original_faces].
  apply after_shot_bind; [apply fsound_fgets | intros dir_exists].
  apply after_shot_bind.
  { destruct (negb dir_exists); [| apply fsound_fret]. apply Hcall; reflexivity. }
  intros _.
  apply after_shot_bind; [apply Hcall; reflexivity | intros _].
  apply after_shot_bind; [apply fsound_capture; discriminate | intros _].
  apply after_shot_bind; [apply fsound_flift; intros; exact I | intros success].
  destruct success.
  - apply after_shot_bind; [apply fsound_fgets | intros final_faces].
    apply after_shot_bind; [apply fsound_flift; intros; exact I | intros actual].
    apply after_shot_bind; [apply fsound_fprint | intros _].
    intros fs.
    unfold fbind, capture_wireframe_screenshot, ftry, fbind, file_call, fprint, fret.
    destruct (file_exec (Capture filepath After) (world (session fs))) as [[|] w];
      simpl; eexists [_]; (split; [reflexivity |]);
      intros b H; injection H as <-; simpl; split; reflexivity.
  - apply after_shot_bind; [apply fsound_fprint | intros _; apply after_shot_false].
Qed.

(** X18. When [process_obj_file] returns, the second ("after") screenshot has
    been attempted exactly if it returns [True]: a failed reduction is never
    photographed, a successful one always is, whether or not the first
    screenshot worked. *)
Theorem after_screenshot_iff_success filepath target_reduction (fs : FileSt) b fs' cs :
  process_obj_file filepath target_reduction fs = (FOk b, fs') ->
  file_calls fs' = file_calls fs ++ cs ->
  (b = true <-> exists raised, In (Capture filepath After, raised) cs).
Proof.
  intros Hrun Hcs.
  destruct (after_shot_process filepath target_reduction fs) as (cs' & Hcs' & Hq).
  destruct (fsound_process
              (fun op => forall q, op = Capture q After -> q = filepath)
              (fun _ => True) filepath target_reduction) with (fs := fs)
    as (cs'' & Hcs'' & Hown & _).
  { intros op H. split; [| exact I]. intros q E. subst op. discriminate H. }
  { intros; exact I. }
  { intros q E. discriminate E. }
  { intros q E. discriminate E. }
  { intros q E. injection E as <-. reflexivity. }
  rewrite Hrun in Hcs', Hcs'', Hq. simpl in Hcs', Hcs'', Hq.
  rewrite Hcs in Hcs', Hcs''. apply app_inv_head in Hcs', Hcs''. subst cs' cs''.
  rewrite (Hq b eq_refl), existsb_exists. split.
  - intros ([op raised] & Hin & Hafter). unfold is_capture_after in Hafter.
    simpl in Hafter. destruct op as [| | | | | | | | q [|] |]; try discriminate.
    rewrite Forall_forall in Hown. rewrite (Hown _ Hin q eq_refl) in Hin. eauto.
  - intros (raised & Hin). exists (Capture filepath After, raised). auto.
Qed.

(** ** The batch over a session *)

Lemma no_good_exports (cs : list (FileOp * bool)) :
  Forall (fun c => is_export (fst c) = false) cs -> good_exports cs = [].
Proof.
  unfold good_exports. induction 1 as [| c cs Hc _ IH]; [reflexivity |].
  simpl. rewrite Hc, IH. reflexivity.
Qed.

Lemma good_exports_app (cs1 cs2 : list (FileOp * bool)) :
  good_exports (cs1 ++ cs2) = good_exports cs1 ++ good_exports cs2.
Proof. unfold good_exports. apply filter_app. Qed.

Lemma process_step_exports filepath TARGET_REDUCTION (fs : FileSt) :
  exists cs,
    file_calls (snd (process_step filepath TARGET_REDUCTION fs)) = file_calls fs ++ cs /\
    good_exports cs = [].
Proof.
  unfold process_step.
  destruct TARGET_REDUCTION as [q | |];
    [| exists []; simpl; rewrite app_nil_r; auto ..].
  destruct (fsound_process (fun op => is_export op = false) (fun _ => True) filepath q)
    with (fs := fs) as (cs & Hcs & Hp & _); auto.
  - intros op H. split; [| exact I]. destruct op; try discriminate H; reflexivity.
  - exists cs. split; [| apply no_good_exports; exact Hp].
    destruct (process_obj_file filepath q fs) as [[b | e] fs']; exact Hcs.
Qed.

Lemma export_step_exports filepath (fs : FileSt) :
  exists raised,
    file_calls (snd (export_step filepath fs))
      = file_calls fs ++ [(ObjExport filepath, raised)] /\
    fst (export_step filepath fs) = negb raised.
Proof.
  unfold export_step, export_obj_file, ftry, fbind, file_call, fprint, fret.
  destruct (file_exec (ObjExport filepath) (world (session fs))) as [[|] w];
    simpl; eexists; split; reflexivity.
Qed.

Lemma session_process_files files :
  forall n i TARGET_REDUCTION k (fs : FileSt),
    exists cs,
      file_calls (snd (process_files FileSt process_step export_step n i files
                         TARGET_REDUCTION k fs))
        = file_calls fs ++ cs /\
      fst (fst (process_files FileSt process_step export_step n i files
                  TARGET_REDUCTION k fs))
        = k + List.length (good_exports cs).
Proof.
  induction files as [| filepath rest IH]; intros n i tr k fs.
  - exists []. simpl. rewrite app_nil_r. auto.
  - cbn [process_files].
    destruct (process_step_exports filepath tr fs) as (cs1 & Hc1 & Hg1).
    destruct (process_step filepath tr fs) as [[[|] |] fs1]; cbn [snd] in Hc1.
    + destruct (export_step_exports filepath fs1) as (raised & Hc2 & Hb).
      destruct (export_step filepath fs1) as [exported fs2]. cbn [fst snd] in Hc2, Hb.
      subst exported.
      destruct raised; cbn [negb].
      * destruct (IH n (S i) tr k fs2) as (cs3 & Hc3 & Hk3).
        destruct (process_files _ _ _ n (S i) rest tr k fs2) as [[k' out] fs'].
        cbn [fst snd] in *. exists (cs1 ++ [(ObjExport filepath, true)] ++ cs3).
        rewrite Hc3, Hc2, Hc1, <- !app_assoc. split; [reflexivity |].
        rewrite !good_exports_app, Hg1, Hk3. reflexivity.
      * destruct (IH n (S i) tr (S k) fs2) as (cs3 & Hc3 & Hk3).
        destruct (process_files _ _ _ n (S i) rest tr (S k) fs2) as [[k' out] fs'].
        cbn [fst snd] in *. exists (cs1 ++ [(ObjExport filepath, false)] ++ cs3).
        rewrite Hc3, Hc2, Hc1, <- !app_assoc. split; [reflexivity |].
        rewrite !good_exports_app, Hg1, Hk3. simpl. lia.
    + destruct (IH n (S i) tr k fs1) as (cs3 & Hc3 & Hk3).
      destruct (process_files _ _ _ n (S i) rest tr k fs1) as [[k' out] fs'].
      cbn [fst snd] in *. exists (cs1 ++ cs3).
      rewrite Hc3, Hc1, <- app_assoc. split; [reflexivity |].
      rewrite good_exports_app, Hg1, Hk3. reflexivity.
    + destruct (IH n (S i) tr k fs1) as (cs3 & Hc3 & Hk3).
      destruct (process_files _ _ _ n (S i) rest tr k fs1) as [[k' out] fs'].
      cbn [fst snd] in *. exists (cs1 ++ cs3).
      rewrite Hc3, Hc1, <- app_assoc. split; [reflexivity |].
      rewrite good_exports_app, Hg1, Hk3. reflexivity.
Qed.

Lemma makedirs_step_exports (fs : FileSt) :
  exists cs,
    file_calls (snd (ensure_output_dir FileSt
                       (fun fs => output_dir_exists (world (session fs)))
                       makedirs_step fs))
      = file_calls fs ++ cs /\
    good_exports cs = [].
Proof.
  unfold ensure_output_dir.
  destruct (output_dir_exists (world (session fs))).
  - exists []. simpl. rewrite app_nil_r. auto.
  - unfold makedirs_step, file_call.
    destruct (file_exec MakeOutputDir (world (session fs))) as [[|] w];
      simpl; eexists [_]; split; reflexivity.
Qed.

(** X20. In a batch run by [main] over the pipeline, with a reduction inside
    [0, 1], an output directory that exists or can be created and at least
    one input file, [main] returns and the number of successes in the
    summary is the number of export calls that went through; no file is
    exported by [process_obj_file] itself. *)
Theorem summary_counts_exports float_of_string (argv : list string) (fs : FileSt) :
  let dir :=
    ensure_output_dir FileSt (fun fs => output_dir_exists (world (session fs)))
      makedirs_step fs in
  let files := input_files (world (session (snd dir))) in
  in_unit_range (fst (parse_arguments float_of_string argv)) = true ->
  fst dir = false ->
  files <> [] ->
  exists cs,
    fst (fst (session_main float_of_string argv fs)) = Returned /\
    file_calls (snd (session_main float_of_string argv fs)) = file_calls fs ++ cs /\
    last (snd (fst (session_main float_of_string argv fs))) MsgNoFiles
      = MsgSummary (List.length (good_exports cs)) (List.length files).
Proof.
  cbv zeta. intros Hrange Hdir Hfiles. unfold session_main, main.
  destruct (parse_arguments float_of_string argv) as [tr out]. cbn [fst] in Hrange.
  rewrite Hrange. cbn [negb]. unfold run_batch.
  destruct (makedirs_step_exports fs) as (cs0 & Hcs0 & Hg0).
  destruct (ensure_output_dir FileSt _ makedirs_step fs) as [raised fs1].
  cbn [fst snd] in *. subst raised.
  destruct (input_files (world (session fs1))) as [| f files] eqn:E; [contradiction |].
  destruct (session_process_files (f :: files) (List.length (f :: files)) 1 tr 0 fs1)
    as (cs & Hcs & Hk).
  destruct (process_files _ _ _ _ 1 (f :: files) tr 0 fs1) as [[k lines] fs'].
  cbn [fst snd] in *. exists (cs0 ++ cs). split; [reflexivity |].
  split; [rewrite Hcs, Hcs0, app_assoc; reflexivity |].
  rewrite good_exports_app, Hg0. cbn [app]. subst k.
  match goal with
  | |- last (out ++ ?x :: ?y :: lines ++ ?z) _ = _ =>
      replace (out ++ x :: y :: lines ++ z) with ((out ++ x :: y :: lines) ++ z)
        by (rewrite <- app_assoc; reflexivity)
  end.
  apply last_last.
Qed.

End PipelineFacts.

(** ** The quality bands *)

Lemma bands_by_counts_spec (max_faces : nat) :
  bands_by_counts max_faces = true ->
  forall original_faces final_faces k,
    0 < original_faces <= max_faces -> final_faces <= original_faces -> k <= 100 ->
    let removed := (Z.of_nat original_faces - Z.of_nat final_faces)%Z in
    quality_band (percentage removed original_faces) (hundredth k)
      = band_by_counts (Z.of_nat original_faces) removed (Z.of_nat k).
Proof.
  intros H original_faces final_faces k Ho Hf Hk. cbv zeta.
  unfold bands_by_counts in H. cbv zeta in H. rewrite forallb_forall in H.
  specialize (H original_faces). rewrite in_seq in H. specialize (H ltac:(lia)).
  rewrite forallb_forall in H.
  specialize (H (original_faces - final_faces)). rewrite in_seq in H.
  specialize (H ltac:(lia)). rewrite forallb_forall in H.
  specialize (H (k, expected_reduction (hundredth k))).
  assert (Hin : In (k, expected_reduction (hundredth k))
                   (map (fun k => (k, expected_reduction (hundredth k))) (seq 0 101))).
  { apply in_map_iff. exists k. split; [reflexivity |]. apply in_seq. lia. }
  specialize (H Hin). cbn [fst snd] in H.
  replace (Z.of_nat (original_faces - final_faces))
    with (Z.of_nat original_faces - Z.of_nat final_faces)%Z in H by lia.
  unfold quality_band.
  destruct (verdict _ _); destruct (band_by_counts _ _ _);
    first [reflexivity | discriminate H].
Qed.

Lemma bands_checked : bands_by_counts 100 = true.
Proof. vm_compute. reflexivity. Qed.


(** * Further concrete runs *)

(** The scripted engine changes the face count on [ModifierApply] only. *)
Lemma scripted_frame (op : Op) (w : Scene) :
  (forall name, op <> ModifierApply name) ->
  polygons (snd (exec op w)) = polygons w.
Proof.
  intros H. destruct op; try reflexivity. contradiction (H name). reflexivity.
Qed.

Lemma never_emptied_faces (w : Scene) : never_emptied w -> 0 < polygons w.
Proof. intros [H _]. exact H. Qed.

Lemma never_emptied_exec (op : Op) (w : Scene) :
  never_emptied w -> never_emptied (snd (exec op w)).
Proof.
  intros [Hfaces Hscript]. destruct op; try (split; assumption).
  unfold never_emptied. simpl.
  destruct (scene_script w) as [| e script] eqn:E.
  - simpl. rewrite E. split; assumption.
  - assert (He := Forall_inv Hscript). assert (Hl := Forall_inv_tail Hscript).
    destruct e as [n | |]; simpl; (split; [| exact Hl]); try exact Hfaces.
    rewrite repeat_length. destruct n; [contradiction He; reflexivity | lia].
Qed.

Lemma never_emptied_mode (w : Scene) :
  never_emptied w -> fst (exec (ModeSet "OBJECT") w) = false.
Proof. reflexivity. Qed.

(** X1 with a target reduction of 1: the collapses ask for the ratios 0.3 and
    0.1, never for 0. *)
Lemma collapse_ratio_never_below_floor_witness :
  In (ModifierSet "ratio" (VNum 0.1), false) (calls (snd (reduce_run 1 converging))) /\
  forall q raised,
    In (ModifierSet "ratio" (VNum q), raised) (calls (snd (reduce_run 1 converging))) ->
    (0.1 <= q)%Q.
Proof.
  split; [vm_compute; tauto |].
  apply (collapse_ratio_never_below_floor 1 (init converging)
           (calls (snd (reduce_run 1 converging)))).
  vm_compute. reflexivity.
Defined.

(** X2 on the first collapse of the run [converging]. *)
Lemma plain_strategy_true_means_fewer_faces_witness :
  let s := init converging in
  let s' := snd (run_strategy (Quadric 0.35 true) s) in
  polygons (world s') = 680 /\ polygons (world s') < polygons (world s).
Proof.
  cbv zeta. split; [vm_compute; reflexivity |].
  apply (plain_strategy_true_means_fewer_faces scripted_frame (Quadric 0.35 true)
           (init converging)).
  - reflexivity.
  - vm_compute. reflexivity.
Defined.

(** X3 on the second attempt of the run [converging]. *)
Lemma succeeded_attempts_lose_faces_witness :
  let a := {| strategy_name := "Un-Subdivide"; faces_before := 680;
              faces_after := 480; succeeded := true; effective := true |} in
  In a (attempts (snd (reduce_run 0.5 converging))) /\
  faces_after a < faces_before a.
Proof.
  cbv zeta.
  assert (Hin : In {| strategy_name := "Un-Subdivide"; faces_before := 680;
                      faces_after := 480; succeeded := true; effective := true |}
                   (attempts (snd (reduce_run 0.5 converging))))
    by (vm_compute; tauto).
  split; [exact Hin |].
  apply (succeeded_attempts_lose_faces scripted_frame 0.5 (init converging)
           (attempts (snd (reduce_run 0.5 converging)))).
  - vm_compute. reflexivity.
  - exact Hin.
  - reflexivity.
  - discriminate.
Defined.

(** X4 on the run [slight], where no attempt stops the loop and all four
    strategies of the structured list are tried. *)
Lemma attempts_follow_catalog_witness :
  let s := init slight in
  let new := attempts (snd (reduce_run 0.5 slight)) in
  map strategy_name new =
    firstn (List.length new) (map fst (strategies (category (world s)) 0.5)) /\
  List.length new <= 4 /\
  chained (polygons (world s)) new /\
  (forall target_faces,
     target_faces_of (polygons (world s)) 0.5 = Ok target_faces ->
     new <> [] ->
     (exists b, fst (intelligent_mesh_reduction 0.5 s) = Ok b) ->
     Forall (fun a => stops target_faces a = false) new ->
     List.length new = 4).
Proof.
  cbv zeta.
  apply (attempts_follow_catalog 0.5 (init slight)
           (attempts (snd (reduce_run 0.5 slight)))).
  vm_compute. reflexivity.
Defined.

(** Without a finite target the call does not return: for a reduction of
    -10^308 the product [1000 * (1 - target_reduction)] is an infinity, and
    the [OverflowError] of [int()] leaves [intelligent_mesh_reduction] on a
    mesh that no script empties. *)
Lemma unbounded_reduction_overflows :
  never_emptied converging /\
  target_faces_of 1000 (- (10 ^ 308) # 1) = Raise OverflowError /\
  fst (reduce_run (- (10 ^ 308) # 1) converging) = Raise OverflowError /\
  attempts (snd (reduce_run (- (10 ^ 308) # 1) converging)) = [].
Proof.
  split.
  { split; [apply Nat.ltb_lt; vm_compute; reflexivity |].
    repeat constructor; discriminate. }
  split; [vm_compute; reflexivity |].
  split; vm_compute; reflexivity.
Qed.



(** X8 on a triangle mesh of 1000 faces and 900 vertices. *)
Lemma classification_by_counts_witness :
  let s := init (dense_mesh []) in
  is_valid_obj (world s) = true /\
  (fst (analyze_mesh_quality s) = Ok "dense" <->
   10 * List.length (filter (Nat.eqb 4) (face_verts (world s))) <= 7 * polygons (world s) /\
   4 * polygons (world s) < 5 * vert_count (world s)).
Proof.
  cbv zeta.
  assert (H : is_valid_obj (world (init (dense_mesh []))) = true) by reflexivity.
  split; [exact H |].
  exact (proj1 (proj2 (classification_by_counts (init (dense_mesh [])) H))).
Defined.


(** X11 on an object without faces. *)
Lemma invalid_object_is_refused_witness :
  let s := init (mesh 3 0 0 [Becomes 10]) in
  intelligent_mesh_reduction 0.5 s = (Ok false, put_msg MsgInvalid s) /\
  analyze_mesh_quality s = (Ok "unknown", s).
Proof.
  cbv zeta. apply (invalid_object_is_refused 0.5 (init (mesh 3 0 0 [Becomes 10]))).
  right. reflexivity.
Defined.

(** X13 on the command line [-r 0.3] over two files. *)
Lemma batch_reports_every_file_witness :
  in_unit_range (fst (parse_arguments decimal_float ["remesh.py"; "-r"; "0.3"])) = true /\
  exists lines successful_files,
    fst (demo_main ["remesh.py"; "-r"; "0.3"])
      = (Returned,
         snd (parse_arguments decimal_float ["remesh.py"; "-r"; "0.3"])
           ++ MsgBanner (fst (parse_arguments decimal_float ["remesh.py"; "-r"; "0.3"]))
              :: MsgFound 2 :: lines ++ [MsgSummary successful_files 2]) /\
    List.length lines = 2 /\
    successful_files = List.length (ok_lines lines) /\
    successful_files <= 2.
Proof.
  assert (H : in_unit_range
                (fst (parse_arguments decimal_float ["remesh.py"; "-r"; "0.3"])) = true)
    by (vm_compute; reflexivity).
  split; [exact H |].
  apply (batch_reports_every_file decimal_float (list string)
           (fun _ => true) (fun done => (false, done)) (fun _ => demo_files)
           (fun filepath _ done => (Some true, done ++ [filepath]))
           (fun _ done => (true, done))
           ["remesh.py"; "-r"; "0.3"] [] H).
  - reflexivity.
  - discriminate.
Defined.

(** X14 on the directory [stubborn_project], run through the pipeline: the
    first file imports a mesh that no strategy reduces, the second imports
    no mesh; nothing is exported and the summary counts 0 of 2. *)
Lemma nothing_exported_without_success_witness :
  let fs := file_init stubborn_project in
  let run := session_main decimal_float ["remesh.py"] fs in
  existsb (fun c => is_export (fst c)) (file_calls (snd run)) = false /\
  snd run
    = fold_left (fun fs0 filepath => snd (process_step filepath (Finite 0.5) fs0))
                ["stubborn.obj"; "empty.obj"] fs /\
  last (snd (fst run)) MsgNoFiles = MsgSummary 0 2.
Proof.
  cbv zeta. split; [vm_compute; reflexivity |].
  refine (nothing_exported_without_success decimal_float (FileSt Project)
            (fun fs => output_dir_exists (world (session fs))) makedirs_step
            (fun fs => input_files (world (session fs)))
            process_step export_step
            ["remesh.py"] (file_init stubborn_project) _ _ _ _).
  - vm_compute. reflexivity.
  - reflexivity.
  - discriminate.
  - intros done filepath rest E.
    destruct done as [| d1 [| d2 done]].
    + injection E as <- _. vm_compute. discriminate.
    + injection E as <- <- _. vm_compute. discriminate.
    + exfalso. injection E as _ _ E. destruct done; discriminate E.
Defined.

(** X16 on a file that is not in the project and on one without a mesh. *)
Lemma nothing_to_reduce_witness :
  (exists fs',
     process_obj_file "missing.obj" 0.5 (file_init (demo_project false)) = (FOk false, fs') /\
     file_calls fs' = [(ReadFactorySettings, false); (ObjImport "missing.obj", true)]) /\
  (exists fs',
     process_obj_file "empty.obj" 0.5 (file_init (demo_project false)) = (FOk false, fs') /\
     file_calls fs' = [(ReadFactorySettings, false); (ObjImport "empty.obj", false)]).
Proof.
  split.
  - destruct (nothing_to_reduce "missing.obj" 0.5 (file_init (demo_project false)))
      as (fs' & Hrun & Hcalls & _).
    + reflexivity.
    + left. reflexivity.
    + exists fs'. split; [exact Hrun | exact Hcalls].
  - destruct (nothing_to_reduce "empty.obj" 0.5 (file_init (demo_project false)))
      as (fs' & Hrun & Hcalls & _).
    + reflexivity.
    + right. reflexivity.
    + exists fs'. split; [exact Hrun | exact Hcalls].
Defined.


(** X18 with a broken camera: both screenshots fail, the reduction succeeds,
    and the second screenshot was attempted. *)
Lemma after_screenshot_iff_success_witness :
  let run := process_obj_file "good.obj" 0.5 (file_init (demo_project true)) in
  fst run = FOk true /\
  (true = true <->
   exists raised, In (Capture "good.obj" After, raised) (file_calls (snd run))).
Proof.
  cbv zeta. split; [vm_compute; reflexivity |].
  apply (after_screenshot_iff_success "good.obj" 0.5 (file_init (demo_project true)) true
           (snd (process_obj_file "good.obj" 0.5 (file_init (demo_project true))))).
  - vm_compute. reflexivity.
  - reflexivity.
Defined.


(** X20 on the demonstration project: three files, one export, one success
    in the summary. *)
Lemma summary_counts_exports_witness :
  let fs := file_init (demo_project false) in
  let run := session_main decimal_float ["remesh.py"] fs in
  good_exports (file_calls (snd run)) = [(ObjExport "good.obj", false)] /\
  exists cs,
    fst (fst run) = Returned /\
    file_calls (snd run) = file_calls fs ++ cs /\
    last (snd (fst run)) MsgNoFiles = MsgSummary (List.length (good_exports cs)) 3.
Proof.
  cbv zeta. split; [vm_compute; reflexivity |].
  refine (summary_counts_exports decimal_float ["remesh.py"]
            (file_init (demo_project false)) _ _ _).
  - vm_compute. reflexivity.
  - reflexivity.
  - discriminate.
Defined.
